(** * SentimentFlow: strategy evaluation and execution engine

    A shallow embedding of the backend's strategy engine
    ([src/strategy/execution_engine.ts]), of its settlement wrappers
    ([src/mcp/tools.ts]), of the manual execution route
    ([src/api/routes/execute.ts]), of the unit conversions of the utility
    module, and of the on-chain module [sentiment_flow::strategy]; then of
    the in-memory cache and [retry] of the utility modules, of the Aptos
    client, of the read routes ([GET /markets], [GET /sentiment/:tag]), of the
    sentiment fetcher, and of the registration made by [POST /strategy].

    JavaScript numbers are IEEE-754 binary64 values and are modelled by the
    primitive floats of the kernel; timestamps are integers (milliseconds
    since the epoch); the relational store is a record of tables. *)

From Stdlib Require Import ZArith QArith Qround Qabs Qreals Reals Floats.
From Stdlib Require Import Lia Lra Lqa Psatz.
From stdpp Require Import gmap strings list sorting pretty.

Set Warnings "-inexact-float".

(** ** JavaScript numbers *)

Module Js.

Definition number := float.

(** [x >= y] and [x > y] on numbers: false as soon as one side is NaN. *)
Definition ge (x y : number) : bool := PrimFloat.leb y x.
Definition gt (x y : number) : bool := PrimFloat.ltb y x.

(** The number that represents the integer [n]; [neg_zero] chooses the sign
    of a zero result.  Exact whenever [|n| < 2^53]. *)
Definition of_integer (n : Z) (neg_zero : bool) : number :=
  SF2Prim (binary_normalize prec emax n 0 neg_zero).

(** [Math.round]: the nearest integer, ties towards +infinity.  A finite
    non-zero [x] is [v / 2^(-e)] for its signed mantissa [v]; non-negative
    exponents, zeros, infinities and NaN are returned unchanged. *)
Definition Math_round (x : number) : number :=
  match Prim2SF x with
  | S754_finite s m e =>
      if (0 <=? e)%Z then x
      else
        let v := if s then Z.neg m else Z.pos m in
        let d := (2 ^ (- e))%Z in
        of_integer ((2 * v + d) / (2 * d)) s
  | _ => x
  end.

(** [Math.floor]. *)
Definition Math_floor (x : number) : number :=
  match Prim2SF x with
  | S754_finite s m e =>
      if (0 <=? e)%Z then x
      else
        let v := if s then Z.neg m else Z.pos m in
        of_integer (v / 2 ^ (- e)) false
  | _ => x
  end.

Arguments Math_round x%_float.
Arguments Math_floor x%_float.

(** The exact rational value of a finite number. *)
Definition value (x : number) : option Q :=
  match Prim2SF x with
  | S754_zero _ => Some 0%Q
  | S754_finite s m e =>
      let v := if s then Z.neg m else Z.pos m in
      Some (if (0 <=? e)%Z then inject_Z (v * 2 ^ e)
            else Qmake v (Z.to_pos (2 ^ (- e))))
  | _ => None
  end.

Arguments value x%_float.

(** The integer a number denotes, when it denotes one. *)
Definition to_integer (x : number) : option Z :=
  match value x with
  | Some q => if Qeq_bool q (inject_Z (Qfloor q)) then Some (Qfloor q) else None
  | None => None
  end.

Arguments to_integer x%_float.

(** [x.toString()] of an integral number, as the integer that the text reads
    as.  Below [2^53] the text is the number.  From there on it is the
    decimal with the fewest significant digits that reads back as [x] (the
    closest to [x] when there are two, the even one at equal distance),
    filled up with zeros; from [10^21] on the text has an exponent and is no
    integer numeral, as little as that of [NaN] or [Infinity]. *)
Definition decimal_digits (n : Z) : Z :=
  Z.of_nat (length (filter (fun k => (10 ^ Z.of_nat k <= n)%Z) (seq 0 22))).

Definition shortest_with (x : number) (n : Z) (k : Z) : option Z :=
  let p := (10 ^ (decimal_digits n - k))%Z in
  let s := (n / p)%Z in
  let reads (v : Z) := PrimFloat.eqb (of_integer v false) x in
  match reads (s * p)%Z, reads ((s + 1) * p)%Z with
  | true, true =>
      Some (if (n - s * p <? (s + 1) * p - n)%Z then (s * p)%Z
            else if ((s + 1) * p - n <? n - s * p)%Z then ((s + 1) * p)%Z
            else if Z.even s then (s * p)%Z else ((s + 1) * p)%Z)
  | true, false => Some (s * p)%Z
  | false, true => Some ((s + 1) * p)%Z
  | false, false => None
  end.

Definition printed_integer (x : number) : option Z :=
  match to_integer x with
  | Some n =>
      if (n <? 2 ^ 53)%Z then Some n
      else if (n <? 10 ^ 21)%Z
      then head (omap (fun k => shortest_with x n (Z.of_nat k))
                      (seq 1 (Z.to_nat (decimal_digits n))))
      else None
  | None => None
  end.

Arguments printed_integer x%_float.

End Js.

(** ** Unit conversions (utility module) *)

Definition probToBps (probability : Js.number) : Js.number :=
  Js.Math_round (probability * 10000)%float.

Definition sentimentToBps (sentiment : Js.number) : Js.number :=
  Js.Math_round ((sentiment + 1) * 5000)%float.

Definition bpsToProb (bps : Js.number) : Js.number :=
  (bps / 10000)%float.

Definition bpsToSentiment (bps : Js.number) : Js.number :=
  ((bps / 5000) - 1)%float.

Arguments probToBps probability%_float.
Arguments sentimentToBps sentiment%_float.
Arguments bpsToProb bps%_float.
Arguments bpsToSentiment bps%_float.

(** Distance between the exact values of two numbers. *)
Definition distance (x y : Js.number) : option Q :=
  match Js.value x, Js.value y with
  | Some a, Some b => Some (Qabs (a - b))
  | _, _ => None
  end.

Arguments distance (x y)%_float.

(** The same four conversions read over exact rational arithmetic: no
    rounding other than that of [Math.round] itself. *)
Definition exact_round (x : Q) : Z := Qfloor (x + (1 # 2)).
Definition exact_probToBps (p : Q) : Z := exact_round (p * 10000).
Definition exact_sentimentToBps (s : Q) : Z := exact_round ((s + 1) * 5000).
Definition exact_bpsToProb (bps : Z) : Q := inject_Z bps / 10000.
Definition exact_bpsToSentiment (bps : Z) : Q := inject_Z bps / 5000 - 1.

(** ** Real-number reading of binary64 values

    The real number a [spec_float] denotes, and the position of a real number
    relative to a mantissa under truncation; both serve to bound the rounding
    error of the float operations the conversions perform. *)

Section Binary64.
Local Open Scope R_scope.

Definition bpow (e : Z) : R := powerRZ 2 e.

(** [inb mrs e x]: the record [mrs] locates [x] on the grid of step [2^e],
    its round and sticky bits telling on which side of the midpoint. *)
Definition inb (mrs : shr_record) (e : Z) (x : R) : Prop :=
  let m := IZR (shr_m mrs) in
  match shr_r mrs, shr_s mrs with
  | false, false => x = m * bpow e
  | false, true => m * bpow e < x < (m + / 2) * bpow e
  | true, false => x = (m + / 2) * bpow e
  | true, true => (m + / 2) * bpow e < x < (m + 1) * bpow e
  end.

Definition SFabsR (z : spec_float) : R :=
  match z with
  | S754_finite _ m e => IZR (Zpos m) * bpow e
  | _ => 0
  end.

Definition SFsign (z : spec_float) : option bool :=
  match z with
  | S754_finite s _ _ => Some s
  | S754_zero s => Some s
  | _ => None
  end.

Definition SF2R (z : spec_float) : R :=
  match z with
  | S754_finite s m e => IZR (cond_Zopp s (Zpos m)) * bpow e
  | _ => 0
  end.

Definition SFfinite (z : spec_float) : bool :=
  match z with
  | S754_finite _ _ _ | S754_zero _ => true
  | _ => false
  end.

End Binary64.

(** The integers a basis-point conversion produces on its range, and the
    comparison of a number with a rational up to [10^-15]. *)
Definition integers : list Z := map Z.of_nat (seq 0 (Z.to_nat 10001)).

Definition close_to (x : Js.number) (q : Q) : bool :=
  match Js.value x with
  | Some v => Qle_bool (Qabs (v - q)) (1 # 1000000000000000)
  | None => false
  end.

(** ** Data model (relational store)

    [StrategyStatus] has the three values of the schema's enum
    ([CREATE TYPE "StrategyStatus"] of the migration). *)

Inductive StrategyStatus := ACTIVE | EXECUTED | EXPIRED.

#[global] Instance StrategyStatus_eq_dec : EqDecision StrategyStatus.
Proof. solve_decision. Defined.

(** A row of table [Strategy], without its primary key [id]: the table is a
    finite map from ids to rows.  Only the columns that the engine reads or
    writes are kept. *)
Record Strategy := {
  ownerAddress : string;
  marketId : string;
  sentimentTag : string;
  minPredictionProb : Js.number;
  minSentimentScore : Js.number;
  notionalAmount : Js.number;
  maxSlippageBps : Z;
  expiryTimestamp : Z;
  status : StrategyStatus;
  lastExecutedAt : option Z;
  lastTxHash : option string
}.

Record MarketSnapshot := {
  ms_marketId : string;
  ms_timestamp : Z;
  ms_probability : Js.number
}.

Record SentimentSnapshot := {
  ss_tag : string;
  ss_timestamp : Z;
  ss_score : Js.number
}.

Record ExecutionLog := {
  log_strategyId : string;
  log_timestamp : Z;
  log_success : bool;
  log_txHash : option string;
  log_reason : option string
}.

Record Database := {
  strategy : gmap string Strategy;
  marketSnapshot : list MarketSnapshot;
  sentimentSnapshot : list SentimentSnapshot;
  executionLog : list ExecutionLog
}.

Definition with_strategy (d : Database) (t : gmap string Strategy) : Database :=
  {| strategy := t; marketSnapshot := marketSnapshot d;
     sentimentSnapshot := sentimentSnapshot d; executionLog := executionLog d |}.

Definition with_executionLog (d : Database) (l : list ExecutionLog) : Database :=
  {| strategy := strategy d; marketSnapshot := marketSnapshot d;
     sentimentSnapshot := sentimentSnapshot d; executionLog := l |}.

(** *** Query combinators *)

(** Stable sort: [le a b] reads "a may stand before b". *)
Fixpoint insert_by {A} (le : A -> A -> bool) (x : A) (l : list A) : list A :=
  match l with
  | [] => [x]
  | y :: l' => if le x y then x :: y :: l' else y :: insert_by le x l'
  end.

Definition sort_by {A} (le : A -> A -> bool) (l : list A) : list A :=
  foldr (insert_by le) [] l.

(** [distinct]: the first row of every key, in the order of the input;
    [seen] holds the keys already delivered. *)
Fixpoint distinct_from {A} (key : A -> string) (seen : list string) (l : list A)
  : list A :=
  match l with
  | [] => []
  | x :: l' =>
      if bool_decide (key x ∈ seen) then distinct_from key seen l'
      else x :: distinct_from key (key x :: seen) l'
  end.

Definition distinct_by {A} (key : A -> string) (l : list A) : list A :=
  distinct_from key [] l.

Definition one_day : Z := 24 * 60 * 60 * 1000.
Definition seven_days : Z := 7 * 24 * 60 * 60 * 1000.

(** [sentimentSnapshot.findMany] of Discovery: last 24 hours, score above
    0.1, best score first, one row per tag. *)
Definition recentSentiments (d : Database) (now : Z) : list SentimentSnapshot :=
  distinct_by ss_tag
    (sort_by (fun a b => Js.ge (ss_score a) (ss_score b))
       (filter (fun s => (now - one_day <= ss_timestamp s)%Z
                         /\ Js.gt (ss_score s) 0.1%float = true)
               (sentimentSnapshot d))).

(** [marketSnapshot.findMany] of Discovery: last 24 hours, newest first, one
    row per market. *)
Definition recentMarkets (d : Database) (now : Z) : list MarketSnapshot :=
  distinct_by ms_marketId
    (sort_by (fun a b => (ms_timestamp b <=? ms_timestamp a)%Z)
       (filter (fun m => (now - one_day <= ms_timestamp m)%Z)
               (marketSnapshot d))).

(** [findFirst ... orderBy timestamp desc]: the latest snapshot. *)
Definition latestMarketSnapshot (d : Database) (market : string)
  : option MarketSnapshot :=
  head (sort_by (fun a b => (ms_timestamp b <=? ms_timestamp a)%Z)
          (filter (fun m => ms_marketId m = market) (marketSnapshot d))).

Definition latestSentimentSnapshot (d : Database) (tag : string)
  : option SentimentSnapshot :=
  head (sort_by (fun a b => (ss_timestamp b <=? ss_timestamp a)%Z)
          (filter (fun s => ss_tag s = tag) (sentimentSnapshot d))).

(** [strategy.findMany where status ACTIVE]. *)
Definition activeStrategies (d : Database) : list (string * Strategy) :=
  filter (fun kv => status kv.2 = ACTIVE) (map_to_list (strategy d)).

(** [strategy.update where id]: the row is rewritten in place.  Every caller
    passes the id of a row it has just read and no operation deletes rows, so
    the rejection of an absent id by the store is never reached; here an
    absent id leaves the table as it is. *)
Definition update_strategy (d : Database) (id : string) (f : Strategy -> Strategy)
  : Database :=
  with_strategy d (alter f id (strategy d)).

Definition set_status (st : StrategyStatus) (s : Strategy) : Strategy :=
  {| ownerAddress := ownerAddress s; marketId := marketId s;
     sentimentTag := sentimentTag s; minPredictionProb := minPredictionProb s;
     minSentimentScore := minSentimentScore s; notionalAmount := notionalAmount s;
     maxSlippageBps := maxSlippageBps s; expiryTimestamp := expiryTimestamp s;
     status := st; lastExecutedAt := lastExecutedAt s; lastTxHash := lastTxHash s |}.

Definition set_executed (at_ : Z) (tx : option string) (s : Strategy) : Strategy :=
  {| ownerAddress := ownerAddress s; marketId := marketId s;
     sentimentTag := sentimentTag s; minPredictionProb := minPredictionProb s;
     minSentimentScore := minSentimentScore s; notionalAmount := notionalAmount s;
     maxSlippageBps := maxSlippageBps s; expiryTimestamp := expiryTimestamp s;
     status := EXECUTED; lastExecutedAt := Some at_; lastTxHash := tx |}.

(** [executionLog.create]. *)
Definition create_log (d : Database) (l : ExecutionLog) : Database :=
  with_executionLog d (executionLog d ++ [l]).

(** [strategy.create]: the store chooses an id that no row has. *)
Definition create_strategy (d : Database) (s : Strategy) : string * Database :=
  let id := fresh (dom (strategy d)) in
  (id, with_strategy d (<[id := s]> (strategy d))).

(** ** Settlement client ([src/mcp/tools.ts])

    The Aptos client [submitEntryFunction] is external: it is a field of the
    environment, together with the two configuration variables that the code
    reads.  A call either returns or throws. *)

Inductive Outcome (A : Type) :=
| Returned (a : A)
| Thrown (message : string).

Arguments Returned {A} a.
Arguments Thrown {A} message.

Record SubmitResult := {
  sr_success : bool;
  sr_txHash : string;
  sr_error : option string
}.

(** An argument of an entry function: a string, or the decimal rendering of a
    number (kept as the number). *)
Inductive EntryArg :=
| ArgString (s : string)
| ArgNumber (x : Js.number).

Record Env := {
  Chain : Type;
  submitEntryFunction :
    Chain -> string -> list string -> list EntryArg -> Chain * Outcome SubmitResult;
  APTOS_MODULE_ADDRESS : option string;
  DEFAULT_ADMIN_WALLET : option string
}.

(** A variable of the process environment is falsy when unset or empty. *)
Definition truthy (v : option string) : option string :=
  match v with
  | Some s => if bool_decide (s = "") then None else Some s
  | None => None
  end.

Definition MODULE_NAME : string := "strategy".

Record RegisterParams := {
  rp_strategyId : string;
  rp_ownerAddress : string;
  rp_marketId : string;
  rp_sentimentTag : string;
  rp_minPredictionProb : Js.number;
  rp_minSentimentScore : Js.number;
  rp_notionalAmount : Js.number;
  rp_maxSlippageBps : Js.number;
  rp_expiryTimestamp : Js.number
}.

Record ExecuteParams := {
  ep_strategyId : string;
  ep_marketId : string;
  ep_probBps : Js.number;
  ep_sentimentBps : Js.number
}.

Record ExecutionResult := {
  success : bool;
  txHash : option string;
  reason : option string
}.

Definition register_args (params : RegisterParams) : list EntryArg :=
  [ ArgString (rp_strategyId params);
    ArgString (rp_marketId params);
    ArgString (rp_sentimentTag params);
    ArgNumber (Js.Math_floor (rp_minPredictionProb params));
    ArgNumber (Js.Math_floor (rp_minSentimentScore params));
    ArgNumber (Js.Math_floor (rp_notionalAmount params));
    ArgNumber (Js.Math_floor (rp_maxSlippageBps params));
    ArgNumber (Js.Math_floor (rp_expiryTimestamp params)) ].

Definition execute_args (params : ExecuteParams) : list EntryArg :=
  [ ArgString (ep_strategyId params);
    ArgString (ep_marketId params);
    ArgNumber (Js.Math_floor (ep_probBps params));
    ArgNumber (Js.Math_floor (ep_sentimentBps params)) ].

Definition registerStrategyOnChain (E : Env) (c : Chain E) (params : RegisterParams)
  : Chain E * Outcome (string * string) :=
  match truthy (APTOS_MODULE_ADDRESS E) with
  | None => (c, Thrown "APTOS_MODULE_ADDRESS not set")
  | Some addr =>
      let functionId := addr +:+ "::" +:+ MODULE_NAME +:+ "::register_strategy" in
      match submitEntryFunction E c functionId [] (register_args params) with
      | (c', Returned result) =>
          if sr_success result
          then (c', Returned (rp_strategyId params, sr_txHash result))
          else (c', Thrown ("On-chain registration failed: "
                              +:+ default "undefined" (sr_error result)))
      | (c', Thrown msg) => (c', Thrown msg)
      end
  end.

Definition executeStrategyViaMCP (E : Env) (c : Chain E) (params : ExecuteParams)
  : Chain E * Outcome ExecutionResult :=
  match truthy (APTOS_MODULE_ADDRESS E) with
  | None =>
      (c, Returned {| success := false; txHash := None;
                      reason := Some "APTOS_MODULE_ADDRESS missing" |})
  | Some addr =>
      let functionId := addr +:+ "::" +:+ MODULE_NAME +:+ "::execute_strategy" in
      match submitEntryFunction E c functionId [] (execute_args params) with
      | (c', Returned result) =>
          if sr_success result
          then (c', Returned {| success := true; txHash := Some (sr_txHash result);
                                reason := None |})
          else (c', Returned {| success := false; txHash := None;
                                reason := sr_error result |})
      | (c', Thrown msg) => (c', Thrown msg)
      end
  end.

(** ** The world of the backend

    The store, the settlement backend, the clock, and the trace of the calls
    that leave the engine: snapshot lookups made on behalf of a strategy, and
    calls of the settlement client with the values transmitted. *)

Inductive Event :=
| MarketSnapshotLookup (strategyId market : string)
| SentimentSnapshotLookup (strategyId tag : string)
| SettlementExecute (params : ExecuteParams)
| SettlementRegister (params : RegisterParams).

Definition event_strategy (e : Event) : string :=
  match e with
  | MarketSnapshotLookup id _ => id
  | SentimentSnapshotLookup id _ => id
  | SettlementExecute params => ep_strategyId params
  | SettlementRegister params => rp_strategyId params
  end.

Record World (E : Env) := {
  db : Database;
  chain : Chain E;
  now : Z;
  events : list Event
}.

Arguments db {E} w.
Arguments chain {E} w.
Arguments now {E} w.
Arguments events {E} w.

(** The outcome of [shouldExecuteStrategy].  The reason is a line of text in
    the source, only ever printed: it is kept as the data it renders. *)
Inductive Reason :=
| Missing_data
| All_thresholds_met
| Thresholds_not_met (meetsProbabilityThreshold meetsSentimentThreshold : bool).

Module Decision.
Record t := {
  shouldExecute : bool;
  probability : Js.number;
  sentiment : Js.number;
  reason : Reason
}.
End Decision.

(** A point of a backtest. *)
Module Point.
Record t := {
  timestamp : Z;
  probability : Js.number;
  sentiment : Js.number;
  wouldExecute : bool
}.
End Point.

(** *** Discovery's duplicate check

    The client of the store checks a query against the schema before it
    sends it: a filter on an enum column that names something else than a
    value of the enum is refused with an exception, whatever the table
    holds.  (The text of that exception is the client's; the program only
    prints it.) *)

Definition invalid_enum_value : string :=
  "Invalid value for argument `in`. Expected StrategyStatus.".

Definition StrategyStatus_named (name : string) : option StrategyStatus :=
  if bool_decide (name = "ACTIVE") then Some ACTIVE
  else if bool_decide (name = "EXECUTED") then Some EXECUTED
  else if bool_decide (name = "EXPIRED") then Some EXPIRED
  else None.

(** [strategy.findFirst where {marketId, sentimentTag, status: {in: names}}]. *)
Definition findFirst_strategy (d : Database) (market tag : string)
    (names : list string) : Outcome (option (string * Strategy)) :=
  match mapM StrategyStatus_named names with
  | None => Thrown invalid_enum_value
  | Some statuses =>
      Returned (head (filter (fun kv => marketId kv.2 = market
                                        /\ sentimentTag kv.2 = tag
                                        /\ status kv.2 ∈ statuses)
                             (map_to_list (strategy d))))
  end.

(** The check names [ACTIVE] and [PENDING]; the enum has no [PENDING]. *)
Definition existingStrategy (d : Database) (market tag : string)
  : Outcome (option (string * Strategy)) :=
  findFirst_strategy d market tag ["ACTIVE"; "PENDING"].

(** *** Discovery's rule table *)

Definition exactMap : list (string * string) :=
  [ ("TRUMP_CABINET", "TRUMP");
    ("TRUMP_NOMINEE", "TRUMP");
    ("ELECTION_2028", "ELECTION");
    ("FED_RATES", "FED");
    ("ECON_RECESSION", "STOCK_MARKET");
    ("FINANCE_NVIDIA", "STOCK_MARKET") ].

(** Exact matches first, then the prefix rules.  (A market named like a
    member of every object, such as [constructor], makes the source return
    that member, which equals no tag: the market is skipped either way.) *)
Definition getSentimentTagForMarket (market : string) : option string :=
  match (list_to_map exactMap : gmap string string) !! market with
  | Some tag => Some tag
  | None =>
      if String.prefix "CRYPTO_" market then Some "CRYPTO"
      else if String.prefix "SPORTS_" market then Some "SPORTS"
      else if String.prefix "POLITICS_" market then Some "POLITICS"
      else None
  end.

Section Engine.

Context (E : Env).

Definition with_db (w : World E) (d : Database) : World E :=
  {| db := d; chain := chain w; now := now w; events := events w |}.

Definition with_chain (w : World E) (c : Chain E) : World E :=
  {| db := db w; chain := c; now := now w; events := events w |}.

Definition emit (w : World E) (e : Event) : World E :=
  {| db := db w; chain := chain w; now := now w; events := events w ++ [e] |}.

(** [await delay(ms)]. *)
Definition delay (ms : Z) (w : World E) : World E :=
  {| db := db w; chain := chain w; now := (now w + ms)%Z; events := events w |}.

(** *** Discovery *)

Definition discovered_strategy (w : World E) (market : MarketSnapshot)
    (sentimentData : SentimentSnapshot) : Strategy :=
  {| ownerAddress := default "0x_ADMIN_WALLET" (truthy (DEFAULT_ADMIN_WALLET E));
     marketId := ms_marketId market;
     sentimentTag := ss_tag sentimentData;
     minPredictionProb := 0.05%float;
     minSentimentScore := 0.15%float;
     notionalAmount := 50.0%float;
     maxSlippageBps := 100;
     expiryTimestamp := (now w + seven_days)%Z;
     status := ACTIVE;
     lastExecutedAt := None;
     lastTxHash := None |}.

Definition registration_of (id : string) (newStrategy : Strategy) : RegisterParams :=
  {| rp_strategyId := id;
     rp_ownerAddress := ownerAddress newStrategy;
     rp_marketId := marketId newStrategy;
     rp_sentimentTag := sentimentTag newStrategy;
     rp_minPredictionProb := Js.Math_round (minPredictionProb newStrategy * 10000)%float;
     rp_minSentimentScore := Js.Math_round (minSentimentScore newStrategy * 10000)%float;
     rp_notionalAmount := Js.Math_round (notionalAmount newStrategy);
     rp_maxSlippageBps := Js.of_integer (maxSlippageBps newStrategy) false;
     rp_expiryTimestamp :=
       Js.Math_floor (Js.of_integer (expiryTimestamp newStrategy) false / 1000)%float |}.

(** One turn of the loop over the recent markets; an exception of the
    duplicate check leaves the loop. *)
Definition discoverStep (sentiments : list SentimentSnapshot) (w : World E)
    (market : MarketSnapshot) : World E * Outcome unit :=
  match getSentimentTagForMarket (ms_marketId market) with
  | None => (w, Returned tt)
  | Some requiredSentimentTag =>
      match find (fun s => String.eqb (ss_tag s) requiredSentimentTag) sentiments with
      | None => (w, Returned tt)
      | Some sentimentData =>
          match existingStrategy (db w) (ms_marketId market) requiredSentimentTag with
          | Thrown message => (w, Thrown message)
          | Returned (Some _) => (w, Returned tt)
          | Returned None =>
              let newStrategy := discovered_strategy w market sentimentData in
              let '(id, d) := create_strategy (db w) newStrategy in
              let params := registration_of id newStrategy in
              let w1 := emit (with_db w d) (SettlementRegister params) in
              match registerStrategyOnChain E (chain w1) params with
              | (c, Returned _) => (delay 2000 (with_chain w1 c), Returned tt)
              | (c, Thrown _) => (with_chain w1 c, Returned tt)
              end
          end
      end
  end.

Fixpoint discoverLoop (sentiments : list SentimentSnapshot) (w : World E)
    (markets : list MarketSnapshot) : World E * Outcome unit :=
  match markets with
  | [] => (w, Returned tt)
  | market :: markets' =>
      match discoverStep sentiments w market with
      | (w1, Returned _) => discoverLoop sentiments w1 markets'
      | (w1, Thrown message) => (w1, Thrown message)
      end
  end.

Definition discoverAndCreateStrategies (w : World E) : World E * Outcome unit :=
  let sentiments := recentSentiments (db w) (now w) in
  let markets := recentMarkets (db w) (now w) in
  discoverLoop sentiments w markets.

(** The markets for which Discovery reaches its duplicate check: those
    whose rule gives a tag that has a recent sentiment. *)
Definition checked (sentiments : list SentimentSnapshot) (market : MarketSnapshot)
  : bool :=
  match getSentimentTagForMarket (ms_marketId market) with
  | Some requiredSentimentTag =>
      bool_decide
        (is_Some (find (fun s => String.eqb (ss_tag s) requiredSentimentTag)
                       sentiments))
  | None => false
  end.

Definition discovery_checks (d : Database) (now : Z) : bool :=
  existsb (checked (recentSentiments d now)) (recentMarkets d now).

(** *** Evaluation *)

Definition shouldExecuteStrategy (w : World E) (strategy : string * Strategy)
  : World E * Decision.t :=
  let '(id, s) := strategy in
  let latestMarket := latestMarketSnapshot (db w) (marketId s) in
  let w1 := emit w (MarketSnapshotLookup id (marketId s)) in
  let latestSentiment := latestSentimentSnapshot (db w1) (sentimentTag s) in
  let w2 := emit w1 (SentimentSnapshotLookup id (sentimentTag s)) in
  match latestMarket, latestSentiment with
  | Some m, Some t =>
      let probability := ms_probability m in
      let sentiment := ss_score t in
      let meetsProbabilityThreshold := Js.ge probability (minPredictionProb s) in
      let meetsSentimentThreshold := Js.ge sentiment (minSentimentScore s) in
      (w2, {| Decision.shouldExecute :=
                meetsProbabilityThreshold && meetsSentimentThreshold;
              Decision.probability := probability;
              Decision.sentiment := sentiment;
              Decision.reason :=
                if meetsProbabilityThreshold && meetsSentimentThreshold
                then All_thresholds_met
                else Thresholds_not_met meetsProbabilityThreshold
                                        meetsSentimentThreshold |})
  | _, _ =>
      (w2, {| Decision.shouldExecute := false;
              Decision.probability := 0%float;
              Decision.sentiment := 0%float;
              Decision.reason := Missing_data |})
  end.

Definition execution_of (id : string) (s : Strategy)
    (probability sentiment : Js.number) : ExecuteParams :=
  {| ep_strategyId := id;
     ep_marketId := marketId s;
     ep_probBps := Js.Math_round (probability * 10000)%float;
     ep_sentimentBps := Js.Math_round ((sentiment + 1) * 5000)%float |}.

Definition log_of (w : World E) (id : string) (r : ExecutionResult) : ExecutionLog :=
  {| log_strategyId := id; log_timestamp := now w;
     log_success := success r; log_txHash := txHash r; log_reason := reason r |}.

Definition executeStrategy (w : World E) (strategy : string * Strategy) : World E :=
  let '(w1, decision) := shouldExecuteStrategy w strategy in
  if negb (Decision.shouldExecute decision) then w1
  else
    let params := execution_of strategy.1 strategy.2
                    (Decision.probability decision) (Decision.sentiment decision) in
    let w2 := emit w1 (SettlementExecute params) in
    match executeStrategyViaMCP E (chain w2) params with
    | (c, Returned executionResult) =>
        let w3 := with_chain w2 c in
        let w4 :=
          if success executionResult
          then with_db w3 (update_strategy (db w3) strategy.1
                             (set_executed (now w3) (txHash executionResult)))
          else w3 in
        with_db w4 (create_log (db w4) (log_of w4 strategy.1 executionResult))
    | (c, Thrown message) =>
        let w3 := with_chain w2 c in
        with_db w3 (create_log (db w3)
          {| log_strategyId := strategy.1; log_timestamp := now w3;
             log_success := false; log_txHash := None;
             log_reason := Some ("Execution error: " +:+ message) |})
    end.

(** One turn of the loop over the active strategies. *)
Definition engineStep (w : World E) (strategy : string * Strategy) : World E :=
  if bool_decide (expiryTimestamp strategy.2 < now w)%Z
  then with_db w (update_strategy (db w) strategy.1 (set_status EXPIRED))
  else delay 3000 (executeStrategy w strategy).

(** The sweep over the strategies loaded. *)
Definition sweep (w : World E) (activeStrategies : list (string * Strategy))
  : World E :=
  foldl engineStep w activeStrategies.

(** A run: an exception of Discovery is caught by the run, which prints it
    and ends; otherwise the active strategies are loaded and swept. *)
Definition runStrategyExecutionEngine (w : World E) : World E :=
  match discoverAndCreateStrategies w with
  | (w1, Thrown _) => w1
  | (w1, Returned _) => sweep w1 (activeStrategies (db w1))
  end.

End Engine.

(** *** Manual execution ([POST /execute]) *)

Record Reply := {
  code : Z;
  reply_success : bool;
  reply_error : option string;
  reply_result : option ExecutionResult
}.

Definition status_name (st : StrategyStatus) : string :=
  match st with
  | ACTIVE => "ACTIVE"
  | EXECUTED => "EXECUTED"
  | EXPIRED => "EXPIRED"
  end.

Definition failure_reply (c : Z) (msg : string) : Reply :=
  {| code := c; reply_success := false; reply_error := Some msg;
     reply_result := None |}.

Section Route.

Context (E : Env).

Definition executeRoute (w : World E) (strategyId : string) : World E * Reply :=
  match strategy (db w) !! strategyId with
  | None => (w, failure_reply 404 "Strategy not found")
  | Some s =>
      if bool_decide (status s <> ACTIVE)
      then (w, failure_reply 400
                 ("Cannot execute strategy with status: " +:+ status_name (status s)))
      else
        let latestMarket := latestMarketSnapshot (db w) (marketId s) in
        let w1 := emit E w (MarketSnapshotLookup strategyId (marketId s)) in
        let latestSentiment := latestSentimentSnapshot (db w1) (sentimentTag s) in
        let w2 := emit E w1 (SentimentSnapshotLookup strategyId (sentimentTag s)) in
        match latestMarket, latestSentiment with
        | Some m, Some t =>
            let params := execution_of strategyId s (ms_probability m) (ss_score t) in
            let w3 := emit E w2 (SettlementExecute params) in
            match executeStrategyViaMCP E (chain w3) params with
            | (c, Returned executionResult) =>
                let w4 := with_chain E w3 c in
                let w5 :=
                  if success executionResult
                  then with_db E w4 (update_strategy (db w4) strategyId
                                       (set_executed (now w4) (txHash executionResult)))
                  else w4 in
                (with_db E w5 (create_log (db w5) (log_of E w5 strategyId executionResult)),
                 {| code := 200; reply_success := true; reply_error := None;
                    reply_result := Some executionResult |})
            | (c, Thrown _) =>
                (with_chain E w3 c, failure_reply 500 "Failed to execute strategy")
            end
        | _, _ => (w2, failure_reply 400 "Missing market or sentiment data")
        end
  end.

End Route.

(** *** Backtest *)

(** The closest sentiment snapshot before or at the time of a market
    snapshot: filter, sort newest first, take the first. *)
Definition paired_sentiment (sentimentSnapshots : list SentimentSnapshot)
    (marketSnapshot : MarketSnapshot) : option SentimentSnapshot :=
  head (sort_by (fun a b => (ss_timestamp b <=? ss_timestamp a)%Z)
          (filter (fun t => (ss_timestamp t <= ms_timestamp marketSnapshot)%Z)
                  sentimentSnapshots)).

Definition point_at (s : Strategy) (marketSnapshot : MarketSnapshot)
    (sentimentSnapshot : SentimentSnapshot) : Point.t :=
  let probability := ms_probability marketSnapshot in
  let sentiment := ss_score sentimentSnapshot in
  let wouldExecute :=
    Js.ge probability (minPredictionProb s)
    && Js.ge sentiment (minSentimentScore s) in
  {| Point.timestamp := ms_timestamp marketSnapshot;
     Point.probability := probability;
     Point.sentiment := sentiment;
     Point.wouldExecute := wouldExecute |}.

(** One turn of the loop over the market snapshots. *)
Definition simulateStep (s : Strategy) (sentimentSnapshots : list SentimentSnapshot)
    (acc : list Point.t * nat) (marketSnapshot : MarketSnapshot)
  : list Point.t * nat :=
  let '(executionPoints, totalExecutions) := acc in
  match paired_sentiment sentimentSnapshots marketSnapshot with
  | None => acc
  | Some sentimentSnapshot =>
      let point := point_at s marketSnapshot sentimentSnapshot in
      (executionPoints ++ [point],
       if Point.wouldExecute point then S totalExecutions else totalExecutions)
  end.

Definition simulated_markets (d : Database) (s : Strategy) (from to : Z)
  : list MarketSnapshot :=
  sort_by (fun a b => (ms_timestamp a <=? ms_timestamp b)%Z)
    (filter (fun m => ms_marketId m = marketId s
                      /\ (from <= ms_timestamp m)%Z /\ (ms_timestamp m <= to)%Z)
            (marketSnapshot d)).

Definition simulated_sentiments (d : Database) (s : Strategy) (from to : Z)
  : list SentimentSnapshot :=
  sort_by (fun a b => (ss_timestamp a <=? ss_timestamp b)%Z)
    (filter (fun t => ss_tag t = sentimentTag s
                      /\ (from <= ss_timestamp t)%Z /\ (ss_timestamp t <= to)%Z)
            (sentimentSnapshot d)).

Definition simulateStrategyExecution (d : Database) (now : Z) (s : Strategy)
    (fromTimestamp toTimestamp : option Z) : list Point.t * nat :=
  let to := default now toTimestamp in
  let from := default (to - seven_days)%Z fromTimestamp in
  let marketSnapshots := simulated_markets d s from to in
  let sentimentSnapshots := simulated_sentiments d s from to in
  foldl (simulateStep s sentimentSnapshots) ([], 0) marketSnapshots.

(** ** The on-chain module [sentiment_flow::strategy]

    Global storage maps an address to its [StrategyStore]; an entry function
    either commits a new state or aborts with a code, leaving the state as it
    was.  [u64] values are only stored and compared. *)

Module Move.

Definition E_STRATEGY_STORE_NOT_FOUND : N := 1.
Definition E_STRATEGY_ALREADY_EXISTS : N := 2.
Definition E_STRATEGY_NOT_FOUND : N := 3.
Definition E_STRATEGY_ALREADY_EXECUTED : N := 4.
Definition E_STRATEGY_EXPIRED : N := 5.
Definition E_CONDITIONS_NOT_MET : N := 8.

Record Strategy := {
  id : string;
  market_id : string;
  sentiment_tag : string;
  min_prediction_prob : N;
  min_sentiment_score : N;
  notional_amount : N;
  expiry_timestamp : N;
  executed : bool
}.

Definition mark_executed (s : Strategy) : Strategy :=
  {| id := id s; market_id := market_id s; sentiment_tag := sentiment_tag s;
     min_prediction_prob := min_prediction_prob s;
     min_sentiment_score := min_sentiment_score s;
     notional_amount := notional_amount s;
     expiry_timestamp := expiry_timestamp s; executed := true |}.

Inductive Emitted :=
| StrategyRegistered (owner : N) (strategy_id market_id : string)
| StrategyExecuted (strategy_id : string) (executor : N)
    (prob_bps sentiment_bps amount_traded : N).

(** [stores !! a] is the [StrategyStore] published under address [a]. *)
Record Global := {
  stores : gmap N (gmap string Strategy);
  emitted : list Emitted
}.

Inductive Tx :=
| Commit (g : Global)
| Abort (code : N).

Definition register_strategy (g : Global) (account : N)
    (strategy_id market_id sentiment_tag : string)
    (min_prediction_prob min_sentiment_score notional_amount
       _max_slippage_bps expiry_timestamp : N) : Tx :=
  let owner := account in
  let store := default ∅ (stores g !! owner) in
  if bool_decide (is_Some (store !! strategy_id))
  then Abort E_STRATEGY_ALREADY_EXISTS
  else
    let new_strategy :=
      {| id := strategy_id; market_id := market_id;
         sentiment_tag := sentiment_tag;
         min_prediction_prob := min_prediction_prob;
         min_sentiment_score := min_sentiment_score;
         notional_amount := notional_amount;
         expiry_timestamp := expiry_timestamp; executed := false |} in
    Commit {| stores := <[owner := <[strategy_id := new_strategy]> store]> (stores g);
              emitted := emitted g ++ [StrategyRegistered owner strategy_id market_id] |}.

Definition execute_strategy (g : Global) (account : N)
    (strategy_id _market_id : string) (prob_bps sentiment_bps : N) : Tx :=
  let owner := account in
  match stores g !! owner with
  | None => Abort E_STRATEGY_STORE_NOT_FOUND
  | Some store =>
      match store !! strategy_id with
      | None => Abort E_STRATEGY_NOT_FOUND
      | Some strategy =>
          if executed strategy then Abort E_STRATEGY_ALREADY_EXECUTED
          else if negb (min_prediction_prob strategy <=? prob_bps)%N
          then Abort E_CONDITIONS_NOT_MET
          else if negb (min_sentiment_score strategy <=? sentiment_bps)%N
          then Abort E_CONDITIONS_NOT_MET
          else
            Commit
              {| stores :=
                   <[owner := <[strategy_id := mark_executed strategy]> store]> (stores g);
                 emitted :=
                   emitted g ++ [StrategyExecuted strategy_id owner prob_bps
                                   sentiment_bps (notional_amount strategy)] |}
      end
  end.

Definition get_strategy_state (g : Global) (owner : N) (strategy_id : string)
  : bool * N * bool :=
  match stores g !! owner with
  | None => (false, 0%N, false)
  | Some store =>
      match store !! strategy_id with
      | None => (false, 0%N, false)
      | Some s => (true, expiry_timestamp s, executed s)
      end
  end.

(** A transaction that calls one of the two entry functions. *)
Inductive Call :=
| Register (account : N) (strategy_id market_id sentiment_tag : string)
    (min_prediction_prob min_sentiment_score notional_amount
       max_slippage_bps expiry_timestamp : N)
| Execute (account : N) (strategy_id market_id : string)
    (prob_bps sentiment_bps : N).

Definition run (g : Global) (c : Call) : Tx :=
  match c with
  | Register a i m t p s n b e => register_strategy g a i m t p s n b e
  | Execute a i m p s => execute_strategy g a i m p s
  end.

(** The state after a transaction: an abort changes nothing. *)
Definition after (g : Global) (c : Call) : Global :=
  match run g c with
  | Commit g' => g'
  | Abort _ => g
  end.

Definition genesis : Global := {| stores := ∅; emitted := [] |}.

End Move.

(** [s.includes(pattern)]. *)
Fixpoint includes (pattern s : string) : bool :=
  String.prefix pattern s
  || match s with
     | EmptyString => false
     | String _ s' => includes pattern s'
     end.

(** ** The Aptos client ([src/onchain/aptos_client.ts])

    The text of the client follows that of the sentiment fetcher in the
    sources.  The node and the SDK are external: one attempt to generate,
    sign, submit and await a transaction takes the node to its next state and
    gives the hash of the transaction or the error thrown on the way. *)

Module Aptos.

(** An error thrown by the SDK, as [submitEntryFunction] reads it. *)
Record ClientError := {
  json : string;              (* JSON.stringify(error) *)
  message : option string;    (* error.message *)
  rendering : string          (* String(error) *)
}.

Record Client := {
  Node : Type;
  ADMIN_PRIVATE_KEY : option string;
  (* new AptosAccount(...) on the key without its 0x prefix: it may throw *)
  account : string -> Outcome string;
  attempt :
    Node -> string -> string -> list string -> list EntryArg
    -> Node * (string + ClientError)
}.

(** [ADMIN_PRIVATE_KEY.replace(/^0x/, '')]. *)
Definition cleanKey (key : string) : string :=
  if String.prefix "0x" key then String.substring 2 (String.length key - 2) key
  else key.

Definition getAdminAccount (C : Client) : Outcome string :=
  match truthy (ADMIN_PRIVATE_KEY C) with
  | None => Thrown "ADMIN_PRIVATE_KEY missing in .env"
  | Some key => account C (cleanKey key)
  end.

(** [JSON.stringify(error).includes("429") || error.message?.includes("limit")]. *)
Definition rate_limited (error : ClientError) : bool :=
  includes "429" (json error)
  || match message error with
     | Some text => includes "limit" text
     | None => false
     end.

(** [error.message || String(error)]. *)
Definition error_text (error : ClientError) : string :=
  default (rendering error) (truthy (message error)).

(** [submitEntryFunction].  The function calls itself after every rate-limit
    error; [fuel] bounds the number of calls that are followed, and [paused]
    adds up the time spent waiting.  [None]: the bound was reached. *)
Fixpoint submitEntryFunction (C : Client) (fuel : nat) (node : Node C) (paused : Z)
    (functionId : string) (typeArgs : list string) (args : list EntryArg)
  : option (Node C * Z * Outcome SubmitResult) :=
  match fuel with
  | O => None
  | S fuel' =>
      match getAdminAccount C with
      | Thrown text => Some (node, paused, Thrown text)
      | Returned admin =>
          match attempt C node admin functionId typeArgs args with
          | (node1, inl hash) =>
              Some (node1, paused,
                    Returned {| sr_success := true; sr_txHash := hash;
                                sr_error := None |})
          | (node1, inr error) =>
              if rate_limited error
              then submitEntryFunction C fuel' node1 (paused + 10000)%Z
                     functionId typeArgs args
              else
                Some (node1, paused,
                      Returned {| sr_success := false; sr_txHash := "";
                                  sr_error := Some (error_text error) |})
          end
      end
  end.

(** The state of the node after [n] attempts at the same transaction, and
    the answer to the next one. *)
Fixpoint node_after (C : Client) (n : nat) (node : Node C) (admin functionId : string)
    (typeArgs : list string) (args : list EntryArg) : Node C :=
  match n with
  | O => node
  | S n' =>
      node_after C n' (attempt C node admin functionId typeArgs args).1
        admin functionId typeArgs args
  end.

Definition answer (C : Client) (n : nat) (node : Node C) (admin functionId : string)
    (typeArgs : list string) (args : list EntryArg) : string + ClientError :=
  (attempt C (node_after C n node admin functionId typeArgs args)
     admin functionId typeArgs args).2.

(** What [submitEntryFunction] makes of an answer that ends the attempts. *)
Definition result_of (answer : string + ClientError) : SubmitResult :=
  match answer with
  | inl hash => {| sr_success := true; sr_txHash := hash; sr_error := None |}
  | inr error => {| sr_success := false; sr_txHash := "";
                    sr_error := Some (error_text error) |}
  end.

Definition ends (answer : string + ClientError) : bool :=
  match answer with
  | inl _ => true
  | inr error => negb (rate_limited error)
  end.

(** A node that reports a rate limit as many times as its state says, and
    accepts the transaction after that. *)
Definition sample_client : Client :=
  {| Node := nat;
     ADMIN_PRIVATE_KEY := Some "0xabc";
     account := fun key => Returned key;
     attempt := fun node _ _ _ _ =>
       match node with
       | O => (O, inl "0xhash")
       | S node' =>
           (node', inr {| json := "{status:429}";
                          message := Some "Too many requests";
                          rendering := "Error: Too many requests" |})
       end |}.

End Aptos.

(** ** A node that runs the module

    For the examples and for the instances of the statements: the client
    above in front of an Aptos node on which the module is published at
    [module_address].  The node and the SDK are not in the sources.  What is
    taken of them here: a call of an entry function of the module whose
    numeric arguments are decimal texts of [u64] values runs the function and
    either commits, which gives a hash, or aborts, which the SDK throws as an
    error with a message; any other call makes the SDK throw likewise; and
    this node reports no rate limit. *)

(** The [u64] that the text of a number ([Math.floor(x).toString()] in the
    settlement wrappers) reads as. *)
Definition u64_of (x : Js.number) : option N :=
  match Js.printed_integer x with
  | Some z => if bool_decide (0 <= z < 2 ^ 64)%Z then Some (Z.to_N z) else None
  | None => None
  end.

Definition abort_text (code : N) : string :=
  if (code =? 1)%N then "Move abort: E_STRATEGY_STORE_NOT_FOUND"
  else if (code =? 2)%N then "Move abort: E_STRATEGY_ALREADY_EXISTS"
  else if (code =? 3)%N then "Move abort: E_STRATEGY_NOT_FOUND"
  else if (code =? 4)%N then "Move abort: E_STRATEGY_ALREADY_EXECUTED"
  else if (code =? 8)%N then "Move abort: E_CONDITIONS_NOT_MET"
  else "Move abort".

(** An [Error] with the message [text]: [JSON.stringify] shows none of the
    members of an [Error]. *)
Definition thrown (text : string) : Aptos.ClientError :=
  {| Aptos.json := "{}"; Aptos.message := Some text;
     Aptos.rendering := "Error: " +:+ text |}.

Definition submitted (g : Move.Global) (c : Move.Call) (tx : string)
  : Move.Global * (string + Aptos.ClientError) :=
  match Move.run g c with
  | Move.Commit g' => (g', inl tx)
  | Move.Abort code => (g, inr (thrown (abort_text code)))
  end.

(** One attempt at a transaction signed by [signer]. *)
Definition node_attempt (signer : N) (module_address : string) (g : Move.Global)
    (admin functionId : string) (typeArgs : list string) (args : list EntryArg)
  : Move.Global * (string + Aptos.ClientError) :=
  if bool_decide (functionId = module_address +:+ "::strategy::execute_strategy")
  then
    match args with
    | [ArgString i; ArgString m; ArgNumber p; ArgNumber s] =>
        match u64_of p, u64_of s with
        | Some p', Some s' => submitted g (Move.Execute signer i m p' s') ("0xe" +:+ i)
        | _, _ => (g, inr (thrown "invalid u64 argument"))
        end
    | _ => (g, inr (thrown "invalid arguments"))
    end
  else if bool_decide (functionId = module_address +:+ "::strategy::register_strategy")
  then
    match args with
    | [ArgString i; ArgString m; ArgString t; ArgNumber p; ArgNumber s;
       ArgNumber n; ArgNumber b; ArgNumber e] =>
        match u64_of p, u64_of s, u64_of n, u64_of b, u64_of e with
        | Some p', Some s', Some n', Some b', Some e' =>
            submitted g (Move.Register signer i m t p' s' n' b' e') ("0xr" +:+ i)
        | _, _, _, _, _ => (g, inr (thrown "invalid u64 argument"))
        end
    | _ => (g, inr (thrown "invalid arguments"))
    end
  else (g, inr (thrown "unknown entry function")).

Definition node_client (signer : N) (module_address : string) : Aptos.Client :=
  {| Aptos.Node := Move.Global;
     Aptos.ADMIN_PRIVATE_KEY := Some "0xad";
     Aptos.account := fun key => Returned key;
     Aptos.attempt := node_attempt signer module_address |}.

(** [submitEntryFunction] of the client on that node: the first attempt settles
    the call, the node reporting no rate limit. *)
Definition aptos_submit (signer : N) (module_address : string) (g : Move.Global)
    (functionId : string) (typeArgs : list string) (args : list EntryArg)
  : Move.Global * Outcome SubmitResult :=
  let '(g', answer) :=
    node_attempt signer module_address g "ad" functionId typeArgs args in
  (g', Returned (Aptos.result_of answer)).

Definition OnChain (signer : N) (module_address : option string) : Env :=
  {| Chain := Move.Global;
     submitEntryFunction := aptos_submit signer (default "" module_address);
     APTOS_MODULE_ADDRESS := module_address;
     DEFAULT_ADMIN_WALLET := None |}.

(** The client of an environment is the Aptos client [C] in front of its
    node: whatever a call answers, [submitEntryFunction] of [C] answers from
    some state of the node. *)
Definition client_of (E : Env) (C : Aptos.Client) : Prop :=
  forall (c : Chain E) functionId typeArgs args,
    exists fuel node paused node' paused',
      Aptos.submitEntryFunction C fuel node paused functionId typeArgs args
      = Some (node', paused', (submitEntryFunction E c functionId typeArgs args).2).

(** What the SDK throws has a rendering ([String(error)] is not empty), as
    every [Error] with a name has. *)
Definition errors_render (C : Aptos.Client) : Prop :=
  forall node admin functionId typeArgs args error,
    (Aptos.attempt C node admin functionId typeArgs args).2 = inr error ->
    Aptos.rendering error <> "".

(** *** Sample data *)

Definition devnet : Env := OnChain 7 (Some "0xcafe").
Definition unconfigured : Env := OnChain 7 None.

Definition sample_strategy (expiry : Z) : Strategy :=
  {| ownerAddress := "0x_ADMIN_WALLET"; marketId := "CRYPTO_BTC";
     sentimentTag := "CRYPTO"; minPredictionProb := 0.5%float;
     minSentimentScore := 0.0%float; notionalAmount := 50.0%float;
     maxSlippageBps := 100; expiryTimestamp := expiry; status := ACTIVE;
     lastExecutedAt := None; lastTxHash := None |}.

Definition sample_db (probability score : Js.number) (expiry : Z) : Database :=
  {| strategy := {[ "s1" := sample_strategy expiry ]};
     marketSnapshot :=
       [ {| ms_marketId := "CRYPTO_BTC"; ms_timestamp := 1000;
            ms_probability := probability |} ];
     sentimentSnapshot :=
       [ {| ss_tag := "CRYPTO"; ss_timestamp := 900; ss_score := score |} ];
     executionLog := [] |}.

Definition sample_world (E : Env) (c : Chain E) (probability score : Js.number)
    (expiry : Z) (clock : Z) : World E :=
  Build_World E (sample_db probability score expiry) c clock [].

(** Two strategies, the second one past its expiry and registered on chain;
    no sentiment above Discovery's threshold. *)
Definition overlap_world : World devnet :=
  Build_World devnet
    {| strategy := {[ "s1" := sample_strategy 9000; "s2" := sample_strategy 1000 ]};
       marketSnapshot :=
         [ {| ms_marketId := "CRYPTO_BTC"; ms_timestamp := 1000;
              ms_probability := 0.6%float |} ];
       sentimentSnapshot :=
         [ {| ss_tag := "CRYPTO"; ss_timestamp := 900; ss_score := 0.05%float |} ];
       executionLog := [] |}
    (Move.after Move.genesis
       (Move.Register 7 "s2" "CRYPTO_BTC" "CRYPTO" 5000 5000 50 100 1))
    2000 [].

(** A store with fresh signals and no strategy yet. *)
Definition fresh_signals : Database :=
  {| strategy := ∅;
     marketSnapshot :=
       [ {| ms_marketId := "CRYPTO_BTC"; ms_timestamp := 1000;
            ms_probability := 0.6%float |} ];
     sentimentSnapshot :=
       [ {| ss_tag := "CRYPTO"; ss_timestamp := 900; ss_score := 0.5%float |} ];
     executionLog := [] |}.

(** ** Histories

    What happens to the backend between two observations: an engine run, a
    manual execution request, the arrival of a snapshot from a fetcher, or
    the passing of time.  Each is taken as a whole. *)

Inductive Op :=
| EngineRun
| ManualExecute (strategyId : string)
| IngestMarket (m : MarketSnapshot)
| IngestSentiment (t : SentimentSnapshot)
| Elapse (ms : Z).

Definition ingest_market (d : Database) (m : MarketSnapshot) : Database :=
  {| strategy := strategy d; marketSnapshot := marketSnapshot d ++ [m];
     sentimentSnapshot := sentimentSnapshot d; executionLog := executionLog d |}.

Definition ingest_sentiment (d : Database) (t : SentimentSnapshot) : Database :=
  {| strategy := strategy d; marketSnapshot := marketSnapshot d;
     sentimentSnapshot := sentimentSnapshot d ++ [t]; executionLog := executionLog d |}.

Definition step (E : Env) (w : World E) (op : Op) : World E :=
  match op with
  | EngineRun => runStrategyExecutionEngine E w
  | ManualExecute strategyId => (executeRoute E w strategyId).1
  | IngestMarket m => with_db E w (ingest_market (db w) m)
  | IngestSentiment t => with_db E w (ingest_sentiment (db w) t)
  | Elapse ms => delay E ms w
  end.

(** *** Requests served during a run

    A run is suspended at every [await]; requests that arrive are served
    then.  [served] lists, for each turn of the sweep in order, the manual
    execution requests that are handled while the run is suspended before
    that turn; the sweep goes on with the rows it loaded at its start. *)

Fixpoint sweep_serving (E : Env) (w : World E) (loaded : list (string * Strategy))
    (served : list (list string)) : World E :=
  match loaded with
  | [] => w
  | strategy :: loaded' =>
      let w1 :=
        foldl (fun w strategyId => (executeRoute E w strategyId).1) w
              (default [] (head served)) in
      sweep_serving E (engineStep E w1 strategy) loaded' (tail served)
  end.

Definition run_serving (E : Env) (w : World E) (served : list (list string))
  : World E :=
  match discoverAndCreateStrategies E w with
  | (w1, Thrown _) => w1
  | (w1, Returned _) => sweep_serving E w1 (activeStrategies (db w1)) served
  end.

(** A history in which runs and requests may overlap in that way. *)
Inductive Overlap :=
| Alone (op : Op)
| Serving (served : list (list string)).

Definition overlap_step (E : Env) (w : World E) (o : Overlap) : World E :=
  match o with
  | Alone op => step E w op
  | Serving served => run_serving E w served
  end.

(** The log entries and the outgoing calls that concern one strategy. *)
Definition logs_of {E : Env} (id : string) (w : World E) : list ExecutionLog :=
  filter (fun l => log_strategyId l = id) (executionLog (db w)).

Definition events_of {E : Env} (id : string) (w : World E) : list Event :=
  filter (fun e => event_strategy e = id) (events w).

(** ** Predicates of the statements *)

(** The strategy [strategy_id] of [owner] is flagged as executed on chain. *)
Definition executed_on (g : Move.Global) (owner : N) (strategy_id : string) : Prop :=
  exists store st,
    Move.stores g !! owner = Some store
    /\ store !! strategy_id = Some st
    /\ Move.executed st = true.

(** A chain on which one strategy has been registered. *)
Definition registered_once : Move.Global :=
  Move.after Move.genesis (Move.Register 7 "s1" "CRYPTO_BTC" "CRYPTO" 500 1500 50 100 604802).

(** Nothing that concerns strategy [id] differs between two worlds. *)
Definition untouched {E : Env} (id : string) (w w' : World E) : Prop :=
  strategy (db w') !! id = strategy (db w) !! id
  /\ logs_of id w' = logs_of id w
  /\ events_of id w' = events_of id w.

(** [w'] extends [w]: rows that exist are kept as they are, the log and the
    snapshots are the same, and time has not gone back. *)
Definition extends {E : Env} (w w' : World E) : Prop :=
  (forall id s, strategy (db w) !! id = Some s -> strategy (db w') !! id = Some s)
  /\ executionLog (db w') = executionLog (db w)
  /\ marketSnapshot (db w') = marketSnapshot (db w)
  /\ sentimentSnapshot (db w') = sentimentSnapshot (db w)
  /\ (now w <= now w')%Z.

(** The strategies of a (market, tag) pair, whatever their status. *)
Definition strategies_for (market tag : string) (d : Database) : gmap string Strategy :=
  filter (fun kv => marketId kv.2 = market /\ sentimentTag kv.2 = tag) (strategy d).

(** *** Reading the on-chain state *)

(** The strategy stored under [strategy_id] in the store of [owner]. *)
Definition onchain_strategy (g : Move.Global) (owner : N) (strategy_id : string)
  : option Move.Strategy :=
  match Move.stores g !! owner with
  | Some store => store !! strategy_id
  | None => None
  end.

(** The signer of a transaction and the strategy it names. *)
Definition call_signer (c : Move.Call) : N :=
  match c with
  | Move.Register a _ _ _ _ _ _ _ _ => a
  | Move.Execute a _ _ _ _ => a
  end.

Definition call_strategy (c : Move.Call) : string :=
  match c with
  | Move.Register _ i _ _ _ _ _ _ _ => i
  | Move.Execute _ i _ _ _ => i
  end.

(** The [StrategyExecuted] events of a strategy. *)
Definition is_execution_of (owner : N) (strategy_id : string) (e : Move.Emitted)
  : bool :=
  match e with
  | Move.StrategyExecuted i a _ _ _ =>
      bool_decide (i = strategy_id) && bool_decide (a = owner)
  | _ => false
  end.

Definition executions_of (g : Move.Global) (owner : N) (strategy_id : string)
  : list Move.Emitted :=
  filter (fun e => is_execution_of owner strategy_id e = true) (Move.emitted g).

(** ** The in-memory cache (utility module)

    One object shared by the routes, from keys to a value and the time, in
    milliseconds, after which the value is stale.  Keys that name a member of
    every object (such as [constructor]) are outside the model: the routes
    build their keys with a prefix of their own. *)

Module Cache.

Section Store.

Context {A : Type}.

Record Item := { data : A; expiry : Z }.

#[local] Abbreviation store := (gmap string Item).

(** [getCache]: an entry past its expiry is deleted when it is asked for. *)
Definition getCache (cache : store) (now : Z) (key : string) : store * option A :=
  match cache !! key with
  | None => (cache, None)
  | Some item =>
      if bool_decide (expiry item < now)%Z then (delete key cache, None)
      else (cache, Some (data item))
  end.

Definition setCache (cache : store) (now : Z) (key : string) (value : A)
    (ttlSeconds : Z) : store :=
  <[key := {| data := value; expiry := (now + ttlSeconds * 1000)%Z |}]> cache.

(** [Object.keys(cache)]. *)
Definition keys (cache : store) : list string := (map_to_list cache).*1.

Definition clearCache (cache : store) : store :=
  foldl (fun c key => delete key c) cache (keys cache).

Definition clearCachePattern (cache : store) (pattern : string) : store :=
  foldl (fun c key => if includes pattern key then delete key c else c)
        cache (keys cache).

End Store.

Arguments Item A : clear implicits.

Abbreviation t A := (gmap string (Item A)).

End Cache.

(** ** The read routes ([GET /markets], [GET /sentiment/:tag])

    Both routes answer from the cache when they can and store what they
    compute for 300 seconds.  A request is taken as a whole, at one time. *)

(** What the routes store in the cache. *)
Inductive Cached :=
| MarketRows (rows : list MarketSnapshot)
| SentimentRows (rows : list SentimentSnapshot).

Record ListReply := {
  list_code : Z;
  list_success : bool;
  list_data : option Cached;
  list_fromCache : option bool;
  list_error : option string
}.

Definition served (data : Cached) (fromCache : bool) : ListReply :=
  {| list_code := 200; list_success := true; list_data := Some data;
     list_fromCache := Some fromCache; list_error := None |}.

Definition invalid_parameters : ListReply :=
  {| list_code := 400; list_success := false; list_data := None;
     list_fromCache := None; list_error := Some "Invalid request parameters" |}.

(** The query of [GET /markets] as the server hands it to the route: every
    value that is given is a string.  The schema asks for numbers as [limit]
    and [offset] and converts nothing, so that a request that gives one of
    them is refused; the others get the defaults 100 and 0. *)
Record MarketsQuery := {
  mq_marketId : option string;
  mq_limit : option string;
  mq_offset : option string
}.

(** [marketSnapshot.findMany] of the route: newest first, one row per market
    ([distinct] keeps the first row of each), then [skip] and [take]. *)
Definition latestSnapshots (d : Database) (marketId : option string)
    (limit offset : Z) : list MarketSnapshot :=
  let matching :=
    match truthy marketId with
    | Some id => filter (fun m => ms_marketId m = id) (marketSnapshot d)
    | None => marketSnapshot d
    end in
  take (Z.to_nat limit)
    (drop (Z.to_nat offset)
       (distinct_by ms_marketId
          (sort_by (fun a b => (ms_timestamp b <=? ms_timestamp a)%Z) matching))).

(** The cache key of a request; integers are printed in decimal. *)
Definition markets_key (marketId : option string) (limit offset : Z) : string :=
  "markets:" +:+ default "all" (truthy marketId) +:+ ":" +:+ pretty limit
  +:+ ":" +:+ pretty offset.

Definition marketsRoute (cache : Cache.t Cached) (d : Database) (now : Z)
    (query : MarketsQuery) : Cache.t Cached * ListReply :=
  match mq_limit query, mq_offset query with
  | None, None =>
      let limit := 100%Z in
      let offset := 0%Z in
      let cacheKey := markets_key (mq_marketId query) limit offset in
      match Cache.getCache cache now cacheKey with
      | (cache1, Some cachedData) => (cache1, served cachedData true)
      | (cache1, None) =>
          let rows :=
            MarketRows (latestSnapshots d (mq_marketId query) limit offset) in
          (Cache.setCache cache1 now cacheKey rows 300, served rows false)
      end
  | _, _ => (cache, invalid_parameters)
  end.

(** A date and time of a request that the schema accepts: the text given,
    and the instant it names. *)
Record Datetime := {
  dt_text : string;
  dt_time : Z
}.

(** The query of [GET /sentiment/:tag]; a [limit] that is given is a string,
    and refused like that of [GET /markets]. *)
Record SentimentQuery := {
  sq_tag : string;
  sq_from : option Datetime;
  sq_to : option Datetime;
  sq_limit : option string
}.

(** The bounds of the range, each only when given. *)
Definition not_before (from : option Datetime) (timestamp : Z) : bool :=
  match from with
  | Some f => (dt_time f <=? timestamp)%Z
  | None => true
  end.

Definition not_after (to : option Datetime) (timestamp : Z) : bool :=
  match to with
  | Some t => (timestamp <=? dt_time t)%Z
  | None => true
  end.

(** [sentimentSnapshot.findMany] of the route: the tag's snapshots in the
    range, newest first, at most [limit]. *)
Definition sentimentData (d : Database) (tag : string) (from to : option Datetime)
    (limit : Z) : list SentimentSnapshot :=
  take (Z.to_nat limit)
    (sort_by (fun a b => (ss_timestamp b <=? ss_timestamp a)%Z)
       (filter (fun s => ss_tag s = tag
                         /\ not_before from (ss_timestamp s) = true
                         /\ not_after to (ss_timestamp s) = true)
               (sentimentSnapshot d))).

Definition sentiment_key (tag : string) (from to : option Datetime) (limit : Z)
  : string :=
  "sentiment:" +:+ tag +:+ ":" +:+ default "all" (dt_text <$> from)
  +:+ ":" +:+ default "all" (dt_text <$> to) +:+ ":" +:+ pretty limit.

Definition sentimentRoute (cache : Cache.t Cached) (d : Database) (now : Z)
    (query : SentimentQuery) : Cache.t Cached * ListReply :=
  match sq_limit query with
  | None =>
      let limit := 100%Z in
      let cacheKey :=
        sentiment_key (sq_tag query) (sq_from query) (sq_to query) limit in
      match Cache.getCache cache now cacheKey with
      | (cache1, Some cachedData) => (cache1, served cachedData true)
      | (cache1, None) =>
          let rows := SentimentRows (sentimentData d (sq_tag query) (sq_from query)
                                       (sq_to query) limit) in
          (Cache.setCache cache1 now cacheKey rows 300, served rows false)
      end
  | Some _ => (cache, invalid_parameters)
  end.

(** What both routes do with the cache, for the statements below: answer
    from it, or store what was computed. *)
Definition through_cache (cache : Cache.t Cached) (now : Z) (key : string)
    (rows : Cached) : Cache.t Cached * ListReply :=
  match Cache.getCache cache now key with
  | (cache1, Some cachedData) => (cache1, served cachedData true)
  | (cache1, None) => (Cache.setCache cache1 now key rows 300, served rows false)
  end.

(** ** Retrying with exponential backoff (utility module)

    [retry] runs in a world of type [W]: calling [fn], drawing
    [Math.random()] and sleeping each take a world and give the next one. *)

Module Retry.

(** What a [catch] clause receives: an [Error] with its message, or another
    value with its rendering by [String]. *)
Inductive Caught :=
| ErrorObject (message : string)
| OtherValue (rendering : string).

(** What [retry] throws: an [Error], or [undefined] when [lastError] was
    never assigned. *)
Inductive Failure :=
| AnError (message : string)
| Undefined.

Inductive Settled (A : Type) :=
| Fulfilled (a : A)
| Rejected (e : Failure).

Arguments Fulfilled {A} a.
Arguments Rejected {A} e.

(** [error instanceof Error ? error : new Error(String(error))], as the
    message of the resulting [Error]. *)
Definition lastError_of (error : Caught) : string :=
  match error with
  | ErrorObject message => message
  | OtherValue rendering => rendering
  end.

(** [Math.pow(2, n)] for an integer [n >= 0]. *)
Definition pow2 (n : Z) : Js.number := Js.of_integer (2 ^ n) false.

(** [baseDelay * Math.pow(2, attempt - 1) + Math.random() * baseDelay]. *)
Definition backoff (baseDelay : Js.number) (attempt : Z) (random : Js.number)
  : Js.number :=
  (baseDelay * pow2 (attempt - 1) + random * baseDelay)%float.

Section Retry.

Context {W A : Type}.
Context (fn : W -> W * (A + Caught)).
Context (Math_random : W -> W * Js.number).
Context (sleep : Js.number -> W -> W).

(** The loop, with the number of turns that [attempt <= maxAttempts] still
    allows.  [maxAttempts] is an integer. *)
Fixpoint attempts (turns : nat) (maxAttempts : Z) (baseDelay : Js.number)
    (attempt : Z) (lastError : option string) (w : W) : W * Settled A :=
  match turns with
  | O =>
      (w, Rejected match lastError with
                   | Some message => AnError message
                   | None => Undefined
                   end)
  | S turns' =>
      match fn w with
      | (w1, inl a) => (w1, Fulfilled a)
      | (w1, inr error) =>
          let lastError := lastError_of error in
          if bool_decide (attempt = maxAttempts)
          then (w1, Rejected (AnError lastError))
          else
            let '(w2, random) := Math_random w1 in
            let delay := backoff baseDelay attempt random in
            attempts turns' maxAttempts baseDelay (attempt + 1) (Some lastError)
              (sleep delay w2)
      end
  end.

Definition retry (maxAttempts : Z) (baseDelay : Js.number) (w : W) : W * Settled A :=
  attempts (Z.to_nat maxAttempts) maxAttempts baseDelay 1 None w.

End Retry.

(** A world for the statements: the outcome of every call of [fn] and every
    draw of [Math.random()] is fixed in advance; the world counts the calls
    and records the delays slept. *)
Record Script (A : Type) := {
  outcome : nat -> A + Caught;
  draw : nat -> Js.number
}.

Arguments outcome {A} s n.
Arguments draw {A} s n.

Record Run := {
  calls : nat;
  slept : list Js.number
}.

Definition scripted_fn {A} (script : Retry.Script A) (w : Run) : Run * (A + Caught) :=
  ({| calls := S (calls w); slept := slept w |}, outcome script (calls w)).

Definition scripted_random {A} (script : Retry.Script A) (w : Run) : Run * Js.number :=
  (w, draw script (length (slept w))).

Definition scripted_sleep (delay : Js.number) (w : Run) : Run :=
  {| calls := calls w; slept := slept w ++ [delay] |}.

Definition scripted_retry {A} (script : Retry.Script A) (maxAttempts : Z)
    (baseDelay : Js.number) : Run * Settled A :=
  retry (scripted_fn script) (scripted_random script) scripted_sleep
    maxAttempts baseDelay {| calls := 0; slept := [] |}.

(** The delays slept after [n] failed calls. *)
Definition backoffs {A} (script : Retry.Script A) (baseDelay : Js.number) (n : nat)
  : list Js.number :=
  (fun i => backoff baseDelay (Z.of_nat i + 1) (draw script i)) <$> seq 0 n.

(** A script whose first two calls fail and whose later calls succeed. *)
Definition sample_script : Script Z :=
  {| outcome := fun i => if (i <? 2)%nat then inr (ErrorObject "timeout") else inl 42%Z;
     draw := fun _ => 0.5%float |}.

End Retry.


(** A client without its admin key: every call throws before any attempt. *)
Definition keyless : Env :=
  {| Chain := unit;
     submitEntryFunction := fun c _ _ _ => (c, Thrown "ADMIN_PRIVATE_KEY missing in .env");
     APTOS_MODULE_ADDRESS := Some "0xcafe";
     DEFAULT_ADMIN_WALLET := None |}.

(** Nothing was settled between [w] and [w']: the settlement backend is as
    it was, no strategy has become EXECUTED, and every new log entry is a
    failure with the reason given. *)
Definition nothing_settled {E : Env} (why : string) (w w' : World E) : Prop :=
  chain w' = chain w
  /\ (forall id s', strategy (db w') !! id = Some s' -> status s' = EXECUTED ->
        strategy (db w) !! id = Some s')
  /\ exists entries,
       executionLog (db w') = executionLog (db w) ++ entries
       /\ Forall (fun l => log_success l = false /\ log_reason l = Some why) entries.

(** ** The sentiment fetcher ([src/ingestion/sentiment_fetcher.ts])

    The two sources are external: what each answers for a tag in one run is
    given, [None] standing for [null]. *)

Module Fetcher.

Record TagConfig := {
  tag : string;
  sources : list string;
  keywords : list string;
  cryptoIds : list string;
  symbols : list string
}.

Definition TRACKED_TAGS : list TagConfig :=
  [ {| tag := "TRUMP"; sources := ["alphavantage"];
       keywords := ["trump"; "donald trump"]; cryptoIds := []; symbols := [] |};
    {| tag := "BIDEN"; sources := ["alphavantage"];
       keywords := ["biden"; "joe biden"]; cryptoIds := []; symbols := [] |};
    {| tag := "CRYPTO"; sources := ["coingecko"; "alphavantage"];
       keywords := ["cryptocurrency"; "bitcoin"; "ethereum"];
       cryptoIds := ["bitcoin"; "ethereum"; "cardano"; "solana"; "polkadot"];
       symbols := [] |};
    {| tag := "STOCK_MARKET"; sources := ["alphavantage"];
       keywords := ["stock market"; "stocks"; "trading"; "S&P 500"; "nasdaq"];
       cryptoIds := []; symbols := ["SPY"; "QQQ"; "DIA"] |};
    {| tag := "FED"; sources := ["alphavantage"];
       keywords := ["federal reserve"; "interest rate"; "fed"; "monetary policy";
                    "jerome powell"];
       cryptoIds := []; symbols := [] |} ].

Record SentimentData := {
  source : string;
  score : Js.number;
  weight : Js.number;
  count : Z
}.

(** The weighted mean of the answers that are not [null]; zero when there is
    none or when the weights do not add up to a positive number. *)
Definition aggregateSentiments (sentiments : list (option SentimentData))
  : Js.number :=
  let validSentiments := omap (fun s => s) sentiments in
  if bool_decide (length validSentiments = 0%nat) then 0%float
  else
    let totals :=
      foldl (fun totals s =>
               ((totals.1 + score s * weight s)%float, (totals.2 + weight s)%float))
            (0%float, 0%float) validSentiments in
    if Js.gt totals.2 0%float then (totals.1 / totals.2)%float else 0%float.

Section Fetcher.

Context (fetchAlphaVantageSentiment fetchCoinGeckoSentiment
           : TagConfig -> option SentimentData).

(** The answers of the sources configured for a tag, Alpha Vantage first. *)
Definition answers (tagConfig : TagConfig) : list (option SentimentData) :=
  (if bool_decide ("alphavantage" ∈ sources tagConfig)
   then [fetchAlphaVantageSentiment tagConfig] else [])
  ++ (if bool_decide ("coingecko" ∈ sources tagConfig)
      then [fetchCoinGeckoSentiment tagConfig] else []).

(** The snapshot stored for a tag, if any source answered. *)
Definition snapshot_of (now : Z) (tagConfig : TagConfig) : option SentimentSnapshot :=
  let sentiments := answers tagConfig in
  let finalScore := aggregateSentiments sentiments in
  if existsb (fun s => bool_decide (is_Some s)) sentiments
  then Some {| ss_tag := tag tagConfig; ss_timestamp := now; ss_score := finalScore |}
  else None.

(** One turn of the loop over the tracked tags. *)
Definition processStep (now : Z) (d : Database) (tagConfig : TagConfig) : Database :=
  match snapshot_of now tagConfig with
  | Some snapshot => ingest_sentiment d snapshot
  | None => d
  end.

Definition processSentimentSnapshots (d : Database) (now : Z) : Database :=
  foldl (processStep now) d TRACKED_TAGS.

End Fetcher.

End Fetcher.

(** *** Rounding to nearest as a relation on real numbers *)

Section Rounding64.
Local Open Scope R_scope.

(** The mantissa that rounding to nearest, ties to even, makes of a located
    number. *)
Definition rne_of (mrs : shr_record) : Z :=
  round_nearest_even (shr_m mrs) (loc_of_shr_record mrs).

(** [rounds_to x z]: [z] is the rounding of the positive number [x] on the
    grid that the magnitude of [x] selects. *)
Definition rounds_to (x z : R) : Prop :=
  exists (mag : Z) (mrs : shr_record),
    bpow (mag - 1) <= x < bpow mag
    /\ inb mrs (fexp prec emax mag) x
    /\ (0 <= shr_m mrs)%Z
    /\ z = IZR (rne_of mrs) * bpow (fexp prec emax mag).

(** The same for a number that is zero or positive. *)
Definition rounded (x z : R) : Prop :=
  (x = 0 /\ z = 0) \/ (0 < x /\ rounds_to x z).

End Rounding64.

(** *** Creation of a strategy through the API

    The parameters that [POST /strategy] hands to the settlement wrapper for
    the strategy it has just stored under [id]: thresholds in basis points,
    the sentiment threshold mapped from [-1, 1] onto [0, 10000]. *)
Definition created_registration (id : string) (validatedData : Strategy)
  : RegisterParams :=
  {| rp_strategyId := id;
     rp_ownerAddress := ownerAddress validatedData;
     rp_marketId := marketId validatedData;
     rp_sentimentTag := sentimentTag validatedData;
     rp_minPredictionProb :=
       Js.Math_round (minPredictionProb validatedData * 10000)%float;
     rp_minSentimentScore :=
       Js.Math_round ((minSentimentScore validatedData + 1) * 5000)%float;
     rp_notionalAmount := notionalAmount validatedData;
     rp_maxSlippageBps := Js.of_integer (maxSlippageBps validatedData) false;
     rp_expiryTimestamp :=
       Js.Math_floor (Js.of_integer (expiryTimestamp validatedData) false / 1000)%float |}.

(** A chain on which the sample strategy has been registered by the API. *)
Definition sample_registered : Move.Global :=
  Move.after Move.genesis
    (Move.Register 7 "s1" "CRYPTO_BTC" "CRYPTO" 5000 5000 50 100 1).

(** *** What a history transmits *)

(** What a piece of a history sends to the settlement client: executions
    only, each with the conversions of a stored market snapshot and of a
    stored sentiment snapshot; the snapshot tables only grow. *)
Definition sends_conversions {E : Env} (w w' : World E) : Prop :=
  marketSnapshot (db w) ⊆ marketSnapshot (db w')
  /\ sentimentSnapshot (db w) ⊆ sentimentSnapshot (db w')
  /\ exists sent,
       events w' = events w ++ sent
       /\ Forall (fun e =>
            match e with
            | SettlementExecute params =>
                exists m t,
                  m ∈ marketSnapshot (db w') /\ t ∈ sentimentSnapshot (db w')
                  /\ ep_probBps params = probToBps (ms_probability m)
                  /\ ep_sentimentBps params = sentimentToBps (ss_score t)
            | SettlementRegister _ => False
            | _ => True
            end) sent.

(** * Properties *)

(** ** Conversions *)

Lemma exact_round_bounds (x : Q) :
  (inject_Z (exact_round x) - (1 # 2) <= x)%Q
  /\ (x < inject_Z (exact_round x) + (1 # 2))%Q.
Proof.
  unfold exact_round.
  pose proof (Qfloor_le (x + (1 # 2))) as Hlo.
  pose proof (Qlt_floor (x + (1 # 2))) as Hhi.
  rewrite inject_Z_plus in Hhi. change (inject_Z 1) with 1%Q in Hhi.
  split; lra.
Qed.

(** C9, on the numbers of the program: at the sentiment [-0.7367] the round
    trip through basis points lands more than [1/10000] away. *)
Lemma sentiment_round_trip_exceeds_tolerance :
  Js.ge (-0.7367)%float (-1)%float = true
  /\ Js.ge 1%float (-0.7367)%float = true
  /\ sentimentToBps (-0.7367) = 1317%float
  /\ exists d : Q,
       distance (bpsToSentiment (sentimentToBps (-0.7367))) (-0.7367) = Some d
       /\ ~ (d <= 1 # 10000)%Q.
Proof.
  split; [vm_compute; reflexivity|].
  split; [vm_compute; reflexivity|].
  split; [vm_compute; reflexivity|].
  eexists. split; [vm_compute; reflexivity|].
  unfold Qle. simpl. lia.
Qed.

(** Over exact rational arithmetic both round trips stay within [1/10000]
    on the whole range of probabilities and sentiments: the bound is attained
    at half-way sentiments, so the rounding of the binary64 operations is all
    that separates the program from it. *)
Theorem exact_round_trip_within_tolerance (p s : Q) :
  (0 <= p)%Q -> (p <= 1)%Q -> (-1 <= s)%Q -> (s <= 1)%Q ->
  (Qabs (exact_bpsToProb (exact_probToBps p) - p) <= 1 # 10000)%Q
  /\ (Qabs (exact_bpsToSentiment (exact_sentimentToBps s) - s) <= 1 # 10000)%Q.
Proof.
  intros _ _ _ _.
  unfold exact_bpsToProb, exact_probToBps, exact_bpsToSentiment,
    exact_sentimentToBps.
  destruct (exact_round_bounds (p * 10000)) as [Hp1 Hp2].
  destruct (exact_round_bounds ((s + 1) * 5000)) as [Hs1 Hs2].
  split; apply Qabs_Qle_condition; split.
  - set (n := inject_Z (exact_round (p * 10000))) in *.
    assert (n / 10000 == n * (1 # 10000))%Q as -> by (field). lra.
  - set (n := inject_Z (exact_round (p * 10000))) in *.
    assert (n / 10000 == n * (1 # 10000))%Q as -> by (field). lra.
  - set (n := inject_Z (exact_round ((s + 1) * 5000))) in *.
    assert (n / 5000 == n * (1 # 5000))%Q as -> by (field). lra.
  - set (n := inject_Z (exact_round ((s + 1) * 5000))) in *.
    assert (n / 5000 == n * (1 # 5000))%Q as -> by (field). lra.
Qed.

Lemma exact_round_trip_within_tolerance_witness :
  (Qabs (exact_bpsToProb (exact_probToBps (3 # 5)) - (3 # 5)) <= 1 # 10000)%Q
  /\ (Qabs (exact_bpsToSentiment (exact_sentimentToBps (-7367 # 10000))
             - (-7367 # 10000)) <= 1 # 10000)%Q.
Proof.
  apply (exact_round_trip_within_tolerance (3 # 5) (-7367 # 10000));
    unfold Qle; simpl; lia.
Defined.

(** ** Rounding analysis of the conversions on binary64 numbers

    The products and sums of the forward conversions are those of [SFmul] and
    [SFadd] on [spec_float].  This part bounds the error of one rounding
    ([binary_round_aux]), lifts the bound to products and sums, and follows
    it through [probToBps] and [sentimentToBps]; the inverse conversions take
    one of 10001 integers and are checked by evaluation. *)

Section Rounding.
Local Open Scope R_scope.

(** *** Powers of two *)

Lemma bpow_pos e : 0 < bpow e.
Proof. apply powerRZ_lt. lra. Qed.

Lemma bpow_add e1 e2 : bpow (e1 + e2) = bpow e1 * bpow e2.
Proof. apply powerRZ_add. lra. Qed.

Lemma bpow_succ e : bpow (e + 1) = 2 * bpow e.
Proof. rewrite bpow_add. unfold bpow at 2. simpl. lra. Qed.

Lemma bpow_le e1 e2 : (e1 <= e2)%Z -> bpow e1 <= bpow e2.
Proof.
  intros H. replace e2 with (e1 + (e2 - e1))%Z by lia. rewrite bpow_add.
  assert (1 <= bpow (e2 - e1)).
  { unfold bpow. destruct (e2 - e1)%Z eqn:Hd; try lia; simpl.
    - lra.
    - apply pow_R1_Rle. lra. }
  pose proof (bpow_pos e1). nra.
Qed.

Lemma bpow_lt_inv e1 e2 : bpow e1 < bpow e2 -> (e1 < e2)%Z.
Proof.
  intros H. destruct (Z_lt_le_dec e1 e2) as [|Hle]; [assumption|].
  apply bpow_le in Hle. lra.
Qed.

Lemma bpow_IZR (n : Z) : (0 <= n)%Z -> bpow n = IZR (2 ^ n).
Proof.
  intros H. pattern n. apply natlike_ind; [reflexivity| |assumption].
  intros x Hx IH. unfold Z.succ. rewrite bpow_succ, IH.
  rewrite Z.pow_add_r by lia. rewrite mult_IZR. simpl. lra.
Qed.

(** A mantissa lies between the two powers of two its bit length names. *)
Lemma digits2_pos_Z (m : positive) :
  (2 ^ (Zpos (digits2_pos m) - 1) <= Zpos m < 2 ^ Zpos (digits2_pos m))%Z.
Proof.
  induction m as [m IH|m IH|]; simpl digits2_pos.
  - rewrite Pos2Z.inj_succ.
    replace (Z.succ (Z.pos (digits2_pos m)) - 1)%Z with (Z.succ (Z.pos (digits2_pos m) - 1))%Z by lia.
    rewrite !Z.pow_succ_r by lia. lia.
  - rewrite Pos2Z.inj_succ.
    replace (Z.succ (Z.pos (digits2_pos m)) - 1)%Z with (Z.succ (Z.pos (digits2_pos m) - 1))%Z by lia.
    rewrite !Z.pow_succ_r by lia. lia.
  - simpl. lia.
Qed.

Lemma digits2_pos_bounds (m : positive) :
  bpow (Zpos (digits2_pos m) - 1) <= IZR (Zpos m) < bpow (Zpos (digits2_pos m)).
Proof.
  pose proof (digits2_pos_Z m) as [H1 H2].
  rewrite !bpow_IZR by lia. split; [apply IZR_le|apply IZR_lt]; assumption.
Qed.

(** *** Truncation with round and sticky bits

    Shifting a record to the right keeps locating the same real number. *)

Lemma inb_bounds mrs e x :
  inb mrs e x -> IZR (shr_m mrs) * bpow e <= x < (IZR (shr_m mrs) + 1) * bpow e.
Proof.
  unfold inb. pose proof (bpow_pos e).
  destruct (shr_r mrs), (shr_s mrs); intros; nra.
Qed.

Lemma shr_1_inb mrs e x :
  (0 <= shr_m mrs)%Z -> inb mrs e x ->
  inb (shr_1 mrs) (e + 1) x /\ (0 <= shr_m (shr_1 mrs))%Z.
Proof.
  destruct mrs as [m r s]. 
  cbn [shr_m]. intros Hm.
  pose proof (bpow_pos e) as Hp.
  unfold inb. rewrite bpow_succ.
  set (t := bpow e) in *. clearbody t.
  destruct m as [|p|p]; [|destruct p as [p|p|]|exfalso; clear -Hm; lia].
  - destruct r, s; cbn [shr_1 shr_m shr_r shr_s orb];
      intros H; (split; [lra|clear; lia]).
  - assert (IZR (Z.pos p~1) = 2 * IZR (Z.pos p) + 1) as Heq
      by (rewrite Pos2Z.inj_xI, plus_IZR, mult_IZR; reflexivity).
    destruct r, s; cbn [shr_1 shr_m shr_r shr_s orb]; rewrite Heq;
      intros H; (split; [lra|clear; lia]).
  - assert (IZR (Z.pos p~0) = 2 * IZR (Z.pos p)) as Heq
      by (rewrite Pos2Z.inj_xO, mult_IZR; reflexivity).
    destruct r, s; cbn [shr_1 shr_m shr_r shr_s orb]; rewrite Heq;
      intros H; (split; [lra|clear; lia]).
  - destruct r, s; cbn [shr_1 shr_m shr_r shr_s orb];
      intros H; (split; [lra|clear; lia]).
Qed.

Lemma iter_shr_1_inb (p : positive) : forall mrs e x,
  (0 <= shr_m mrs)%Z -> inb mrs e x ->
  inb (SpecFloat.iter_pos shr_1 p mrs) (e + Zpos p) x
  /\ (0 <= shr_m (SpecFloat.iter_pos shr_1 p mrs))%Z.
Proof.
  induction p as [p IH|p IH|]; intros mrs e x Hm H; simpl.
  - destruct (shr_1_inb mrs e x Hm H) as [H1 Hm1].
    destruct (IH _ _ _ Hm1 H1) as [H2 Hm2].
    destruct (IH _ _ _ Hm2 H2) as [H3 Hm3].
    split; [|assumption].
    replace (e + Z.pos p~1)%Z with (e + 1 + Z.pos p + Z.pos p)%Z by (clear; lia). assumption.
  - destruct (IH _ _ _ Hm H) as [H2 Hm2].
    destruct (IH _ _ _ Hm2 H2) as [H3 Hm3].
    split; [|assumption].
    replace (e + Z.pos p~0)%Z with (e + Z.pos p + Z.pos p)%Z by (clear; lia). assumption.
  - apply shr_1_inb; assumption.
Qed.

Lemma shr_inb mrs e n x :
  (0 <= shr_m mrs)%Z -> inb mrs e x ->
  inb (fst (shr mrs e n)) (snd (shr mrs e n)) x
  /\ (0 <= shr_m (fst (shr mrs e n)))%Z
  /\ snd (shr mrs e n) = (e + Z.max n 0)%Z.
Proof.
  intros Hm H. unfold shr. destruct n as [|p|p]; simpl.
  - rewrite Z.add_0_r. auto.
  - destruct (iter_shr_1_inb p mrs e x Hm H). auto.
  - rewrite Z.add_0_r. auto.
Qed.

(** *** Rounding to nearest, ties to even *)

Lemma fexp_binary64 e : fexp prec emax e = Z.max (e - 53) (-1074).
Proof. reflexivity. Qed.

Lemma shr_record_of_loc_m m l : shr_m (shr_record_of_loc m l) = m.
Proof. destruct l as [|[]]; reflexivity. Qed.

Lemma shr_nonpos mrs e n : (n <= 0)%Z -> shr mrs e n = (mrs, e).
Proof. destruct n; [reflexivity|lia|reflexivity]. Qed.

(** Rounding a located number moves it by at most half a step. *)
Lemma round_nearest_even_spec mrs e x :
  (0 <= shr_m mrs)%Z -> inb mrs e x ->
  let m_r := round_nearest_even (shr_m mrs) (loc_of_shr_record mrs) in
  (0 <= m_r)%Z /\ Rabs (IZR m_r * bpow e - x) <= bpow e / 2.
Proof.
  destruct mrs as [m r s]. cbn [shr_m]. intros Hm H.
  pose proof (bpow_pos e) as Hp.
  unfold inb in H. cbn [shr_m shr_r shr_s] in H.
  destruct r, s; cbn [loc_of_shr_record round_nearest_even].
  - split; [clear -Hm; lia|]. rewrite plus_IZR. apply Rabs_le. lra.
  - destruct (Z.even m).
    + split; [assumption|]. apply Rabs_le. lra.
    + split; [clear -Hm; lia|]. rewrite plus_IZR. apply Rabs_le. lra.
  - split; [assumption|]. apply Rabs_le. lra.
  - split; [assumption|]. apply Rabs_le. lra.
Qed.

Lemma round_nearest_even_exact m : round_nearest_even m loc_Exact = m.
Proof. reflexivity. Qed.

Lemma Zdigits2_bounds (m : positive) :
  bpow (Zdigits2 (Zpos m) - 1) <= IZR (Zpos m) < bpow (Zdigits2 (Zpos m)).
Proof. apply digits2_pos_bounds. Qed.

Lemma bpow_m52 : bpow (-52) = / IZR (2 ^ 52).
Proof.
  unfold bpow. change (-52)%Z with (- (52))%Z. rewrite powerRZ_neg'.
  f_equal. change (powerRZ 2 52) with (bpow 52). apply bpow_IZR. lia.
Qed.

(** The step chosen for a mantissa is at most [2^-52] times the number, or
    the subnormal step. *)
Lemma bpow_fexp_le (m : positive) (e : Z) :
  bpow (fexp prec emax (Zdigits2 (Zpos m) + e))
  <= Rmax (IZR (Zpos m) * bpow e * bpow (-52)) (bpow (-1074)).
Proof.
  rewrite fexp_binary64.
  destruct (Z.max_spec (Zdigits2 (Z.pos m) + e - 53) (-1074)) as [[_ ->]|[_ ->]].
  - apply Rmax_r.
  - eapply Rle_trans; [|apply Rmax_l].
    replace (Zdigits2 (Z.pos m) + e - 53)%Z
      with ((Zdigits2 (Z.pos m) - 1) + e + -52)%Z by (clear; lia).
    rewrite !bpow_add.
    pose proof (Zdigits2_bounds m) as [Hd _].
    pose proof (bpow_pos e). pose proof (bpow_pos (-52)).
    apply Rmult_le_compat_r; [lra|]. apply Rmult_le_compat_r; lra.
Qed.

Lemma Rabs_le_inv a b : Rabs a <= b -> - b <= a <= b.
Proof. unfold Rabs. destruct (Rcase_abs a); lra. Qed.

Lemma Rle_Rmax_cases a b c : c <= Rmax a b -> c <= a \/ c <= b.
Proof. unfold Rmax. destruct (Rle_dec a b); auto. Qed.

(** *** One rounding *)

Lemma binary_round_aux_unfold sx mx ex lx :
  binary_round_aux prec emax sx mx ex lx =
  let r1 := shr_fexp prec emax mx ex lx in
  let r2 := shr_fexp prec emax
              (round_nearest_even (shr_m (fst r1)) (loc_of_shr_record (fst r1)))
              (snd r1) loc_Exact in
  match shr_m (fst r2) with
  | Z0 => S754_zero sx
  | Zpos m => if (snd r2 <=? emax - prec)%Z then S754_finite sx m (snd r2)
              else S754_infinity sx
  | Zneg _ => S754_nan
  end.
Proof.
  unfold binary_round_aux.
  destruct (shr_fexp prec emax mx ex lx) as [a b]. simpl.
  destruct (shr_fexp prec emax _ b loc_Exact) as [c d]. reflexivity.
Qed.

(** Rounding [mx * 2^ex], when at most [2^100]: the sign is kept, there is
    no overflow, and the magnitude moves by at most a relative [2^-50] plus
    an absolute [2^-1073]. *)
Lemma binary_round_aux_exact sx (mx : positive) ex :
  let x := IZR (Zpos mx) * bpow ex in
  x <= bpow 100 ->
  let z := binary_round_aux prec emax sx (Zpos mx) ex loc_Exact in
  SFsign z = Some sx /\ Rabs (SFabsR z - x) <= x * bpow (-50) + bpow (-1073).
Proof.
  intros x Hx z.
  assert (0 < x) as Hxpos.
  { unfold x. apply Rmult_lt_0_compat; [apply IZR_lt; reflexivity|apply bpow_pos]. }
  (* first shift *)
  set (n1 := (fexp prec emax (Zdigits2 (Zpos mx) + ex) - ex)%Z).
  assert (inb (shr_record_of_loc (Zpos mx) loc_Exact) ex x) as Hin0
    by (unfold inb; simpl; reflexivity).
  destruct (shr_inb (shr_record_of_loc (Zpos mx) loc_Exact) ex n1 x
              ltac:(simpl; clear; lia) Hin0) as (Hin1 & Hm1 & He1).
  (* rounding *)
  set (mrs' := fst (shr (shr_record_of_loc (Zpos mx) loc_Exact) ex n1)) in *.
  set (e' := snd (shr (shr_record_of_loc (Zpos mx) loc_Exact) ex n1)) in *.
  destruct (round_nearest_even_spec mrs' e' x Hm1 Hin1) as [Hmr Hr].
  set (m_r := round_nearest_even (shr_m mrs') (loc_of_shr_record mrs')) in *.
  set (x_r := IZR m_r * bpow e') in *.
  (* second shift *)
  set (n2 := (fexp prec emax (Zdigits2 m_r + e') - e')%Z).
  assert (inb (shr_record_of_loc m_r loc_Exact) e' x_r) as Hin2
    by (unfold inb; simpl; reflexivity).
  destruct (shr_inb (shr_record_of_loc m_r loc_Exact) e' n2 x_r
              ltac:(simpl; exact Hmr) Hin2) as (Hin3 & Hm3 & He3).
  set (mrs'' := fst (shr (shr_record_of_loc m_r loc_Exact) e' n2)) in *.
  set (e'' := snd (shr (shr_record_of_loc m_r loc_Exact) e' n2)) in *.
  assert (z = match shr_m mrs'' with
              | Z0 => S754_zero sx
              | Zpos m => if (e'' <=? emax - prec)%Z then S754_finite sx m e''
                          else S754_infinity sx
              | Zneg _ => S754_nan
              end) as Hz.
  { unfold z. rewrite binary_round_aux_unfold. reflexivity. }
  pose proof (inb_bounds _ _ _ Hin3) as Hb3.
  pose proof (bpow_pos e') as Hpe'. pose proof (bpow_pos e'') as Hpe''.
  pose proof (bpow_pos ex) as Hpex.
  (* constants *)
  assert (0 < bpow (-52) <= / 2) as Hb52.
  { split; [apply bpow_pos|].
    replace (/ 2) with (bpow (-1)) by (unfold bpow; simpl; lra).
    apply bpow_le. clear; lia. }
  assert (bpow (-50) = 4 * bpow (-52)) as Hb50.
  { replace (-50)%Z with (-52 + 1 + 1)%Z by (clear; lia). rewrite !bpow_succ. lra. }
  assert (bpow (-1073) = 2 * bpow (-1074)) as Hb1073.
  { replace (-1073)%Z with (-1074 + 1)%Z by (clear; lia). rewrite !bpow_succ. lra. }
  assert (bpow (-1074) <= 1) as Heta.
  { replace 1 with (bpow 0) by reflexivity. apply bpow_le. clear; lia. }
  pose proof (bpow_pos (-1074)) as Heta0.
  assert (bpow 102 = 4 * bpow 100) as Hb102.
  { replace 102%Z with (100 + 1 + 1)%Z by (clear; lia). rewrite !bpow_succ. lra. }
  assert (1 <= bpow 100) as Hb100.
  { replace 1 with (bpow 0) by reflexivity. apply bpow_le. clear; lia. }
  set (b52 := bpow (-52)) in *. set (eta := bpow (-1074)) in *.
  (* magnitude of the first exponent *)
  assert ((0 < n1)%Z /\ (-1074 <= e')%Z /\ bpow e' <= Rmax (x * b52) eta
          \/ (n1 <= 0)%Z /\ e' = ex /\ m_r = Zpos mx) as Hcase1.
  { destruct (Z_le_gt_dec n1 0) as [Hn1|Hn1].
    - right. unfold m_r, e', mrs'. rewrite shr_nonpos by assumption.
      split; [assumption|split; reflexivity].
    - left. split; [clear -Hn1; lia|].
      assert (e' = fexp prec emax (Zdigits2 (Z.pos mx) + ex)) as He'.
      { rewrite He1. unfold n1 in *. clear -Hn1. lia. }
      split.
      + rewrite He', fexp_binary64. clear. lia.
      + rewrite He'. apply bpow_fexp_le. }
  (* magnitude of the second exponent *)
  assert ((0 < n2)%Z /\ (e' < e'')%Z /\ bpow e'' <= Rmax (x_r * b52) eta
          \/ (n2 <= 0)%Z /\ e'' = e' /\ shr_m mrs'' = m_r) as Hcase2.
  { destruct (Z_le_gt_dec n2 0) as [Hn2|Hn2].
    - right. unfold e'', mrs''. rewrite shr_nonpos by assumption.
      split; [assumption|split; reflexivity].
    - left. split; [clear -Hn2; lia|]. split; [rewrite He3; clear -Hn2; lia|].
      assert (e'' = fexp prec emax (Zdigits2 m_r + e')) as He''.
      { rewrite He3. unfold n2 in *. clear -Hn2. lia. }
      destruct m_r as [|p|p] eqn:Hmr0.
      + exfalso. destruct Hcase1 as [(_ & Hlo & _)|(_ & _ & Habs)]; [|discriminate].
        unfold n2 in Hn2. rewrite fexp_binary64 in Hn2. simpl Zdigits2 in Hn2.
        clear -Hn2 Hlo. lia.
      + rewrite He''. unfold x_r. apply bpow_fexp_le.
      + exfalso. clear -Hmr. lia. }
  apply Rabs_le_inv in Hr.
  set (v := IZR (shr_m mrs'') * bpow e'') in *.
  assert (v <= x_r < v + bpow e'') as Hv3 by (unfold v in *; lra).
  assert (0 <= x * b52 <= x / 2) as Ht3 by nra.
  assert (bpow 102 <= bpow 972) as Hbig by (apply bpow_le; clear; lia).
  assert (Rabs (v - x) <= x * bpow (-50) + bpow (-1073)
          /\ (bpow e'' <= v -> (e'' <= 971)%Z)) as [HA HB].
  { rewrite Hb50, Hb1073.
    destruct Hcase1 as [(Hn1 & Hlo & Hbe')|(Hn1 & He' & Hmx)].
    - apply Rle_Rmax_cases in Hbe'.
      destruct Hcase2 as [(Hn2 & Hlt & Hbe'')|(Hn2 & He'' & Hm'')].
      + apply Rle_Rmax_cases in Hbe''.
        assert (2 * bpow e' <= bpow e'') as H2.
        { rewrite <- bpow_succ. apply bpow_le. clear -Hlt. lia. }
        assert (bpow e'' * b52 <= bpow e'' / 2) as Ht1 by nra.
        assert (x_r * b52 <= (x + bpow e'' / 4) * b52) as Ht4
          by (apply Rmult_le_compat_r; lra).
        split.
        * apply Rabs_le. destruct Hbe' as [Hbe'|Hbe'], Hbe'' as [Hbe''|Hbe'']; lra.
        * intros Hv. apply Z.lt_succ_r. apply bpow_lt_inv.
          change (Z.succ 971) with 972%Z.
          destruct Hbe' as [Hbe'|Hbe']; lra.
      + assert (v = x_r) as Hv by (unfold v, x_r; rewrite He'', Hm''; reflexivity).
        split.
        * apply Rabs_le. destruct Hbe' as [Hbe'|Hbe']; lra.
        * intros Hv'. apply Z.lt_succ_r. apply bpow_lt_inv.
          change (Z.succ 971) with 972%Z.
          destruct Hbe' as [Hbe'|Hbe']; lra.
    - assert (n2 = n1) as Hn by (unfold n2, n1; rewrite Hmx, He'; reflexivity).
      destruct Hcase2 as [(Hn2 & _)|(Hn2 & He'' & Hm'')];
        [exfalso; clear -Hn Hn1 Hn2; lia|].
      assert (v = x) as Hv by (unfold v, x; rewrite He'', Hm'', Hmx, He'; reflexivity).
      split.
      + rewrite Hv. replace (x - x) with 0 by ring. rewrite Rabs_R0. lra.
      + intros Hv'. apply Z.lt_succ_r. apply bpow_lt_inv.
        change (Z.succ 971) with 972%Z. lra. }
  rewrite Hz. unfold v in *. clear Hz.
  destruct (shr_m mrs'') as [|m|m].
  - split; [reflexivity|]. simpl SFabsR. replace (0 * bpow e'') with 0 in HA by ring.
    exact HA.
  - assert (e'' <= 971)%Z as Hle.
    { apply HB. assert (1 <= IZR (Z.pos m)) by (apply IZR_le; clear; lia). nra. }
    change (emax - prec)%Z with 971%Z.
    apply Z.leb_le in Hle. rewrite Hle. split; [reflexivity|exact HA].
  - exfalso. clear -Hm3. lia.
Qed.

(** *** Signed values *)

Lemma SF2R_sign z s :
  SFsign z = Some s -> SF2R z = (if s then -1 else 1) * SFabsR z.
Proof.
  destruct z as [s'|s'| |s' m e]; simpl; try discriminate; intros [= <-].
  - destruct s'; ring.
  - destruct s'; simpl; [|ring].
    change (Z.neg m) with (- Z.pos m)%Z. rewrite opp_IZR. ring.
Qed.

Lemma SFsign_finite z s : SFsign z = Some s -> SFfinite z = true.
Proof. destruct z; simpl; congruence. Qed.

(** The result of rounding a positive mantissa. *)
Lemma binary_round_aux_signed sx (mx : positive) ex :
  let x := IZR (cond_Zopp sx (Zpos mx)) * bpow ex in
  Rabs x <= bpow 100 ->
  let z := binary_round_aux prec emax sx (Zpos mx) ex loc_Exact in
  SFsign z = Some sx
  /\ Rabs (SF2R z - x) <= Rabs x * bpow (-50) + bpow (-1073).
Proof.
  intros x Hx z.
  pose proof (bpow_pos ex) as Hp.
  assert (0 < IZR (Z.pos mx)) as Hm by (apply IZR_lt; reflexivity).
  assert (x = (if sx then -1 else 1) * (IZR (Z.pos mx) * bpow ex)) as Hxeq.
  { unfold x. destruct sx; simpl; [|ring].
    change (Z.neg mx) with (- Z.pos mx)%Z. rewrite opp_IZR. ring. }
  assert (Rabs x = IZR (Z.pos mx) * bpow ex) as Habs.
  { rewrite Hxeq. destruct sx.
    - rewrite Rabs_left; nra.
    - rewrite Rabs_right; nra. }
  rewrite Habs in *.
  destruct (binary_round_aux_exact sx mx ex Hx) as [Hs He]. fold z in Hs, He.
  split; [assumption|].
  rewrite (SF2R_sign z sx Hs), Hxeq.
  apply Rabs_le_inv in He. apply Rabs_le.
  destruct sx; lra.
Qed.

Lemma iter_xO_IZR (d mx : positive) :
  IZR (Zpos (Pos.iter xO mx d)) = IZR (Zpos mx) * bpow (Zpos d).
Proof.
  induction d as [|d IH] using Pos.peano_ind.
  - simpl. rewrite Pos2Z.inj_xO, mult_IZR. unfold bpow. simpl. ring.
  - rewrite Pos.iter_succ, Pos2Z.inj_xO, mult_IZR, IH, Pos2Z.inj_succ.
    unfold Z.succ. rewrite bpow_succ. ring.
Qed.

Lemma shl_align_spec mx ex ex' :
  IZR (Zpos (fst (shl_align mx ex ex'))) * bpow (snd (shl_align mx ex ex'))
  = IZR (Zpos mx) * bpow ex
  /\ ((ex' <= ex)%Z -> snd (shl_align mx ex ex') = ex').
Proof.
  unfold shl_align. destruct (ex' - ex)%Z as [|d|d] eqn:Hd; simpl.
  - split; [reflexivity|]. intros _. clear -Hd. lia.
  - split; [reflexivity|]. intros H. exfalso. clear -Hd H. lia.
  - split; [|reflexivity]. rewrite iter_xO_IZR.
    replace ex with (ex' + Zpos d)%Z by (clear -Hd; lia).
    rewrite bpow_add. ring.
Qed.

Lemma binary_round_spec sx (mx : positive) ex :
  let x := IZR (cond_Zopp sx (Zpos mx)) * bpow ex in
  Rabs x <= bpow 100 ->
  let z := binary_round prec emax sx mx ex in
  SFsign z = Some sx
  /\ Rabs (SF2R z - x) <= Rabs x * bpow (-50) + bpow (-1073).
Proof.
  intros x Hx z. unfold z, binary_round.
  pose proof (shl_align_spec mx ex (fexp prec emax (Z.pos (digits2_pos mx) + ex)))
    as [Hv _].
  destruct (shl_align mx ex _) as [mz ez]. simpl in Hv.
  assert (x = IZR (cond_Zopp sx (Z.pos mz)) * bpow ez) as Hxeq.
  { unfold x. destruct sx; simpl.
    - change (Z.neg mx) with (- Z.pos mx)%Z. change (Z.neg mz) with (- Z.pos mz)%Z.
      rewrite !opp_IZR. lra.
    - lra. }
  rewrite Hxeq in *. apply binary_round_aux_signed. assumption.
Qed.

Lemma binary_normalize_spec (m : Z) ex szero :
  let x := IZR m * bpow ex in
  Rabs x <= bpow 100 ->
  let z := binary_normalize prec emax m ex szero in
  SFfinite z = true
  /\ (0 <= m -> szero = false -> SFsign z = Some false)%Z
  /\ Rabs (SF2R z - x) <= Rabs x * bpow (-50) + bpow (-1073).
Proof.
  intros x Hx z. unfold z, binary_normalize.
  pose proof (bpow_pos (-1073)) as Hp.
  destruct m as [|p|p].
  - simpl. split; [reflexivity|]. split; [intros _ ->; reflexivity|].
    unfold x. rewrite Rmult_0_l, Rminus_0_r, Rabs_R0. lra.
  - destruct (binary_round_spec false p ex Hx) as [Hs He].
    split; [eapply SFsign_finite; eassumption|]. split; [intros; assumption|].
    exact He.
  - destruct (binary_round_spec true p ex Hx) as [Hs He].
    split; [eapply SFsign_finite; eassumption|].
    split; [intros H; exfalso; clear -H; lia|]. exact He.
Qed.

(** *** Products and sums

    The product of two finite numbers is finite and within the rounding bound
    of the real product, as long as that product is at most [2^100]. *)
Lemma SFmul_spec x y :
  SFfinite x = true -> SFfinite y = true ->
  Rabs (SF2R x * SF2R y) <= bpow 100 ->
  let z := SFmul prec emax x y in
  SFfinite z = true
  /\ (SFsign x = Some false -> SFsign y = Some false -> SFsign z = Some false)
  /\ Rabs (SF2R z - SF2R x * SF2R y)
     <= Rabs (SF2R x * SF2R y) * bpow (-50) + bpow (-1073).
Proof.
  intros Hfx Hfy Hb z. pose proof (bpow_pos (-1073)) as Hp.
  destruct x as [sx|sx| |sx mx ex]; try discriminate;
    destruct y as [sy|sy| |sy my ey]; try discriminate; unfold z; simpl SFmul.
  1-3: (split; [reflexivity|]; split; [simpl; intros [= ->] [= ->]; reflexivity|];
        match goal with |- context [SF2R ?a * SF2R ?b] =>
          replace (SF2R a * SF2R b) with 0 by (simpl; ring) end;
        simpl SF2R; rewrite Rminus_0_r, Rabs_R0; lra).
  - assert (SF2R (S754_finite sx mx ex) * SF2R (S754_finite sy my ey)
            = IZR (cond_Zopp (xorb sx sy) (Zpos (mx * my))) * bpow (ex + ey)) as Heq.
    { simpl SF2R. rewrite bpow_add.
      destruct sx, sy; simpl;
        rewrite ?Pos2Z.inj_mul;
        change (Z.neg mx) with (- Z.pos mx)%Z;
        change (Z.neg my) with (- Z.pos my)%Z;
        change (Z.neg (mx * my)) with (- Z.pos (mx * my))%Z;
        rewrite ?opp_IZR, ?Pos2Z.inj_mul, ?mult_IZR; ring. }
    rewrite Heq in *.
    destruct (binary_round_aux_signed (xorb sx sy) (mx * my) (ex + ey) Hb) as [Hs He].
    split; [eapply SFsign_finite; eassumption|].
    split; [simpl; intros [= ->] [= ->]; exact Hs|]. exact He.
Qed.

Lemma SF2R_finite_sign s m e :
  0 <= SF2R (S754_finite s m e) -> s = false.
Proof.
  simpl. pose proof (bpow_pos e) as Hp.
  assert (0 < IZR (Z.pos m)) as Hm by (apply IZR_lt; reflexivity).
  destruct s; [|reflexivity]. simpl.
  change (Z.neg m) with (- Z.pos m)%Z. rewrite opp_IZR. intros H. exfalso. nra.
Qed.

Lemma SF2R_aligned s m e ez :
  (ez <= e)%Z ->
  IZR (cond_Zopp s (Z.pos (fst (shl_align m e ez)))) * bpow ez
  = SF2R (S754_finite s m e).
Proof.
  intros Hle. destruct (shl_align_spec m e ez) as [Hv He]. rewrite (He Hle) in Hv.
  simpl SF2R. destruct s; simpl.
  - change (Z.neg m) with (- Z.pos m)%Z.
    change (Z.neg (fst (shl_align m e ez))) with (- Z.pos (fst (shl_align m e ez)))%Z.
    rewrite !opp_IZR. lra.
  - exact Hv.
Qed.

(** The same for sums. *)
Lemma SFadd_spec x y :
  SFfinite x = true -> SFfinite y = true ->
  Rabs (SF2R x + SF2R y) <= bpow 100 ->
  let z := SFadd prec emax x y in
  SFfinite z = true
  /\ (0 <= SF2R x + SF2R y -> SFsign y = Some false -> SFsign z = Some false)
  /\ Rabs (SF2R z - (SF2R x + SF2R y))
     <= Rabs (SF2R x + SF2R y) * bpow (-50) + bpow (-1073).
Proof.
  intros Hfx Hfy Hb z. pose proof (bpow_pos (-1073)) as Hp.
  pose proof (bpow_pos (-50)) as Hp50.
  assert (forall t, Rabs (t - t) <= Rabs t * bpow (-50) + bpow (-1073)) as Hexact.
  { intros t. replace (t - t) with 0 by ring. rewrite Rabs_R0.
    pose proof (Rabs_pos t). nra. }
  destruct x as [sx|sx| |sx mx ex]; try discriminate;
    destruct y as [sy|sy| |sy my ey]; try discriminate; unfold z; simpl SFadd.
  - split; [destruct sx, sy; reflexivity|].
    split; [intros _ [= ->]; destruct sx; reflexivity|].
    replace (SF2R (S754_zero sx) + SF2R (S754_zero sy)) with 0 by (simpl; ring).
    replace (SF2R _) with 0 by (destruct sx, sy; reflexivity).
    apply Hexact.
  - split; [reflexivity|]. split; [intros _ H; exact H|].
    replace (SF2R (S754_zero sx) + SF2R (S754_finite sy my ey))
      with (SF2R (S754_finite sy my ey)) by (simpl; ring).
    apply Hexact.
  - split; [reflexivity|].
    replace (SF2R (S754_finite sx mx ex) + SF2R (S754_zero sy))
      with (SF2R (S754_finite sx mx ex)) by (simpl; ring).
    split; [|apply Hexact].
    intros H _. apply SF2R_finite_sign in H. subst sx. reflexivity.
  - set (ez := Z.min ex ey).
    set (m := (cond_Zopp sx (Z.pos (fst (shl_align mx ex ez)))
               + cond_Zopp sy (Z.pos (fst (shl_align my ey ez))))%Z).
    assert (IZR m * bpow ez
            = SF2R (S754_finite sx mx ex) + SF2R (S754_finite sy my ey)) as Heq.
    { unfold m. rewrite plus_IZR, Rmult_plus_distr_r.
      rewrite !SF2R_aligned by (unfold ez; clear; lia). reflexivity. }
    rewrite <- Heq in *.
    destruct (binary_normalize_spec m ez false Hb) as (Hf & Hs & He).
    split; [exact Hf|]. split; [|exact He].
    intros Hpos _. apply Hs; [|reflexivity].
    pose proof (bpow_pos ez) as Hpz.
    destruct (Z_lt_le_dec m 0) as [Hneg|Hnn]; [|exact Hnn].
    exfalso. apply IZR_lt in Hneg. nra.
Qed.

(** *** Numbers of the program

    The rational value of a number is its real value. *)

Lemma bpow_neg e : bpow (- e) = / bpow e.
Proof. unfold bpow. apply powerRZ_neg'. Qed.

Lemma value_SF2R x q :
  Js.value x = Some q ->
  SFfinite (Prim2SF x) = true /\ SF2R (Prim2SF x) = Q2R q.
Proof.
  unfold Js.value. destruct (Prim2SF x) as [s|s| |s m e]; try discriminate.
  - intros [= <-]. split; [reflexivity|]. simpl. unfold Q2R. simpl. lra.
  - intros [= <-]. split; [reflexivity|]. simpl SF2R.
    assert (cond_Zopp s (Z.pos m) = if s then Z.neg m else Z.pos m) as ->
      by (destruct s; reflexivity).
    set (v := if s then Z.neg m else Z.pos m).
    destruct (0 <=? e)%Z eqn:He.
    + apply Z.leb_le in He. unfold Q2R. simpl.
      rewrite mult_IZR, <- bpow_IZR by assumption. lra.
    + apply Z.leb_gt in He. unfold Q2R. simpl.
      assert (0 < 2 ^ (- e))%Z as Hpos by (apply Z.pow_pos_nonneg; lia).
      rewrite Z2Pos.id by assumption.
      rewrite <- bpow_IZR by lia. rewrite bpow_neg, Rinv_inv. reflexivity.
Qed.

(** Valid numbers with a non-negative exponent are at least [2^52]. *)
Lemma valid_large s m e :
  valid_binary (S754_finite s m e) = true -> (0 <= e)%Z ->
  bpow 52 <= IZR (Z.pos m) * bpow e.
Proof.
  intros H He. change (bounded prec emax m e = true) in H.
  unfold bounded, canonical_mantissa in H.
  apply andb_prop in H as [H _]. apply Z.eqb_eq in H.
  rewrite fexp_binary64 in H.
  assert (Z.pos (digits2_pos m) = 53)%Z as Hd by (clear -H He; lia).
  pose proof (digits2_pos_bounds m) as [Hlo _]. rewrite Hd in Hlo.
  change (53 - 1)%Z with 52%Z in Hlo.
  assert (1 <= bpow e) by (replace 1 with (bpow 0) by reflexivity; apply bpow_le; assumption).
  pose proof (bpow_pos 52).
  apply Rle_trans with (IZR (Z.pos m) * 1); [lra|].
  apply Rmult_le_compat_l; lra.
Qed.

Lemma of_integer_zero : Js.of_integer 0 false = SF2Prim (S754_zero false).
Proof. reflexivity. Qed.

(** [Math.round] of a small non-negative number is the number of an integer
    within one half of it. *)
Lemma Math_round_small (b : Js.number) :
  SFfinite (Prim2SF b) = true ->
  SFsign (Prim2SF b) = Some false ->
  SF2R (Prim2SF b) <= 10000 + / 4 ->
  exists n : Z,
    (0 <= n <= 10000)%Z
    /\ Js.Math_round b = Js.of_integer n false
    /\ Rabs (IZR n - SF2R (Prim2SF b)) <= / 2.
Proof.
  intros Hf Hs Hle. unfold Js.Math_round.
  pose proof (Prim2SF_valid b) as Hvalid.
  pose proof (SF2Prim_Prim2SF b) as Hb.
  destruct (Prim2SF b) as [s|s| |s m e]; try discriminate.
  - simpl in Hs. injection Hs as ->. exists 0%Z.
    split; [clear; lia|]. split; [rewrite <- Hb; reflexivity|].
    simpl. rewrite Rminus_0_r, Rabs_R0. lra.
  - simpl in Hs. injection Hs as ->.
    destruct (0 <=? e)%Z eqn:He.
    + exfalso. apply Z.leb_le in He.
      pose proof (valid_large false m e Hvalid He) as Hbig. simpl in Hle.
      assert (bpow 52 = IZR (2 ^ 52)) as H52 by (apply bpow_IZR; clear; lia).
      rewrite H52 in Hbig.
      assert (IZR (2 ^ 52) > 10001) by (apply IZR_lt; reflexivity). lra.
    + apply Z.leb_gt in He. simpl in Hle. simpl SF2R.
      set (d := (2 ^ (- e))%Z).
      assert (0 < d)%Z as Hd by (apply Z.pow_pos_nonneg; clear -He; lia).
      assert (bpow e = / IZR d) as Hbe.
      { unfold d. rewrite <- bpow_IZR by (clear -He; lia).
        rewrite bpow_neg, Rinv_inv. reflexivity. }
      rewrite Hbe in *.
      assert (0 < Z.pos m)%Z as Hm by reflexivity.
      change ((2 * Z.pos m + 2 ^ (- e)) / (2 * 2 ^ (- e)))%Z
        with ((2 * Z.pos m + d) / (2 * d))%Z.
      set (zm := Z.pos m) in *.
      set (n := ((2 * zm + d) / (2 * d))%Z).
      assert (2 * d * n <= 2 * zm + d)%Z as Hn1
        by (apply Z.mul_div_le; clear -Hd; lia).
      assert (2 * zm + d < 2 * d * (n + 1))%Z as Hn2.
      { pose proof (Z.mul_succ_div_gt (2 * zm + d) (2 * d) ltac:(clear -Hd; lia)) as H.
        fold n in H. clear -H. lia. }
      apply IZR_le in Hn1. apply IZR_lt in Hn2.
      rewrite plus_IZR, !mult_IZR in Hn1.
      rewrite !mult_IZR, !plus_IZR, mult_IZR in Hn2.
      assert (0 < IZR d) as HdR by (apply IZR_lt; assumption).
      assert (0 < IZR zm) as HmR by (apply IZR_lt; assumption).
      set (D := IZR d) in *. set (M := IZR zm) in *. set (N := IZR n) in *.
      assert (M * / D = M / D) as Hdiv by reflexivity.
      assert (N - / 2 <= M / D < N + / 2) as Hbound.
      { assert (M = (M / D) * D) as Hq by (field; lra).
        set (q := M / D) in *.
        split.
        - apply Rmult_le_reg_r with D; [assumption|]. lra.
        - apply Rmult_lt_reg_r with D; [assumption|]. lra. }
      exists n. split; [|split].
      * assert (0 < M / D) as Hq0 by (apply Rdiv_lt_0_compat; assumption).
        rewrite Hdiv in Hle.
        assert (- 1 < N < 10001) as HN by lra.
        destruct HN as [HN1 HN2]. unfold N in *.
        apply lt_IZR in HN1, HN2. clear -HN1 HN2. lia.
      * reflexivity.
      * apply Rabs_le. fold N. rewrite Hdiv. lra.
Qed.

(** The constants of the conversions. *)

Lemma const_spec (c : float) (q : Q) (r : R) :
  Js.value c = Some q -> Q2R q = r ->
  SFsign (Prim2SF c) = Some false ->
  SFfinite (Prim2SF c) = true
  /\ SFsign (Prim2SF c) = Some false
  /\ SF2R (Prim2SF c) = r.
Proof.
  intros Hv Hq Hs. destruct (value_SF2R c q Hv) as [Hf Hr].
  split; [assumption|]. split; [assumption|]. congruence.
Qed.

Lemma const_10000 :
  SFfinite (Prim2SF 10000%float) = true
  /\ SFsign (Prim2SF 10000%float) = Some false
  /\ SF2R (Prim2SF 10000%float) = 10000.
Proof.
  apply (const_spec 10000%float (5497558138880000 # 549755813888)).
  - vm_compute. reflexivity.
  - unfold Q2R. simpl. lra.
  - reflexivity.
Qed.

Lemma const_5000 :
  SFfinite (Prim2SF 5000%float) = true
  /\ SFsign (Prim2SF 5000%float) = Some false
  /\ SF2R (Prim2SF 5000%float) = 5000.
Proof.
  eapply const_spec.
  - vm_compute. reflexivity.
  - unfold Q2R. simpl. lra.
  - reflexivity.
Qed.

Lemma const_1 :
  SFfinite (Prim2SF 1%float) = true
  /\ SFsign (Prim2SF 1%float) = Some false
  /\ SF2R (Prim2SF 1%float) = 1.
Proof.
  eapply const_spec.
  - vm_compute. reflexivity.
  - unfold Q2R. simpl. lra.
  - reflexivity.
Qed.

(** Bounds on the small constants. *)
Lemma bpow_m50_le : bpow (-50) <= / 1000000000000000.
Proof.
  replace (-50)%Z with (- (50))%Z by reflexivity. rewrite bpow_neg.
  rewrite bpow_IZR by lia.
  apply Rinv_le_contravar; [lra|]. apply IZR_le. apply Z.leb_le. reflexivity.
Qed.

Lemma bpow_m1073_le : bpow (-1073) <= / 1000000000000000000000.
Proof.
  apply Rle_trans with (bpow (-80)); [apply bpow_le; lia|].
  replace (-80)%Z with (- (80))%Z by reflexivity. rewrite bpow_neg.
  rewrite bpow_IZR by lia.
  apply Rinv_le_contravar; [lra|]. apply IZR_le. apply Z.leb_le. reflexivity.
Qed.

Lemma bpow_100_ge : 100000 <= bpow 100.
Proof.
  rewrite bpow_IZR by lia. apply IZR_le. apply Z.leb_le. reflexivity.
Qed.

Lemma SFsign_nonneg z : SFsign z = Some false -> 0 <= SF2R z.
Proof.
  destruct z as [s|s| |s m e]; simpl; try discriminate; intros [= ->]; [lra|].
  simpl. pose proof (bpow_pos e). assert (0 < IZR (Z.pos m)) by (apply IZR_lt; reflexivity).
  nra.
Qed.

(** *** The forward conversions

    [sentimentToBps]: on a sentiment of the range the result is the number of
    an integer between 0 and 10000, within [1/2 + 10^-10] of
    [5000 * (s + 1)]. *)
Lemma sentimentToBps_spec (s : float) (qs : Q) :
  Js.value s = Some qs -> -1 <= Q2R qs <= 1 ->
  exists n : Z,
    (0 <= n <= 10000)%Z
    /\ sentimentToBps s = Js.of_integer n false
    /\ Rabs (IZR n - 5000 * (Q2R qs + 1)) <= / 2 + / 10000000000.
Proof.
  intros Hv Hrange.
  destruct (value_SF2R s qs Hv) as [Hfs Hrs].
  destruct const_1 as (Hf1 & Hs1 & Hr1).
  destruct const_5000 as (Hf5 & Hs5 & Hr5).
  pose proof bpow_m50_le as Hu. pose proof bpow_m1073_le as Heta.
  pose proof (bpow_pos (-50)) as Hu0. pose proof (bpow_pos (-1073)) as Heta0.
  pose proof bpow_100_ge as H100.
  set (u := bpow (-50)) in *. set (eta := bpow (-1073)) in *.
  set (t := Q2R qs + 1).
  assert (0 <= t <= 2) as Ht by (unfold t; lra).
  (* the sum *)
  pose proof (add_spec s 1%float) as Hadd. unfold SF64add in Hadd.
  assert (SF2R (Prim2SF s) + SF2R (Prim2SF 1%float) = t) as Hsum
    by (rewrite Hrs, Hr1; reflexivity).
  destruct (SFadd_spec (Prim2SF s) (Prim2SF 1%float) Hfs Hf1) as (HfA & HsA & HeA).
  { rewrite Hsum, Rabs_right; lra. }
  rewrite <- Hadd in HfA, HsA, HeA. rewrite Hsum in HsA, HeA.
  specialize (HsA ltac:(lra) Hs1).
  pose proof (SFsign_nonneg _ HsA) as HA0.
  set (a := SF2R (Prim2SF (s + 1)%float)) in *.
  rewrite (Rabs_right t) in HeA by lra. fold u eta in HeA.
  apply Rabs_le_inv in HeA.
  assert (t * u <= 2 * u) as Htu by nra.
  assert (a <= 21 / 10) as Ha by lra.
  (* the product *)
  pose proof (mul_spec (s + 1)%float 5000%float) as Hmul. unfold SF64mul in Hmul.
  destruct (SFmul_spec (Prim2SF (s + 1)%float) (Prim2SF 5000%float) HfA Hf5)
    as (HfB & HsB & HeB).
  { fold a. rewrite Hr5, Rabs_right; lra. }
  rewrite <- Hmul in HfB, HsB, HeB. fold a in HeB. rewrite Hr5 in HeB.
  specialize (HsB HsA Hs5).
  set (b := SF2R (Prim2SF ((s + 1) * 5000)%float)) in *.
  rewrite (Rabs_right (a * 5000)) in HeB by lra. fold u eta in HeB.
  apply Rabs_le_inv in HeB.
  assert (a * u <= 21 / 10 * u) as Hau by nra.
  assert (Rabs (b - 5000 * t) <= / 10000000000) as Hb.
  { apply Rabs_le. lra. }
  apply Rabs_le_inv in Hb.
  (* rounding *)
  destruct (Math_round_small ((s + 1) * 5000)%float HfB HsB) as (n & Hn & Hround & Herr).
  { fold b. lra. }
  exists n. split; [assumption|]. split; [exact Hround|].
  fold b in Herr. apply Rabs_le_inv in Herr. apply Rabs_le. fold t. lra.
Qed.

Lemma SF2Prim_zero_true_value :
  Js.value (bpsToProb (SF2Prim (S754_zero true))) = Some 0%Q.
Proof. vm_compute. reflexivity. Qed.

(** [probToBps]: likewise, within [1/2 + 10^-10] of [10000 * p]; the
    probability [-0] gives [-0]. *)
Lemma probToBps_spec (p : float) (qp : Q) :
  Js.value p = Some qp -> 0 <= Q2R qp <= 1 ->
  (exists n : Z,
     (0 <= n <= 10000)%Z
     /\ probToBps p = Js.of_integer n false
     /\ Rabs (IZR n - 10000 * Q2R qp) <= / 2 + / 10000000000)
  \/ (probToBps p = SF2Prim (S754_zero true) /\ Q2R qp = 0).
Proof.
  intros Hv Hrange.
  destruct (value_SF2R p qp Hv) as [Hfp Hrp].
  destruct const_10000 as (Hfc & Hsc & Hrc).
  pose proof bpow_m50_le as Hu. pose proof bpow_m1073_le as Heta.
  pose proof (bpow_pos (-50)) as Hu0. pose proof (bpow_pos (-1073)) as Heta0.
  pose proof bpow_100_ge as H100.
  set (u := bpow (-50)) in *. set (eta := bpow (-1073)) in *.
  set (t := Q2R qp) in *.
  pose proof (mul_spec p 10000%float) as Hmul. unfold SF64mul in Hmul.
  assert (SFsign (Prim2SF p) = Some false
          \/ Prim2SF p = S754_zero true) as [Hsp|Hneg].
  { destruct (Prim2SF p) as [sp|sp| |sp m e] eqn:HP; try discriminate.
    - destruct sp; [right|left]; reflexivity.
    - left. simpl. f_equal. apply (SF2R_finite_sign sp m e). rewrite Hrp. lra. }
  - left.
    destruct (SFmul_spec (Prim2SF p) (Prim2SF 10000%float) Hfp Hfc) as (HfB & HsB & HeB).
    { rewrite Hrp, Hrc, Rabs_right; lra. }
    rewrite <- Hmul in HfB, HsB, HeB. rewrite Hrp, Hrc in HeB.
    specialize (HsB Hsp Hsc).
    set (b := SF2R (Prim2SF (p * 10000)%float)) in *.
    rewrite (Rabs_right (t * 10000)) in HeB by lra. fold u eta in HeB.
    apply Rabs_le_inv in HeB.
    assert (t * u <= u) as Htu by nra.
    destruct (Math_round_small (p * 10000)%float HfB HsB) as (n & Hn & Hround & Herr).
    { fold b. lra. }
    exists n. split; [assumption|]. split; [exact Hround|].
    fold b in Herr. apply Rabs_le_inv in Herr. apply Rabs_le. lra.
  - right. split.
    + unfold probToBps, Js.Math_round.
      assert (Prim2SF (p * 10000)%float = S754_zero true) as HB
        by (rewrite Hmul, Hneg; reflexivity).
      rewrite HB. rewrite <- (SF2Prim_Prim2SF (p * 10000)%float), HB. reflexivity.
    + rewrite <- Hrp, Hneg. reflexivity.
Qed.

(** *** The inverse conversions

    [bpsToProb] and [bpsToSentiment] of each integer between 0 and 10000 are
    within [10^-15] of the exact quotient: checked on all 10001 of them. *)

Lemma integers_spec (n : Z) : (0 <= n <= 10000)%Z -> In n integers.
Proof.
  intros H. unfold integers. apply in_map_iff. exists (Z.to_nat n).
  split; [apply Z2Nat.id; lia|]. apply in_seq.
  split; [lia|]. rewrite Nat.add_0_l. apply Z2Nat.inj_lt; lia.
Qed.

Lemma bpsToProb_table :
  forallb (fun n => close_to (bpsToProb (Js.of_integer n false)) (inject_Z n / 10000))
          integers = true.
Proof. vm_compute. reflexivity. Qed.

Lemma bpsToSentiment_table :
  forallb (fun n => close_to (bpsToSentiment (Js.of_integer n false))
                      (inject_Z n / 5000 - 1))
          integers = true.
Proof. vm_compute. reflexivity. Qed.

End Rounding.

(** *** The round trips *)

Lemma Q2R_inject_Z (n : Z) : Q2R (inject_Z n) = IZR n.
Proof. unfold Q2R. simpl. rewrite Rinv_1. ring. Qed.

Lemma Rabs_Q2R_le (a b : Q) : (Rabs (Q2R a) <= Q2R b)%R -> (Qabs a <= b)%Q.
Proof.
  intros H. apply Rabs_le_inv in H. destruct H as [H1 H2].
  apply Qabs_Qle_condition. split; apply Rle_Qle.
  - rewrite Q2R_opp. exact H1.
  - exact H2.
Qed.

Lemma table_use (f : float -> float) (g : Z -> Q) (n : Z) :
  forallb (fun n => close_to (f (Js.of_integer n false)) (g n)) integers = true ->
  (0 <= n <= 10000)%Z ->
  exists v, Js.value (f (Js.of_integer n false)) = Some v
            /\ (Qabs (v - g n) <= 1 # 1000000000000000)%Q.
Proof.
  intros Htable Hn. rewrite forallb_forall in Htable.
  specialize (Htable n (integers_spec n Hn)). unfold close_to in Htable.
  destruct (Js.value (f (Js.of_integer n false))) as [v|]; [|discriminate].
  exists v. split; [reflexivity|]. apply Qle_bool_iff. exact Htable.
Qed.

(** C9, amended, on the numbers of the program: for every binary64
    probability [p] whose value lies in [[0,1]] and every binary64 sentiment
    [s] whose value lies in [[-1,1]], both round trips return a finite number;
    the probability lands within [1/10000] of [p], and the sentiment within
    [1/10000 + 1/10^13] of [s].  Distances are taken between exact values. *)
Theorem round_trip_within_tolerance (p s : Js.number) (qp qs : Q) :
  Js.value p = Some qp -> Js.value s = Some qs ->
  (0 <= qp)%Q -> (qp <= 1)%Q -> (-1 <= qs)%Q -> (qs <= 1)%Q ->
  exists dp ds : Q,
    distance (bpsToProb (probToBps p)) p = Some dp
    /\ (dp <= 1 # 10000)%Q
    /\ distance (bpsToSentiment (sentimentToBps s)) s = Some ds
    /\ (ds <= (1 # 10000) + (1 # 10000000000000))%Q.
Proof.
  intros Hvp Hvs Hp0 Hp1 Hs0 Hs1.
  assert (0 <= Q2R qp <= 1)%R as HpR.
  { split; [replace 0%R with (Q2R 0) by (unfold Q2R; simpl; lra)
           |replace 1%R with (Q2R 1) by (unfold Q2R; simpl; lra)];
      apply Qle_Rle; assumption. }
  assert (-1 <= Q2R qs <= 1)%R as HsR.
  { split; [replace (-1)%R with (Q2R (-1)) by (unfold Q2R; simpl; lra)
           |replace 1%R with (Q2R 1) by (unfold Q2R; simpl; lra)];
      apply Qle_Rle; assumption. }
  (* probability *)
  assert (exists dp, distance (bpsToProb (probToBps p)) p = Some dp
                     /\ (dp <= 1 # 10000)%Q) as (dp & Hdp & Hdp').
  { destruct (probToBps_spec p qp Hvp HpR) as [(n & Hn & Hbps & Herr)|[Hbps Hzero]].
    - destruct (table_use bpsToProb (fun n => inject_Z n / 10000)%Q n bpsToProb_table Hn)
        as (v & Hv & Hclose).
      unfold distance. rewrite Hbps, Hv, Hvp. eexists. split; [reflexivity|].
      assert (Qabs (inject_Z n - 10000 * qp) <= (1 # 2) + (1 # 10000000000))%Q as HerrQ.
      { apply Rabs_Q2R_le.
        replace (Q2R (inject_Z n - 10000 * qp)) with (IZR n - 10000 * Q2R qp)%R
          by (rewrite Q2R_minus, Q2R_mult, Q2R_inject_Z; unfold Q2R; simpl; lra).
        replace (Q2R ((1 # 2) + (1 # 10000000000))) with (/ 2 + / 10000000000)%R
          by (rewrite Q2R_plus; unfold Q2R; simpl; lra).
        exact Herr. }
      apply Qabs_Qle_condition in HerrQ. apply Qabs_Qle_condition in Hclose.
      apply Qabs_Qle_condition.
      assert (inject_Z n / 10000 == inject_Z n * (1 # 10000))%Q as Hdiv by field.
      rewrite Hdiv in Hclose. split; lra.
    - unfold distance. rewrite Hbps, SF2Prim_zero_true_value, Hvp.
      eexists. split; [reflexivity|].
      assert (qp == 0)%Q as Hq.
      { apply eqR_Qeq. rewrite Hzero. unfold Q2R. simpl. lra. }
      apply Qabs_Qle_condition. split; lra. }
  (* sentiment *)
  destruct (sentimentToBps_spec s qs Hvs HsR) as (n & Hn & Hbps & Herr).
  destruct (table_use bpsToSentiment (fun n => inject_Z n / 5000 - 1)%Q n
              bpsToSentiment_table Hn) as (v & Hv & Hclose).
  exists dp. eexists. split; [exact Hdp|]. split; [exact Hdp'|].
  unfold distance. rewrite Hbps, Hv, Hvs. split; [reflexivity|].
  assert (Qabs (inject_Z n - 5000 * (qs + 1)) <= (1 # 2) + (1 # 10000000000))%Q as HerrQ.
  { apply Rabs_Q2R_le.
    replace (Q2R (inject_Z n - 5000 * (qs + 1))) with (IZR n - 5000 * (Q2R qs + 1))%R
      by (rewrite Q2R_minus, Q2R_mult, Q2R_plus, Q2R_inject_Z; unfold Q2R; simpl; lra).
    replace (Q2R ((1 # 2) + (1 # 10000000000))) with (/ 2 + / 10000000000)%R
      by (rewrite Q2R_plus; unfold Q2R; simpl; lra).
    exact Herr. }
  apply Qabs_Qle_condition in HerrQ. apply Qabs_Qle_condition in Hclose.
  apply Qabs_Qle_condition.
  assert (inject_Z n / 5000 == inject_Z n * (1 # 5000))%Q as Hdiv by field.
  rewrite Hdiv in Hclose. split; lra.
Qed.

Lemma round_trip_within_tolerance_witness :
  exists dp ds : Q,
    distance (bpsToProb (probToBps 0.6)) 0.6 = Some dp
    /\ (dp <= 1 # 10000)%Q
    /\ distance (bpsToSentiment (sentimentToBps (-0.7367))) (-0.7367) = Some ds
    /\ (ds <= (1 # 10000) + (1 # 10000000000000))%Q.
Proof.
  apply (round_trip_within_tolerance 0.6%float (-0.7367)%float
           (5404319552844595 # 9007199254740992)
           (-6635603690967689 # 9007199254740992));
    solve [reflexivity | vm_compute; discriminate].
Defined.

(** ** Firing eligibility *)

Lemma shouldExecuteStrategy_world (E : Env) (w : World E) id s :
  (shouldExecuteStrategy E w (id, s)).1
  = emit E (emit E w (MarketSnapshotLookup id (marketId s)))
      (SentimentSnapshotLookup id (sentimentTag s)).
Proof.
  unfold shouldExecuteStrategy. simpl.
  destruct (latestMarketSnapshot (db w) (marketId s));
    destruct (latestSentimentSnapshot (db w) (sentimentTag s)); reflexivity.
Qed.

Lemma shouldExecuteStrategy_found (E : Env) (w : World E) id s m t :
  latestMarketSnapshot (db w) (marketId s) = Some m ->
  latestSentimentSnapshot (db w) (sentimentTag s) = Some t ->
  Decision.shouldExecute (shouldExecuteStrategy E w (id, s)).2
  = Js.ge (ms_probability m) (minPredictionProb s)
    && Js.ge (ss_score t) (minSentimentScore s)
  /\ Decision.probability (shouldExecuteStrategy E w (id, s)).2 = ms_probability m
  /\ Decision.sentiment (shouldExecuteStrategy E w (id, s)).2 = ss_score t.
Proof.
  intros Hm Ht. unfold shouldExecuteStrategy. simpl. rewrite Hm, Ht. auto.
Qed.

Lemma shouldExecuteStrategy_missing (E : Env) (w : World E) id s :
  latestMarketSnapshot (db w) (marketId s) = None
  \/ latestSentimentSnapshot (db w) (sentimentTag s) = None ->
  Decision.shouldExecute (shouldExecuteStrategy E w (id, s)).2 = false.
Proof.
  unfold shouldExecuteStrategy. simpl.
  intros [-> | ->]; [|destruct (latestMarketSnapshot _ _)]; reflexivity.
Qed.

(** C1: with both latest snapshots present, the engine's decision is true
    exactly when the probability reaches [minPredictionProb] and the score
    reaches [minSentimentScore]; thresholds 0.5 and 0.0 accept probability
    0.6 with sentiment 0.1, and reject probability 0.4 whatever the
    sentiment. *)
Theorem eligibility_decision (E : Env) (w : World E) (id : string) (s : Strategy)
    (m : MarketSnapshot) (t : SentimentSnapshot) :
  latestMarketSnapshot (db w) (marketId s) = Some m ->
  latestSentimentSnapshot (db w) (sentimentTag s) = Some t ->
  let decision := (shouldExecuteStrategy E w (id, s)).2 in
  (Decision.shouldExecute decision = true
   <-> Js.ge (ms_probability m) (minPredictionProb s) = true
       /\ Js.ge (ss_score t) (minSentimentScore s) = true)
  /\ (minPredictionProb s = 0.5%float -> minSentimentScore s = 0.0%float ->
      ms_probability m = 0.6%float -> ss_score t = 0.1%float ->
      Decision.shouldExecute decision = true)
  /\ (minPredictionProb s = 0.5%float -> minSentimentScore s = 0.0%float ->
      ms_probability m = 0.4%float ->
      Decision.shouldExecute decision = false).
Proof.
  intros Hm Ht decision.
  destruct (shouldExecuteStrategy_found E w id s m t Hm Ht) as (Hd & _ & _).
  fold decision in Hd. rewrite Hd. split; [|split].
  - apply andb_true_iff.
  - intros -> -> -> ->. vm_compute. reflexivity.
  - intros -> _ -> . reflexivity.
Qed.

Lemma eligibility_decision_witness :
  let w := sample_world unconfigured Move.genesis 0.6%float 0.1%float 5000 2000 in
  Decision.shouldExecute
    (shouldExecuteStrategy unconfigured w ("s1", sample_strategy 5000)).2 = true.
Proof.
  intros w.
  refine (proj1 (proj2 (eligibility_decision unconfigured w "s1" (sample_strategy 5000)
            {| ms_marketId := "CRYPTO_BTC"; ms_timestamp := 1000;
               ms_probability := 0.6%float |}
            {| ss_tag := "CRYPTO"; ss_timestamp := 900; ss_score := 0.1%float |}
            _ _)) _ _ _ _); reflexivity.
Defined.

(** ** Sorting and selection *)

Section Sorting.

Context {A : Type} (le : A -> A -> bool).

Lemma insert_by_Permutation x l : insert_by le x l ≡ₚ x :: l.
Proof.
  induction l as [|y l IH]; simpl; [done|].
  destruct (le x y); [done|]. rewrite IH. apply Permutation_swap.
Qed.

Lemma sort_by_Permutation l : sort_by le l ≡ₚ l.
Proof.
  induction l as [|x l IH]; simpl; [done|].
  rewrite insert_by_Permutation. by rewrite IH.
Qed.

Lemma elem_of_sort_by x l : x ∈ sort_by le l <-> x ∈ l.
Proof. by rewrite sort_by_Permutation. Qed.

Hypothesis le_total : forall a b, le a b = true \/ le b a = true.
Hypothesis le_trans : forall a b c, le a b = true -> le b c = true -> le a c = true.

Lemma insert_by_sorted x l :
  StronglySorted (fun a b => le a b = true) l ->
  StronglySorted (fun a b => le a b = true) (insert_by le x l).
Proof.
  induction 1 as [|y l Hl IH Hy]; simpl.
  - repeat constructor.
  - destruct (le x y) eqn:Hxy.
    + constructor; [by constructor|].
      constructor; [done|].
      eapply Forall_impl; [exact Hy|]. intros z Hz. by eapply le_trans.
    + constructor; [done|].
      rewrite Forall_forall. intros z Hz.
      rewrite insert_by_Permutation in Hz.
      apply elem_of_cons in Hz as [->|Hz].
      * destruct (le_total x y) as [H|H]; [congruence|done].
      * rewrite Forall_forall in Hy. by apply Hy.
Qed.

Lemma sort_by_sorted l : StronglySorted (fun a b => le a b = true) (sort_by le l).
Proof.
  induction l as [|x l IH]; simpl; [constructor|]. by apply insert_by_sorted.
Qed.

(** The first row of a sorted table stands before every row. *)
Lemma head_sort_by l x :
  head (sort_by le l) = Some x ->
  x ∈ l /\ forall y, y ∈ l -> le x y = true.
Proof.
  intros H. pose proof (sort_by_sorted l) as Hs.
  apply head_Some in H as [l' Hl'].
  split.
  - apply elem_of_sort_by. rewrite Hl'. left.
  - intros y Hy. apply elem_of_sort_by in Hy. rewrite Hl' in Hy, Hs.
    apply StronglySorted_inv in Hs as [_ Hall].
    apply elem_of_cons in Hy as [->|Hy].
    + destruct (le_total x x); done.
    + rewrite Forall_forall in Hall. by apply Hall.
Qed.

Lemma head_sort_by_None l : head (sort_by le l) = None <-> l = [].
Proof.
  split; [|by intros ->].
  intros H. destruct (sort_by le l) as [|y k] eqn:Hk; [|done].
  symmetry. apply Permutation_nil_l. rewrite <- Hk. apply sort_by_Permutation.
Qed.

End Sorting.

Lemma Zleb_total (k : Z) (a b : Z) : (a <=? b)%Z = true \/ (b <=? a)%Z = true.
Proof. lia. Qed.

Lemma omap_sorted {A B} (ka : A -> Z) (kb : B -> Z) (f : A -> option B) (l : list A) :
  (forall a b, f a = Some b -> kb b = ka a) ->
  StronglySorted (fun x y => (ka x <=? ka y)%Z = true) l ->
  StronglySorted Z.le (kb <$> omap f l).
Proof.
  intros Hf. induction 1 as [|x l Hl IH Hx]; simpl; [constructor|].
  destruct (f x) as [b|] eqn:Hb; [|done].
  simpl. constructor; [done|].
  rewrite Forall_forall. intros z Hz.
  apply list_elem_of_fmap in Hz as (b' & -> & Hb').
  apply list_elem_of_omap in Hb' as (a' & Ha' & Hfa').
  rewrite (Hf _ _ Hb), (Hf _ _ Hfa').
  rewrite Forall_forall in Hx. specialize (Hx _ Ha'). lia.
Qed.

(** ** Backtest *)

Lemma paired_sentiment_Some sents m t :
  paired_sentiment sents m = Some t ->
  t ∈ sents /\ (ss_timestamp t <= ms_timestamp m)%Z
  /\ forall t', t' ∈ sents -> (ss_timestamp t' <= ms_timestamp m)%Z ->
                (ss_timestamp t' <= ss_timestamp t)%Z.
Proof.
  unfold paired_sentiment. intros H.
  apply head_sort_by in H as [Hin Hmax]; [|intros; lia|intros; lia].
  apply list_elem_of_filter in Hin as [Hle Hin].
  split; [done|]. split; [done|].
  intros t' Ht' Hle'.
  assert (t' ∈ filter (fun t => (ss_timestamp t <= ms_timestamp m)%Z) sents) as Hf
    by (apply list_elem_of_filter; done).
  specialize (Hmax _ Hf). lia.
Qed.

Lemma paired_sentiment_is_Some sents m :
  is_Some (paired_sentiment sents m)
  <-> Exists (fun t => (ss_timestamp t <= ms_timestamp m)%Z) sents.
Proof.
  unfold paired_sentiment. rewrite Exists_exists. split.
  - intros [t Ht].
    apply head_sort_by in Ht as [Hin _]; [|intros; lia|intros; lia].
    apply list_elem_of_filter in Hin as [Hle Hin]. eauto.
  - intros (t & Hin & Hle).
    destruct (head _) as [x|] eqn:Hh; [eauto|].
    apply head_sort_by_None in Hh.
    assert (t ∈ filter (fun t => (ss_timestamp t <= ms_timestamp m)%Z) sents) as Hf
      by (apply list_elem_of_filter; done).
    rewrite Hh in Hf. by apply elem_of_nil in Hf.
Qed.

Lemma paired_sentiment_perm sents sents' m :
  (forall t, t ∈ sents <-> t ∈ sents') ->
  is_Some (paired_sentiment sents m) <-> is_Some (paired_sentiment sents' m).
Proof.
  intros H. rewrite !paired_sentiment_is_Some, !Exists_exists.
  split; intros (t & Hin & Hle); exists t; (split; [by apply H|done]).
Qed.

Lemma simulate_fold s sents ms pts n :
  foldl (simulateStep s sents) (pts, n) ms
  = (pts ++ omap (fun m => point_at s m <$> paired_sentiment sents m) ms,
     n + length (filter (fun p => Point.wouldExecute p = true)
                   (omap (fun m => point_at s m <$> paired_sentiment sents m) ms))).
Proof.
  revert pts n. induction ms as [|m ms IH]; intros pts n; simpl.
  - by rewrite app_nil_r, Nat.add_0_r.
  - destruct (paired_sentiment sents m) as [t|] eqn:Ht; simpl.
    + rewrite IH, <- app_assoc. simpl. f_equal.
      rewrite filter_cons.
      destruct (Point.wouldExecute (point_at s m t)) eqn:Hw.
      * rewrite decide_True by done. simpl in *. rewrite Hw.
        rewrite <- plus_n_Sm. reflexivity.
      * rewrite decide_False by done. simpl in *. rewrite Hw. reflexivity.
    + apply IH.
Qed.

Lemma simulate_points d now s fromTimestamp toTimestamp :
  let to := default now toTimestamp in
  let from := default (to - seven_days)%Z fromTimestamp in
  simulateStrategyExecution d now s fromTimestamp toTimestamp
  = (omap (fun m => point_at s m
                      <$> paired_sentiment (simulated_sentiments d s from to) m)
          (simulated_markets d s from to),
     length (filter (fun p => Point.wouldExecute p = true)
               (omap (fun m => point_at s m
                        <$> paired_sentiment (simulated_sentiments d s from to) m)
                     (simulated_markets d s from to)))).
Proof. intros to from. unfold simulateStrategyExecution. by rewrite simulate_fold. Qed.

Lemma simulated_point_predicate d now s fromTimestamp toTimestamp pt :
  pt ∈ (simulateStrategyExecution d now s fromTimestamp toTimestamp).1 ->
  Point.wouldExecute pt
  = Js.ge (Point.probability pt) (minPredictionProb s)
    && Js.ge (Point.sentiment pt) (minSentimentScore s).
Proof.
  rewrite simulate_points. simpl. intros H.
  apply list_elem_of_omap in H as (m & _ & Hm).
  destruct (paired_sentiment _ m) as [t|]; [|done].
  simpl in Hm. injection Hm as <-. reflexivity.
Qed.

Lemma filter_fmap_length {A B} (f : A -> B) (P : B -> Prop)
    `{forall b, Decision (P b)} (l : list A) :
  length (filter P (f <$> l)) = length (filter (fun a => P (f a)) l).
Proof.
  induction l as [|a l IH]; [done|].
  rewrite fmap_cons, !filter_cons.
  destruct (decide (P (f a))); cbn [length]; by rewrite IH.
Qed.

(** C7: the backtest returns one point per market snapshot of the range that
    a sentiment snapshot of the range precedes (or coincides with), paired
    with the latest such sentiment snapshot; other market snapshots yield
    nothing.  A point carries the time and the probability of its market
    snapshot, the score of the paired sentiment snapshot, and the flag that
    compares the two with the strategy's thresholds; points come by ascending
    market time, and [totalExecutions] counts the pairs that meet both
    thresholds. *)
Theorem backtest_points (d : Database) (now : Z) (s : Strategy)
    (fromTimestamp toTimestamp : option Z) :
  let to := default now toTimestamp in
  let from := default (to - seven_days)%Z fromTimestamp in
  let markets :=
    filter (fun m => ms_marketId m = marketId s
                     /\ (from <= ms_timestamp m)%Z /\ (ms_timestamp m <= to)%Z)
           (marketSnapshot d) in
  let sentiments :=
    filter (fun t => ss_tag t = sentimentTag s
                     /\ (from <= ss_timestamp t)%Z /\ (ss_timestamp t <= to)%Z)
           (sentimentSnapshot d) in
  let preceded (m : MarketSnapshot) :=
    Exists (fun t => (ss_timestamp t <= ms_timestamp m)%Z) sentiments in
  let result := simulateStrategyExecution d now s fromTimestamp toTimestamp in
  exists pairs : list (MarketSnapshot * SentimentSnapshot),
    pairs.*1 ≡ₚ filter preceded markets
    /\ Forall (fun mt =>
         mt.2 ∈ sentiments
         /\ (ss_timestamp mt.2 <= ms_timestamp mt.1)%Z
         /\ forall t', t' ∈ sentiments ->
              (ss_timestamp t' <= ms_timestamp mt.1)%Z ->
              (ss_timestamp t' <= ss_timestamp mt.2)%Z) pairs
    /\ result.1
       = (fun mt =>
            {| Point.timestamp := ms_timestamp mt.1;
               Point.probability := ms_probability mt.1;
               Point.sentiment := ss_score mt.2;
               Point.wouldExecute :=
                 Js.ge (ms_probability mt.1) (minPredictionProb s)
                 && Js.ge (ss_score mt.2) (minSentimentScore s) |}) <$> pairs
    /\ StronglySorted Z.le (ms_timestamp <$> pairs.*1)
    /\ StronglySorted Z.le (Point.timestamp <$> result.1)
    /\ result.2 = length (filter (fun p => Point.wouldExecute p = true) result.1)
    /\ result.2
       = length (filter (fun mt =>
                   Js.ge (ms_probability mt.1) (minPredictionProb s)
                   && Js.ge (ss_score mt.2) (minSentimentScore s) = true) pairs).
Proof.
  intros to from markets sentiments preceded result.
  unfold result. rewrite simulate_points. fold to from. simpl.
  set (sents := simulated_sentiments d s from to).
  set (ms := simulated_markets d s from to).
  assert (forall t, t ∈ sents <-> t ∈ sentiments) as Hsents
    by (intros t; apply elem_of_sort_by).
  assert (ms ≡ₚ markets) as Hms by apply sort_by_Permutation.
  set (pairs := omap (fun m => (fun t => (m, t)) <$> paired_sentiment sents m) ms).
  set (made := fun mt : MarketSnapshot * SentimentSnapshot =>
            {| Point.timestamp := ms_timestamp mt.1;
               Point.probability := ms_probability mt.1;
               Point.sentiment := ss_score mt.2;
               Point.wouldExecute :=
                 Js.ge (ms_probability mt.1) (minPredictionProb s)
                 && Js.ge (ss_score mt.2) (minSentimentScore s) |}).
  assert (omap (fun m => point_at s m <$> paired_sentiment sents m) ms
          = made <$> pairs) as Hpoints.
  { unfold pairs. clear. induction ms as [|m ms IH]; simpl; [done|].
    destruct (paired_sentiment sents m); simpl; [|exact IH].
    exact (f_equal (cons _) IH). }
  exists pairs.
  split; [|split; [|split; [|split; [|split; [|split]]]]].
  - rewrite <- Hms. clear Hms Hpoints. unfold pairs. clear pairs.
    induction ms as [|m ms IH]; simpl; [done|].
    rewrite filter_cons.
    destruct (paired_sentiment sents m) as [t|] eqn:Ht; simpl.
    + rewrite decide_True; [by rewrite IH|].
      apply paired_sentiment_is_Some.
      apply (paired_sentiment_perm sents sentiments m Hsents).
      by rewrite Ht.
    + rewrite decide_False; [done|].
      intros Hp. apply paired_sentiment_is_Some in Hp.
      apply (paired_sentiment_perm sents sentiments m Hsents) in Hp.
      rewrite Ht in Hp. by destruct Hp.
  - rewrite Forall_forall. intros [m t] Hmt. unfold pairs in Hmt.
    apply list_elem_of_omap in Hmt as (m' & _ & Hm').
    destruct (paired_sentiment sents m') as [t'|] eqn:Ht'; [|done].
    simpl in Hm'. injection Hm' as -> ->.
    apply paired_sentiment_Some in Ht' as (Hin & Hle & Hmax). simpl.
    split; [by apply Hsents|]. split; [done|].
    intros t' Hin'. apply Hmax. by apply Hsents.
  - exact Hpoints.
  - rewrite <- list_fmap_compose. unfold pairs. apply (omap_sorted ms_timestamp).
    + intros m p Hp. destruct (paired_sentiment sents m); [|done].
      simpl in Hp. by injection Hp as <-.
    + apply sort_by_sorted; intros; lia.
  - apply (omap_sorted ms_timestamp).
    + intros m p Hp. destruct (paired_sentiment sents m); [|done].
      simpl in Hp. by injection Hp as <-.
    + apply sort_by_sorted; intros; lia.
  - reflexivity.
  - rewrite Hpoints. apply filter_fmap_length.
Qed.

(** C8: on the same thresholds, probability and sentiment, the backtest's
    would-execute flag equals the engine's should-execute flag. *)
Theorem simulator_predicate_matches_engine (E : Env) (w : World E) (id : string)
    (s : Strategy) (m : MarketSnapshot) (t : SentimentSnapshot)
    (d : Database) (now : Z) (fromTimestamp toTimestamp : option Z) (pt : Point.t) :
  latestMarketSnapshot (db w) (marketId s) = Some m ->
  latestSentimentSnapshot (db w) (sentimentTag s) = Some t ->
  pt ∈ (simulateStrategyExecution d now s fromTimestamp toTimestamp).1 ->
  Point.probability pt = ms_probability m ->
  Point.sentiment pt = ss_score t ->
  Point.wouldExecute pt
  = Decision.shouldExecute (shouldExecuteStrategy E w (id, s)).2.
Proof.
  intros Hm Ht Hpt Hp Hs.
  destruct (shouldExecuteStrategy_found E w id s m t Hm Ht) as (-> & _ & _).
  rewrite (simulated_point_predicate _ _ _ _ _ _ Hpt). by rewrite Hp, Hs.
Qed.

Lemma simulator_predicate_matches_engine_witness :
  let w := sample_world unconfigured Move.genesis 0.6%float 0.1%float 5000 2000 in
  let pt := {| Point.timestamp := 1000; Point.probability := 0.6%float;
               Point.sentiment := 0.1%float; Point.wouldExecute := true |} in
  Point.wouldExecute pt
  = Decision.shouldExecute
      (shouldExecuteStrategy unconfigured w ("s1", sample_strategy 5000)).2.
Proof.
  intros w pt.
  apply (simulator_predicate_matches_engine unconfigured w "s1" (sample_strategy 5000)
           {| ms_marketId := "CRYPTO_BTC"; ms_timestamp := 1000;
              ms_probability := 0.6%float |}
           {| ss_tag := "CRYPTO"; ss_timestamp := 900; ss_score := 0.1%float |}
           (db w) 2000 (Some 0%Z) None pt).
  - reflexivity.
  - reflexivity.
  - vm_compute. left.
  - reflexivity.
  - reflexivity.
Defined.

(** ** Values transmitted to the settlement client *)

(** The engine and the manual route send the conversions of the utility
    module. *)
Lemma execution_of_bps id s probability sentiment :
  ep_probBps (execution_of id s probability sentiment) = probToBps probability
  /\ ep_sentimentBps (execution_of id s probability sentiment)
     = sentimentToBps sentiment.
Proof. split; reflexivity. Qed.

(** ** The on-chain module *)

Lemma executed_on_aborts g owner strategy_id m p s :
  executed_on g owner strategy_id ->
  Move.execute_strategy g owner strategy_id m p s
  = Move.Abort Move.E_STRATEGY_ALREADY_EXECUTED.
Proof.
  intros (store & st & Hs & Hst & Hx). unfold Move.execute_strategy.
  by rewrite Hs, Hst, Hx.
Qed.

Lemma executed_on_register g owner strategy_id a i m t p s n b e g' :
  executed_on g owner strategy_id ->
  Move.register_strategy g a i m t p s n b e = Move.Commit g' ->
  executed_on g' owner strategy_id.
Proof.
  intros (store & st & Hs & Hst & Hx). unfold Move.register_strategy.
  case_bool_decide as Hin; [done|]. intros [= <-]. simpl.
  destruct (decide (a = owner)) as [->|Hne].
  - rewrite Hs in *. simpl in *.
    eexists _, st. split; [apply lookup_insert_eq|].
    split; [|done]. rewrite lookup_insert_ne; [done|].
    intros ->. apply Hin. by rewrite Hst.
  - exists store, st. simpl. by rewrite lookup_insert_ne.
Qed.

Lemma executed_on_execute g owner strategy_id a i m p s g' :
  executed_on g owner strategy_id ->
  Move.execute_strategy g a i m p s = Move.Commit g' ->
  executed_on g' owner strategy_id.
Proof.
  intros (store & st & Hs & Hst & Hx). unfold Move.execute_strategy.
  destruct (Move.stores g !! a) as [store'|] eqn:Ha; [|done].
  destruct (store' !! i) as [st'|] eqn:Hi; [|done].
  destruct (Move.executed st') eqn:Hx'; [done|].
  destruct (negb _); [done|]. destruct (negb _); [done|].
  intros [= <-]. simpl.
  destruct (decide (a = owner)) as [->|Hne].
  - assert (store' = store) as -> by congruence.
    assert (i <> strategy_id) by (intros ->; congruence).
    eexists _, st. split; [apply lookup_insert_eq|].
    by rewrite lookup_insert_ne.
  - exists store, st. simpl. by rewrite lookup_insert_ne.
Qed.

Lemma executed_on_after g c owner strategy_id :
  executed_on g owner strategy_id -> executed_on (Move.after g c) owner strategy_id.
Proof.
  intros H. unfold Move.after.
  destruct (Move.run g c) as [g'|code] eqn:Hrun; [|done].
  destruct c; simpl in Hrun.
  - by eapply executed_on_register.
  - by eapply executed_on_execute.
Qed.

Lemma executed_on_foldl calls g owner strategy_id :
  executed_on g owner strategy_id ->
  executed_on (foldl Move.after g calls) owner strategy_id.
Proof.
  revert g. induction calls as [|c calls IH]; intros g H; simpl; [done|].
  apply IH. by apply executed_on_after.
Qed.

Lemma execute_strategy_sets_flag g owner strategy_id m p s g' :
  Move.execute_strategy g owner strategy_id m p s = Move.Commit g' ->
  executed_on g' owner strategy_id.
Proof.
  unfold Move.execute_strategy.
  destruct (Move.stores g !! owner) as [store|] eqn:Ha; [|done].
  destruct (store !! strategy_id) as [st|] eqn:Hi; [|done].
  destruct (Move.executed st); [done|].
  destruct (negb _); [done|]. destruct (negb _); [done|].
  intros [= <-]. eexists _, (Move.mark_executed st).
  split; [apply lookup_insert_eq|]. by rewrite lookup_insert_eq.
Qed.

(** C10: once [execute_strategy] has succeeded for a strategy of an owner,
    the strategy is flagged as executed, and after any further transactions
    every [execute_strategy] for that owner and id aborts with
    [E_STRATEGY_ALREADY_EXECUTED]. *)
Theorem at_most_one_settlement (g g1 : Move.Global) (owner : N)
    (strategy_id market_id : string) (prob_bps sentiment_bps : N) :
  Move.execute_strategy g owner strategy_id market_id prob_bps sentiment_bps
  = Move.Commit g1 ->
  (exists expiry, Move.get_strategy_state g1 owner strategy_id = (true, expiry, true))
  /\ forall (calls : list Move.Call) market_id' prob_bps' sentiment_bps',
       Move.execute_strategy (foldl Move.after g1 calls) owner strategy_id
         market_id' prob_bps' sentiment_bps'
       = Move.Abort Move.E_STRATEGY_ALREADY_EXECUTED.
Proof.
  intros H. apply execute_strategy_sets_flag in H. split.
  - destruct H as (store & st & Hs & Hst & Hx). unfold Move.get_strategy_state.
    rewrite Hs, Hst, Hx. eauto.
  - intros calls m p s. apply executed_on_aborts. by apply executed_on_foldl.
Qed.

Lemma at_most_one_settlement_witness :
  Move.execute_strategy
    (foldl Move.after
       (Move.after registered_once (Move.Execute 7 "s1" "CRYPTO_BTC" 6000 7500))
       [ Move.Register 7 "s1" "CRYPTO_BTC" "CRYPTO" 0 0 50 100 604802;
         Move.Register 8 "s1" "CRYPTO_BTC" "CRYPTO" 0 0 50 100 604802;
         Move.Execute 8 "s1" "CRYPTO_BTC" 1 1 ])
    7 "s1" "CRYPTO_BTC" 9000 9000
  = Move.Abort Move.E_STRATEGY_ALREADY_EXECUTED.
Proof.
  exact (proj2 (at_most_one_settlement registered_once
                  (Move.after registered_once (Move.Execute 7 "s1" "CRYPTO_BTC" 6000 7500))
                  7 "s1" "CRYPTO_BTC" 6000 7500 eq_refl) _ _ _ _).
Defined.

(** ** One evaluation *)

Section Evaluation.

Context (E : Env).

Lemma executeStrategy_skip (w : World E) id s :
  Decision.shouldExecute (shouldExecuteStrategy E w (id, s)).2 = false ->
  executeStrategy E w (id, s)
  = emit E (emit E w (MarketSnapshotLookup id (marketId s)))
      (SentimentSnapshotLookup id (sentimentTag s)).
Proof.
  intros H. unfold executeStrategy.
  pose proof (shouldExecuteStrategy_world E w id s) as Hw.
  destruct (shouldExecuteStrategy E w (id, s)) as [w1 decision].
  simpl in *. by rewrite H.
Qed.

(** The shape of every evaluation that reaches the settlement client. *)
Lemma executeStrategy_fire (w : World E) id s :
  Decision.shouldExecute (shouldExecuteStrategy E w (id, s)).2 = true ->
  let decision := (shouldExecuteStrategy E w (id, s)).2 in
  let params := execution_of id s (Decision.probability decision)
                  (Decision.sentiment decision) in
  let called := executeStrategyViaMCP E (chain w) params in
  let result :=
    match called.2 with
    | Returned r => r
    | Thrown message =>
        {| success := false; txHash := None;
           reason := Some ("Execution error: " +:+ message) |}
    end in
  executeStrategy E w (id, s)
  = {| db :=
         create_log
           (if success result
            then update_strategy (db w) id (set_executed (now w) (txHash result))
            else db w)
           {| log_strategyId := id; log_timestamp := now w;
              log_success := success result; log_txHash := txHash result;
              log_reason := reason result |};
       chain := called.1;
       now := now w;
       events := events w ++ [MarketSnapshotLookup id (marketId s)]
                   ++ [SentimentSnapshotLookup id (sentimentTag s)]
                   ++ [SettlementExecute params] |}.
Proof.
  intros H decision params called result.
  unfold result, called, params, decision. clear result called params decision.
  unfold executeStrategy.
  pose proof (shouldExecuteStrategy_world E w id s) as Hw.
  destruct (shouldExecuteStrategy E w (id, s)) as [w1 decision].
  simpl in *. rewrite H. simpl. subst w1. simpl.
  destruct (executeStrategyViaMCP E (chain w) _) as [c [r|message]]; simpl.
  - destruct (success r) eqn:Hs;
      unfold with_db, with_chain, emit, log_of; simpl; rewrite ?Hs;
      f_equal; by rewrite <- !app_assoc.
  - unfold with_db, with_chain, emit; simpl. f_equal. by rewrite <- !app_assoc.
Qed.

End Evaluation.

Lemma decision_depends_on_snapshots (E : Env) (w w' : World E) strat :
  marketSnapshot (db w) = marketSnapshot (db w') ->
  sentimentSnapshot (db w) = sentimentSnapshot (db w') ->
  (shouldExecuteStrategy E w strat).2 = (shouldExecuteStrategy E w' strat).2.
Proof.
  intros Hm Hs. destruct strat as [id s].
  unfold shouldExecuteStrategy, latestMarketSnapshot, latestSentimentSnapshot.
  cbn [db emit]. rewrite Hm, Hs.
  destruct (head _); [destruct (head _)|]; reflexivity.
Qed.

Lemma last_after_three {A} (l : list A) (a b c : A) :
  last (l ++ [a; b; c]) = Some c.
Proof. change [a; b; c] with ([a; b] ++ [c]). rewrite app_assoc. apply last_snoc. Qed.

Lemma elem_of_activeStrategies (d : Database) id s :
  (id, s) ∈ activeStrategies d <-> strategy d !! id = Some s /\ status s = ACTIVE.
Proof.
  unfold activeStrategies. rewrite list_elem_of_filter, elem_of_map_to_list.
  simpl. tauto.
Qed.

(** What the Aptos client returns as a failure carries a text: the message
    of the error, or its rendering when it has no message. *)
Lemma error_text_nonempty (error : Aptos.ClientError) :
  Aptos.rendering error <> "" -> Aptos.error_text error <> "".
Proof.
  unfold Aptos.error_text, truthy. intros Hr.
  destruct (Aptos.message error) as [text|]; [|exact Hr].
  case_bool_decide as Hempty; [exact Hr|exact Hempty].
Qed.

Lemma client_failure_has_reason (C : Aptos.Client) (fuel : nat) :
  errors_render C ->
  forall (node node' : Aptos.Node C) (paused paused' : Z) functionId typeArgs args
         (result : SubmitResult),
    Aptos.submitEntryFunction C fuel node paused functionId typeArgs args
    = Some (node', paused', Returned result) ->
    sr_success result = false ->
    exists text, sr_error result = Some text /\ text <> "".
Proof.
  intros Hrender. induction fuel as [|fuel IH];
    intros node node' paused paused' functionId typeArgs args result; [discriminate|].
  cbn [Aptos.submitEntryFunction].
  destruct (Aptos.getAdminAccount C) as [admin|text]; [|discriminate].
  destruct (Aptos.attempt C node admin functionId typeArgs args)
    as [node1 [hash|error]] eqn:Hattempt.
  - intros [= <- <- <-]. discriminate.
  - destruct (Aptos.rate_limited error).
    + apply IH.
    + intros [= <- <- <-] _. eexists. split; [reflexivity|].
      apply error_text_nonempty.
      apply (Hrender node admin functionId typeArgs args). by rewrite Hattempt.
Qed.

(** A failure that [executeStrategyViaMCP] returns over the Aptos client has
    no transaction hash and a reason that is not empty. *)
Lemma execute_failure_has_reason (E : Env) (C : Aptos.Client) (c c' : Chain E)
    (params : ExecuteParams) (r : ExecutionResult) :
  client_of E C -> errors_render C ->
  executeStrategyViaMCP E c params = (c', Returned r) ->
  success r = false ->
  txHash r = None /\ exists text, reason r = Some text /\ text <> "".
Proof.
  intros Hclient Hrender. unfold executeStrategyViaMCP.
  destruct (truthy (APTOS_MODULE_ADDRESS E)) as [addr|].
  - destruct (Hclient c (addr +:+ "::" +:+ MODULE_NAME +:+ "::execute_strategy") []
                (execute_args params))
      as (fuel & node & paused & node' & paused' & Hsubmit).
    destruct (submitEntryFunction E c _ [] (execute_args params))
      as [c1 [result|message]]; [|discriminate].
    simpl in Hsubmit. destruct (sr_success result) eqn:Hs.
    + intros [= <- <-]. discriminate.
    + intros [= <- <-] _. split; [reflexivity|]. simpl.
      exact (client_failure_has_reason C fuel Hrender _ _ _ _ _ _ _ _ Hsubmit Hs).
  - intros [= <- <-] _. split; [reflexivity|]. simpl. eexists. split; [reflexivity|].
    discriminate.
Qed.

(** The node of the examples behind the client: its errors are [Error]s whose
    messages name no rate limit. *)
Lemma abort_text_cases (code : N) :
  abort_text code ∈ [ "Move abort: E_STRATEGY_STORE_NOT_FOUND";
                      "Move abort: E_STRATEGY_ALREADY_EXISTS";
                      "Move abort: E_STRATEGY_NOT_FOUND";
                      "Move abort: E_STRATEGY_ALREADY_EXECUTED";
                      "Move abort: E_CONDITIONS_NOT_MET"; "Move abort" ].
Proof.
  unfold abort_text. repeat (destruct (_ =? _)%N; [set_solver|]). set_solver.
Qed.

Lemma node_attempt_error signer module_address g admin functionId typeArgs args error :
  (node_attempt signer module_address g admin functionId typeArgs args).2 = inr error ->
  exists text, error = thrown text /\ Aptos.rate_limited error = false.
Proof.
  assert (forall code, Aptos.rate_limited (thrown (abort_text code)) = false) as Habort.
  { intros code. pose proof (abort_text_cases code) as H.
    repeat (apply elem_of_cons in H as [->|H]; [reflexivity|]).
    by apply elem_of_nil in H. }
  assert (forall g c tx, (submitted g c tx).2 = inr error ->
            exists text, error = thrown text /\ Aptos.rate_limited error = false)
    as Hsubmitted.
  { intros g0 c tx. unfold submitted. destruct (Move.run g0 c) as [g'|code]; simpl;
      [discriminate|]. intros [= <-]. eauto. }
  unfold node_attempt.
  repeat case_bool_decide;
    repeat (match goal with
            | |- context [match ?x with _ => _ end] =>
                lazymatch x with
                | context [submitted] => fail
                | _ => destruct x
                end
            end; simpl);
    try (intros [= <-]; eexists; split; reflexivity);
    try apply Hsubmitted.
Qed.

Lemma aptos_submit_is_the_client signer module_address (fuel : nat) g paused
    functionId typeArgs args :
  let called := aptos_submit signer module_address g functionId typeArgs args in
  Aptos.submitEntryFunction (node_client signer module_address) (S fuel) g paused
    functionId typeArgs args
  = Some (called.1, paused, called.2).
Proof.
  intros called. unfold called, aptos_submit. cbn [Aptos.submitEntryFunction].
  change (Aptos.getAdminAccount (node_client signer module_address))
    with (@Returned string "ad").
  cbv beta iota.
  change (Aptos.attempt (node_client signer module_address))
    with (node_attempt signer module_address).
  destruct (node_attempt signer module_address g "ad" functionId typeArgs args)
    as [g' [hash|error]] eqn:Hattempt; [reflexivity|].
  destruct (node_attempt_error signer module_address g "ad" functionId typeArgs args
              error) as (text & _ & ->); [by rewrite Hattempt|]. reflexivity.
Qed.

Lemma OnChain_client signer module_address :
  client_of (OnChain signer module_address)
    (node_client signer (default "" module_address)).
Proof.
  intros c functionId typeArgs args. exists 1, c, 0%Z.
  eexists _, _. apply aptos_submit_is_the_client.
Qed.

Lemma node_client_renders signer module_address :
  errors_render (node_client signer module_address).
Proof.
  intros node admin functionId typeArgs args error Herror.
  destruct (node_attempt_error signer module_address node admin functionId typeArgs
              args error Herror) as (text & -> & _).
  discriminate.
Qed.

(** C6: when the settlement call for an eligible strategy returns a failure,
    the strategy table is left as it was (status [ACTIVE], [lastExecutedAt]
    and [lastTxHash] untouched), exactly one log entry is appended, with
    [success = false], no transaction hash and the reason of the failure,
    which is not empty: the text of [executeStrategyViaMCP] when the module
    address is not set, and otherwise the message of the error that the Aptos
    client caught, or the rendering of that error when it has no message.
    The strategy is loaded, found eligible and sent to settlement again by
    the next evaluation. *)
Theorem settlement_failure_leaves_active (E : Env) (C : Aptos.Client) (w : World E)
    (id : string) (s : Strategy) (c : Chain E) (r : ExecutionResult) :
  client_of E C -> errors_render C ->
  strategy (db w) !! id = Some s ->
  status s = ACTIVE ->
  let decision := (shouldExecuteStrategy E w (id, s)).2 in
  Decision.shouldExecute decision = true ->
  executeStrategyViaMCP E (chain w)
    (execution_of id s (Decision.probability decision) (Decision.sentiment decision))
  = (c, Returned r) ->
  success r = false ->
  let w' := executeStrategy E w (id, s) in
  strategy (db w') = strategy (db w)
  /\ strategy (db w') !! id = Some s
  /\ status <$> strategy (db w') !! id = Some ACTIVE
  /\ (exists text,
        text <> ""
        /\ executionLog (db w')
           = executionLog (db w)
             ++ [ {| log_strategyId := id; log_timestamp := now w;
                     log_success := false; log_txHash := None;
                     log_reason := Some text |} ]
        /\ logs_of id w'
           = logs_of id w
             ++ [ {| log_strategyId := id; log_timestamp := now w;
                     log_success := false; log_txHash := None;
                     log_reason := Some text |} ]
        /\ reason r = Some text)
  /\ (id, s) ∈ activeStrategies (db w')
  /\ Decision.shouldExecute (shouldExecuteStrategy E w' (id, s)).2 = true
  /\ exists params,
       last (events (executeStrategy E w' (id, s))) = Some (SettlementExecute params)
       /\ ep_strategyId params = id.
Proof.
  intros Hclient Hrender Hrow Hactive decision Heligible Hcall Hfail w'.
  destruct (execute_failure_has_reason E C _ _ _ _ Hclient Hrender Hcall Hfail)
    as (Htx & text & Hreason & Htext).
  pose proof (executeStrategy_fire E w id s Heligible) as Hfire.
  cbv zeta in Hfire. fold decision in Hfire. rewrite Hcall in Hfire. simpl in Hfire.
  rewrite Hfail, Htx, Hreason in Hfire.
  unfold w'. rewrite Hfire. simpl.
  assert (Decision.shouldExecute (shouldExecuteStrategy E w' (id, s)).2 = true) as He'.
  { rewrite <- Heligible. unfold decision. f_equal.
    apply decision_depends_on_snapshots; unfold w'; rewrite Hfire; reflexivity. }
  split; [done|]. split; [done|]. split; [by rewrite Hrow; simpl; rewrite Hactive|].
  split; [|split; [|split]].
  - exists text. split; [done|]. split; [done|]. split; [|done].
    unfold logs_of. simpl. rewrite filter_app, filter_cons, decide_True by done.
    reflexivity.
  - by apply elem_of_activeStrategies.
  - unfold w' in He'. by rewrite Hfire in He'.
  - pose proof (executeStrategy_fire E w' id s He') as Hfire'.
    cbv zeta in Hfire'. unfold w' in Hfire'. rewrite Hfire in Hfire'.
    rewrite Hfire'. simpl. eexists. split.
    + apply last_after_three.
    + reflexivity.
Qed.

Lemma settlement_failure_leaves_active_witness :
  let w := sample_world devnet Move.genesis 0.6%float 0.1%float 5000 2000 in
  let w' := executeStrategy devnet w ("s1", sample_strategy 5000) in
  strategy (db w') = strategy (db w)
  /\ strategy (db w') !! "s1" = Some (sample_strategy 5000)
  /\ status <$> strategy (db w') !! "s1" = Some ACTIVE
  /\ (exists text,
        text <> ""
        /\ executionLog (db w')
           = executionLog (db w)
             ++ [ {| log_strategyId := "s1"; log_timestamp := now w;
                     log_success := false; log_txHash := None;
                     log_reason := Some text |} ]
        /\ logs_of "s1" w'
           = logs_of "s1" w
             ++ [ {| log_strategyId := "s1"; log_timestamp := now w;
                     log_success := false; log_txHash := None;
                     log_reason := Some text |} ]
        /\ Some "Move abort: E_STRATEGY_STORE_NOT_FOUND" = Some text)
  /\ ("s1", sample_strategy 5000) ∈ activeStrategies (db w')
  /\ Decision.shouldExecute
       (shouldExecuteStrategy devnet w' ("s1", sample_strategy 5000)).2 = true
  /\ exists params,
       last (events (executeStrategy devnet w' ("s1", sample_strategy 5000)))
       = Some (SettlementExecute params)
       /\ ep_strategyId params = "s1".
Proof.
  intros w w'.
  apply (settlement_failure_leaves_active devnet (node_client 7 "0xcafe") w "s1"
           (sample_strategy 5000) Move.genesis
           {| success := false; txHash := None;
              reason := Some "Move abort: E_STRATEGY_STORE_NOT_FOUND" |}).
  - apply (OnChain_client 7 (Some "0xcafe")).
  - apply node_client_renders.
  - reflexivity.
  - reflexivity.
  - reflexivity.
  - vm_compute. reflexivity.
  - reflexivity.
Defined.

(** ** Discovery

    The duplicate check is refused by the client of the store, so that a run
    of Discovery ends at the first market for which it is made, with the
    world as it was. *)

Section Discovery.

Context (E : Env).

Lemma existingStrategy_throws (d : Database) market tag :
  existingStrategy d market tag = Thrown invalid_enum_value.
Proof. reflexivity. Qed.

Lemma discoverStep_eq sentiments (w : World E) market :
  discoverStep E sentiments w market
  = (w, if checked sentiments market then Thrown invalid_enum_value
        else Returned tt).
Proof.
  unfold discoverStep, checked.
  destruct (getSentimentTagForMarket (ms_marketId market)) as [tag|]; [|reflexivity].
  destruct (find _ sentiments) as [sentimentData|].
  - rewrite existingStrategy_throws, bool_decide_eq_true_2 by eauto. reflexivity.
  - rewrite bool_decide_eq_false_2; [reflexivity|]. by intros [x Hx].
Qed.

Lemma discoverLoop_eq sentiments markets (w : World E) :
  discoverLoop E sentiments w markets
  = (w, if existsb (checked sentiments) markets then Thrown invalid_enum_value
        else Returned tt).
Proof.
  induction markets as [|m markets IH]; simpl; [reflexivity|].
  rewrite discoverStep_eq. destruct (checked sentiments m); simpl; [reflexivity|].
  exact IH.
Qed.

Lemma discover_eq (w : World E) :
  discoverAndCreateStrategies E w
  = (w, if discovery_checks (db w) (now w) then Thrown invalid_enum_value
        else Returned tt).
Proof. apply discoverLoop_eq. Qed.

Lemma discover_world (w : World E) : (discoverAndCreateStrategies E w).1 = w.
Proof. by rewrite discover_eq. Qed.

Lemma discover_returns (w : World E) :
  (discoverAndCreateStrategies E w).2 = Returned tt
  <-> discovery_checks (db w) (now w) = false.
Proof.
  rewrite discover_eq. simpl. destruct (discovery_checks _ _); split; done.
Qed.

Lemma run_eq (w : World E) :
  runStrategyExecutionEngine E w
  = if discovery_checks (db w) (now w) then w
    else sweep E w (activeStrategies (db w)).
Proof.
  unfold runStrategyExecutionEngine. rewrite discover_eq.
  by destruct (discovery_checks _ _).
Qed.

Lemma run_serving_eq (w : World E) served :
  run_serving E w served
  = if discovery_checks (db w) (now w) then w
    else sweep_serving E w (activeStrategies (db w)) served.
Proof.
  unfold run_serving. rewrite discover_eq.
  by destruct (discovery_checks _ _).
Qed.

End Discovery.

(** ** The sweep over the active strategies *)

Section Sweep.

Context (E : Env).

Lemma untouched_refl id (w : World E) : untouched id w w.
Proof. by repeat split. Qed.

Lemma untouched_trans id (w1 w2 w3 : World E) :
  untouched id w1 w2 -> untouched id w2 w3 -> untouched id w1 w3.
Proof.
  intros (H1 & H2 & H3) (H1' & H2' & H3'). repeat split; congruence.
Qed.

Lemma filter_snoc_other {A} (P : A -> Prop) `{forall x, Decision (P x)} l x :
  ~ P x -> filter P (l ++ [x]) = filter P l.
Proof.
  intros Hx. rewrite filter_app, filter_cons, decide_False by done.
  by rewrite app_nil_r.
Qed.

Lemma executeStrategy_untouched id (w : World E) strat :
  id <> strat.1 -> untouched id w (executeStrategy E w strat).
Proof.
  destruct strat as [id' s]. simpl. intros Hne.
  destruct (Decision.shouldExecute (shouldExecuteStrategy E w (id', s)).2) eqn:Hd.
  - rewrite (executeStrategy_fire E w id' s Hd). cbv zeta.
    set (r := match _ with Returned r => r | Thrown _ => _ end).
    unfold untouched, logs_of, events_of. simpl. split; [|split].
    + destruct (success r); [|done]. simpl. by apply lookup_alter_ne.
    + replace (executionLog (if success r then _ else db w)) with (executionLog (db w))
        by (by destruct (success r)).
      apply filter_snoc_other. simpl. congruence.
    + rewrite filter_app. simpl.
      rewrite !filter_cons, !decide_False by (simpl; congruence).
      by rewrite filter_nil, app_nil_r.
  - rewrite (executeStrategy_skip E w id' s Hd).
    unfold untouched, logs_of, events_of. simpl. split; [done|]. split; [done|].
    rewrite !filter_snoc_other by (simpl; congruence). done.
Qed.

Lemma engineStep_expired (w : World E) id s :
  (expiryTimestamp s < now w)%Z ->
  engineStep E w (id, s)
  = with_db E w (update_strategy (db w) id (set_status EXPIRED)).
Proof. intros H. unfold engineStep. simpl. by rewrite bool_decide_eq_true_2. Qed.

Lemma engineStep_untouched id (w : World E) strat :
  id <> strat.1 -> untouched id w (engineStep E w strat).
Proof.
  intros Hne. unfold engineStep. case_bool_decide.
  - unfold untouched, logs_of, events_of. simpl. split; [|done].
    by apply lookup_alter_ne.
  - destruct (executeStrategy_untouched id w strat Hne) as (H1 & H2 & H3).
    by repeat split.
Qed.

Lemma sweep_untouched id (l : list (string * Strategy)) (w : World E) :
  id ∉ l.*1 -> untouched id w (foldl (engineStep E) w l).
Proof.
  revert w. induction l as [|strat l IH]; intros w Hid; simpl.
  - apply untouched_refl.
  - apply not_elem_of_cons in Hid as [Hne Hid].
    eapply untouched_trans; [by apply engineStep_untouched|by apply IH].
Qed.

Lemma activeStrategies_NoDup (d : Database) : NoDup (activeStrategies d).*1.
Proof.
  unfold activeStrategies.
  eapply sublist_NoDup; [apply (NoDup_fst_map_to_list (strategy d))|].
  apply fmap_sublist, sublist_filter.
Qed.

Lemma alter_is_insert (t : gmap string Strategy) (id : string) (s : Strategy) f :
  t !! id = Some s -> alter f id t = <[id := f s]> t.
Proof.
  intros Hrow. apply map_eq. intros k. destruct (decide (k = id)) as [->|Hne].
  - by rewrite lookup_alter_eq, lookup_insert_eq, Hrow.
  - by rewrite lookup_alter_ne, lookup_insert_ne.
Qed.


End Sweep.


(** ** Terminal statuses *)

Section Terminal.

Context (E : Env).

Lemma engine_run_keeps_terminal (w : World E) id s :
  strategy (db w) !! id = Some s ->
  status s <> ACTIVE ->
  strategy (db (runStrategyExecutionEngine E w)) !! id = Some s
  /\ logs_of id (runStrategyExecutionEngine E w) = logs_of id w.
Proof.
  intros Hrow Hterminal. rewrite run_eq.
  destruct (discovery_checks _ _); [done|].
  assert (id ∉ (activeStrategies (db w)).*1) as Hid.
  { intros Hin. apply list_elem_of_fmap in Hin as ([id' s'] & -> & Hin).
    apply elem_of_activeStrategies in Hin as [Hrow' Hactive]. simpl in *.
    congruence. }
  destruct (sweep_untouched E id _ w Hid) as (H1 & H2 & _).
  unfold sweep. by rewrite H1, H2.
Qed.

Lemma executeRoute_keeps_terminal (w : World E) strategyId id s :
  strategy (db w) !! id = Some s ->
  status s <> ACTIVE ->
  strategy (db (executeRoute E w strategyId).1) !! id = Some s
  /\ logs_of id (executeRoute E w strategyId).1 = logs_of id w.
Proof.
  intros Hrow Hterminal. unfold executeRoute.
  destruct (strategy (db w) !! strategyId) as [s0|] eqn:Hs0; [|done].
  case_bool_decide as Hst; [done|].
  assert (strategyId <> id) as Hne by (intros ->; congruence).
  destruct (latestMarketSnapshot _ _) as [m|]; [|done].
  cbn [db emit].
  destruct (latestSentimentSnapshot _ _) as [t|]; [|done].
  cbn [chain emit].
  destruct (executeStrategyViaMCP E (chain w) _) as [c [r|msg]]; [|done].
  unfold logs_of. simpl.
  destruct (success r); simpl.
  - rewrite lookup_alter_ne by done. split; [done|].
    apply filter_snoc_other. simpl. congruence.
  - split; [done|]. apply filter_snoc_other. simpl. congruence.
Qed.

Lemma step_keeps_terminal (w : World E) op id s :
  strategy (db w) !! id = Some s ->
  status s <> ACTIVE ->
  strategy (db (step E w op)) !! id = Some s
  /\ logs_of id (step E w op) = logs_of id w.
Proof.
  intros Hrow Hterminal. destruct op; simpl.
  - by apply engine_run_keeps_terminal.
  - by apply executeRoute_keeps_terminal.
  - done.
  - done.
  - done.
Qed.

(** Whatever row a turn of the sweep holds, and whatever request is served,
    a status that is not [ACTIVE] stays so. *)
Lemma engineStep_settled (w : World E) strat id s :
  strategy (db w) !! id = Some s -> status s <> ACTIVE ->
  exists s', strategy (db (engineStep E w strat)) !! id = Some s'
             /\ status s' <> ACTIVE.
Proof.
  intros Hrow Hs. destruct strat as [id0 s0]. unfold engineStep. cbn [fst snd].
  case_bool_decide.
  - simpl. destruct (decide (id0 = id)) as [->|Hne].
    + rewrite lookup_alter_eq, Hrow. simpl. eexists. split; [reflexivity|done].
    + rewrite lookup_alter_ne by done. eauto.
  - cbn [db delay].
    destruct (Decision.shouldExecute (shouldExecuteStrategy E w (id0, s0)).2) eqn:Hd.
    + rewrite (executeStrategy_fire E w id0 s0 Hd). cbv zeta.
      set (r := match _ with Returned r => r | Thrown _ => _ end).
      simpl. destruct (success r); simpl; [|eauto].
      destruct (decide (id0 = id)) as [->|Hne].
      * rewrite lookup_alter_eq, Hrow. simpl. eexists. split; [reflexivity|done].
      * rewrite lookup_alter_ne by done. eauto.
    + rewrite (executeStrategy_skip E w id0 s0 Hd). simpl. eauto.
Qed.

Lemma served_keeps_terminal (requests : list string) (w : World E) id s :
  strategy (db w) !! id = Some s -> status s <> ACTIVE ->
  strategy (db (foldl (fun w strategyId => (executeRoute E w strategyId).1) w requests))
    !! id = Some s.
Proof.
  revert w. induction requests as [|r requests IH]; intros w Hrow Hs; simpl; [done|].
  apply IH; [|done]. by apply executeRoute_keeps_terminal.
Qed.

Lemma sweep_serving_settled loaded : forall served (w : World E) id s,
  strategy (db w) !! id = Some s -> status s <> ACTIVE ->
  exists s', strategy (db (sweep_serving E w loaded served)) !! id = Some s'
             /\ status s' <> ACTIVE.
Proof.
  induction loaded as [|strat loaded IH]; intros served w id s Hrow Hs; simpl;
    [eauto|].
  pose proof (served_keeps_terminal (default [] (head served)) w id s Hrow Hs) as H1.
  destruct (engineStep_settled _ strat id s H1 Hs) as (s' & Hrow' & Hs').
  exact (IH _ _ id s' Hrow' Hs').
Qed.

Lemma overlap_step_settled (w : World E) (o : Overlap) id s :
  strategy (db w) !! id = Some s -> status s <> ACTIVE ->
  exists s', strategy (db (overlap_step E w o)) !! id = Some s'
             /\ status s' <> ACTIVE.
Proof.
  intros Hrow Hs. destruct o as [op|served]; simpl.
  - exists s. split; [|done]. by apply step_keeps_terminal.
  - rewrite run_serving_eq. destruct (discovery_checks _ _); [eauto|].
    by eapply sweep_serving_settled.
Qed.

Lemma not_active (st : StrategyStatus) :
  st <> ACTIVE <-> st = EXECUTED \/ st = EXPIRED.
Proof. destruct st; split; intros H; try done; auto; by destruct H. Qed.


End Terminal.



(** ** Rows with distinct keys *)

Lemma distinct_from_keys {A} (key : A -> string) (seen : list string) (l : list A) k :
  k ∈ key <$> distinct_from key seen l <-> k ∈ key <$> l /\ k ∉ seen.
Proof.
  revert seen. induction l as [|x l IH]; intros seen; simpl.
  - rewrite elem_of_nil. tauto.
  - case_bool_decide as Hseen.
    + rewrite IH, elem_of_cons. split; [tauto|].
      intros [[->|H] Hk]; [done|tauto].
    + rewrite fmap_cons, !elem_of_cons, IH, not_elem_of_cons.
      destruct (decide (k = key x)) as [->|Hne]; tauto.
Qed.

(** ** Discovery is idempotent *)

(** C4: a Discovery run adds no strategy to any (market, tag) pair, whether
    the pair has a strategy or not: the run changes nothing in the store,
    sends nothing to the settlement client, and a second run right after the
    first does the same; so two runs in succession add at most one strategy
    to a pair - none, in fact.  (The run ends at its first duplicate check,
    which the client of the store refuses.) *)
Theorem discovery_is_idempotent (E : Env) (w : World E) :
  let w1 := (discoverAndCreateStrategies E w).1 in
  let w2 := (discoverAndCreateStrategies E w1).1 in
  (forall market tag,
     strategies_for market tag (db w1) = strategies_for market tag (db w))
  /\ w2 = w1
  /\ (forall market tag,
        size (strategies_for market tag (db w2))
        <= S (size (strategies_for market tag (db w))))
  /\ strategy (db w1) = strategy (db w)
  /\ strategy (db w2) = strategy (db w)
  /\ events w2 = events w /\ chain w2 = chain w.
Proof.
  intros w1 w2. unfold w2, w1. rewrite !discover_world.
  repeat split; try done. intros market tag. lia.
Qed.

(** ** The on-chain module: registration, execution, and what a history keeps *)

Lemma onchain_strategy_state g owner strategy_id :
  Move.get_strategy_state g owner strategy_id
  = match onchain_strategy g owner strategy_id with
    | Some s => (true, Move.expiry_timestamp s, Move.executed s)
    | None => (false, 0%N, false)
    end.
Proof.
  unfold Move.get_strategy_state, onchain_strategy.
  destruct (Move.stores g !! owner) as [store|]; [|reflexivity].
  destruct (store !! strategy_id); reflexivity.
Qed.

Lemma onchain_strategy_insert g owner store i st owner' i' ev :
  Move.stores g !! owner = Some store \/ (Move.stores g !! owner = None /\ store = ∅) ->
  onchain_strategy
    {| Move.stores := <[owner := <[i := st]> store]> (Move.stores g);
       Move.emitted := ev |} owner' i'
  = if bool_decide (owner' = owner /\ i' = i) then Some st
    else onchain_strategy g owner' i'.
Proof.
  intros Hstore. unfold onchain_strategy. simpl.
  destruct (decide (owner' = owner)) as [->|Ho].
  - rewrite lookup_insert_eq.
    destruct (decide (i' = i)) as [->|Hi].
    + rewrite lookup_insert_eq, bool_decide_eq_true_2 by done. reflexivity.
    + rewrite lookup_insert_ne by done.
      rewrite bool_decide_eq_false_2 by (intros [_ ?]; done).
      destruct Hstore as [->|[-> ->]]; [reflexivity|]. apply lookup_empty.
  - rewrite lookup_insert_ne by done.
    rewrite bool_decide_eq_false_2 by (intros [? _]; done). reflexivity.
Qed.

Lemma register_strategy_unfold g a i m t p s n b e :
  Move.register_strategy g a i m t p s n b e
  = match onchain_strategy g a i with
    | Some _ => Move.Abort Move.E_STRATEGY_ALREADY_EXISTS
    | None =>
        Move.Commit
          {| Move.stores :=
               <[a := <[i := {| Move.id := i; Move.market_id := m;
                                Move.sentiment_tag := t;
                                Move.min_prediction_prob := p;
                                Move.min_sentiment_score := s;
                                Move.notional_amount := n;
                                Move.expiry_timestamp := e;
                                Move.executed := false |}]>
                       (default ∅ (Move.stores g !! a))]> (Move.stores g);
             Move.emitted := Move.emitted g ++ [Move.StrategyRegistered a i m] |}
    end.
Proof.
  unfold Move.register_strategy, onchain_strategy.
  destruct (Move.stores g !! a) as [store|]; cbv zeta.
  - change (default ∅ (Some store)) with store.
    destruct (store !! i) eqn:Hi.
    + rewrite bool_decide_eq_true_2 by eauto. reflexivity.
    + rewrite bool_decide_eq_false_2 by (intros [? ?]; discriminate).
      reflexivity.
  - change (default ∅ (@None (gmap string Move.Strategy))) with (∅ : gmap string Move.Strategy).
    rewrite bool_decide_eq_false_2
      by (rewrite lookup_empty; intros [? ?]; discriminate).
    reflexivity.
Qed.

Lemma default_store_cases (g : Move.Global) (a : N) :
  Move.stores g !! a = Some (default ∅ (Move.stores g !! a))
  \/ (Move.stores g !! a = None /\ default ∅ (Move.stores g !! a) = ∅).
Proof. destruct (Move.stores g !! a); [left|right]; done. Qed.

Lemma execute_strategy_unfold g a i m pb sb :
  Move.execute_strategy g a i m pb sb
  = match Move.stores g !! a with
    | None => Move.Abort Move.E_STRATEGY_STORE_NOT_FOUND
    | Some store =>
        match onchain_strategy g a i with
        | None => Move.Abort Move.E_STRATEGY_NOT_FOUND
        | Some st =>
            if Move.executed st then Move.Abort Move.E_STRATEGY_ALREADY_EXECUTED
            else if negb (Move.min_prediction_prob st <=? pb)%N
            then Move.Abort Move.E_CONDITIONS_NOT_MET
            else if negb (Move.min_sentiment_score st <=? sb)%N
            then Move.Abort Move.E_CONDITIONS_NOT_MET
            else
              Move.Commit
                {| Move.stores :=
                     <[a := <[i := Move.mark_executed st]> store]> (Move.stores g);
                   Move.emitted :=
                     Move.emitted g
                     ++ [Move.StrategyExecuted i a pb sb (Move.notional_amount st)] |}
        end
    end.
Proof.
  unfold Move.execute_strategy, onchain_strategy.
  destruct (Move.stores g !! a); reflexivity.
Qed.

Lemma registered_strategy g a i m t p s n b e g' :
  Move.register_strategy g a i m t p s n b e = Move.Commit g' ->
  onchain_strategy g a i = None
  /\ onchain_strategy g' a i
     = Some {| Move.id := i; Move.market_id := m; Move.sentiment_tag := t;
               Move.min_prediction_prob := p; Move.min_sentiment_score := s;
               Move.notional_amount := n; Move.expiry_timestamp := e;
               Move.executed := false |}
  /\ Move.emitted g' = Move.emitted g ++ [Move.StrategyRegistered a i m]
  /\ forall a' i', (a', i') <> (a, i) ->
       onchain_strategy g' a' i' = onchain_strategy g a' i'.
Proof.
  rewrite register_strategy_unfold.
  destruct (onchain_strategy g a i) as [st|] eqn:Hst; [discriminate|].
  intros [= <-]. split; [reflexivity|]. split; [|split; [reflexivity|]].
  - rewrite onchain_strategy_insert by apply default_store_cases.
    rewrite bool_decide_eq_true_2 by done. reflexivity.
  - intros a' i' Hne. rewrite onchain_strategy_insert by apply default_store_cases.
    rewrite bool_decide_eq_false_2; [reflexivity|].
    intros [-> ->]. done.
Qed.

Lemma executed_strategy g a i m pb sb g' :
  Move.execute_strategy g a i m pb sb = Move.Commit g' ->
  exists st,
    onchain_strategy g a i = Some st
    /\ Move.executed st = false
    /\ (Move.min_prediction_prob st <= pb)%N
    /\ (Move.min_sentiment_score st <= sb)%N
    /\ onchain_strategy g' a i = Some (Move.mark_executed st)
    /\ Move.emitted g'
       = Move.emitted g ++ [Move.StrategyExecuted i a pb sb (Move.notional_amount st)]
    /\ forall a' i', (a', i') <> (a, i) ->
         onchain_strategy g' a' i' = onchain_strategy g a' i'.
Proof.
  rewrite execute_strategy_unfold.
  destruct (Move.stores g !! a) as [store|] eqn:Hstore; [|discriminate].
  destruct (onchain_strategy g a i) as [st|] eqn:Hst; [|discriminate].
  destruct (Move.executed st) eqn:Hex; [discriminate|].
  destruct (Move.min_prediction_prob st <=? pb)%N eqn:Hp; [|discriminate].
  destruct (Move.min_sentiment_score st <=? sb)%N eqn:Hs; [|discriminate].
  simpl. intros [= <-]. exists st. apply N.leb_le in Hp, Hs.
  repeat split; try done.
  - rewrite onchain_strategy_insert by eauto.
    rewrite bool_decide_eq_true_2 by done. reflexivity.
  - intros a' i' Hne. rewrite onchain_strategy_insert by eauto.
    rewrite bool_decide_eq_false_2; [reflexivity|].
    intros [-> ->]. done.
Qed.

(** X1: registration.  [register_strategy] commits exactly when the signer has
    no strategy under the id: the view then reports the strategy as present,
    with the expiry given and not executed, one [StrategyRegistered] event is
    appended, and a second registration of the id aborts with
    [E_STRATEGY_ALREADY_EXISTS].  The slippage bound is not stored. *)
Theorem registration_round_trip (g : Move.Global) (account : N)
    (strategy_id market_id sentiment_tag : string) (p s n b e : N) :
  match Move.register_strategy g account strategy_id market_id sentiment_tag
          p s n b e with
  | Move.Commit g' =>
      Move.get_strategy_state g account strategy_id = (false, 0%N, false)
      /\ Move.get_strategy_state g' account strategy_id = (true, e, false)
      /\ onchain_strategy g' account strategy_id
         = Some {| Move.id := strategy_id; Move.market_id := market_id;
                   Move.sentiment_tag := sentiment_tag;
                   Move.min_prediction_prob := p; Move.min_sentiment_score := s;
                   Move.notional_amount := n; Move.expiry_timestamp := e;
                   Move.executed := false |}
      /\ Move.emitted g'
         = Move.emitted g ++ [Move.StrategyRegistered account strategy_id market_id]
      /\ (forall m' t' p' s' n' b' e',
            Move.register_strategy g' account strategy_id m' t' p' s' n' b' e'
            = Move.Abort Move.E_STRATEGY_ALREADY_EXISTS)
      /\ (forall b',
            Move.register_strategy g account strategy_id market_id sentiment_tag
              p s n b' e = Move.Commit g')
  | Move.Abort code =>
      code = Move.E_STRATEGY_ALREADY_EXISTS
      /\ exists expiry executed,
           Move.get_strategy_state g account strategy_id = (true, expiry, executed)
  end.
Proof.
  rewrite register_strategy_unfold.
  destruct (onchain_strategy g account strategy_id) as [st|] eqn:Hst.
  - split; [reflexivity|]. rewrite onchain_strategy_state, Hst. eauto.
  - assert (forall ev,
      onchain_strategy
        {| Move.stores :=
             <[account := <[strategy_id :=
                 {| Move.id := strategy_id; Move.market_id := market_id;
                    Move.sentiment_tag := sentiment_tag;
                    Move.min_prediction_prob := p; Move.min_sentiment_score := s;
                    Move.notional_amount := n; Move.expiry_timestamp := e;
                    Move.executed := false |}]>
               (default ∅ (Move.stores g !! account))]> (Move.stores g);
           Move.emitted := ev |} account strategy_id
      = Some {| Move.id := strategy_id; Move.market_id := market_id;
                Move.sentiment_tag := sentiment_tag;
                Move.min_prediction_prob := p; Move.min_sentiment_score := s;
                Move.notional_amount := n; Move.expiry_timestamp := e;
                Move.executed := false |}) as Hnew.
    { intros ev. rewrite onchain_strategy_insert by apply default_store_cases.
      rewrite bool_decide_eq_true_2 by done. reflexivity. }
    repeat split.
    + rewrite onchain_strategy_state, Hst. reflexivity.
    + rewrite onchain_strategy_state, Hnew. reflexivity.
    + apply Hnew.
    + intros m' t' p' s' n' b' e'. rewrite register_strategy_unfold, Hnew.
      reflexivity.
    + intros b'. rewrite register_strategy_unfold, Hst. reflexivity.
Qed.

(** X2: execution.  [execute_strategy] commits exactly when the signer has a
    store, the strategy is in it, it is not executed, and both values reach
    the registered thresholds; the checks are made in that order, each with
    its own abort code.  A commit sets the flag and appends one
    [StrategyExecuted] event that carries the registered notional amount. *)
Theorem execution_outcome (g : Move.Global) (account : N)
    (strategy_id market_id : string) (prob_bps sentiment_bps : N) :
  match Move.execute_strategy g account strategy_id market_id prob_bps
          sentiment_bps with
  | Move.Commit g' =>
      exists st,
        onchain_strategy g account strategy_id = Some st
        /\ Move.executed st = false
        /\ (Move.min_prediction_prob st <= prob_bps)%N
        /\ (Move.min_sentiment_score st <= sentiment_bps)%N
        /\ onchain_strategy g' account strategy_id = Some (Move.mark_executed st)
        /\ Move.emitted g'
           = Move.emitted g
             ++ [Move.StrategyExecuted strategy_id account prob_bps sentiment_bps
                   (Move.notional_amount st)]
  | Move.Abort code =>
      (code = Move.E_STRATEGY_STORE_NOT_FOUND /\ Move.stores g !! account = None)
      \/ (code = Move.E_STRATEGY_NOT_FOUND
          /\ is_Some (Move.stores g !! account)
          /\ onchain_strategy g account strategy_id = None)
      \/ exists st,
           onchain_strategy g account strategy_id = Some st
           /\ ((code = Move.E_STRATEGY_ALREADY_EXECUTED /\ Move.executed st = true)
               \/ (code = Move.E_CONDITIONS_NOT_MET
                   /\ Move.executed st = false
                   /\ ((prob_bps < Move.min_prediction_prob st)%N
                       \/ (sentiment_bps < Move.min_sentiment_score st)%N)))
  end.
Proof.
  rewrite execute_strategy_unfold.
  destruct (Move.stores g !! account) as [store|] eqn:Hstore; [|left; done].
  destruct (onchain_strategy g account strategy_id) as [st|] eqn:Hst;
    [|right; left; eauto].
  destruct (Move.executed st) eqn:Hex; [right; right; eauto 6|].
  destruct (Move.min_prediction_prob st <=? prob_bps)%N eqn:Hp; simpl.
  - destruct (Move.min_sentiment_score st <=? sentiment_bps)%N eqn:Hs; simpl.
    + exists st. apply N.leb_le in Hp, Hs. repeat split; try done.
      rewrite onchain_strategy_insert by eauto.
      rewrite bool_decide_eq_true_2 by done. reflexivity.
    + apply N.leb_gt in Hs. right; right. exists st. eauto 7.
  - apply N.leb_gt in Hp. right; right. exists st. eauto 7.
Qed.

Lemma run_never_expired (g : Move.Global) (c : Move.Call) :
  Move.run g c <> Move.Abort Move.E_STRATEGY_EXPIRED.
Proof.
  destruct c as [a i m t p s n b e|a i m pb sb]; simpl.
  - rewrite register_strategy_unfold.
    destruct (onchain_strategy g a i); discriminate.
  - rewrite execute_strategy_unfold.
    destruct (Move.stores g !! a); [|discriminate].
    destruct (onchain_strategy g a i) as [st|]; [|discriminate].
    destruct (Move.executed st); [discriminate|].
    destruct (negb _); [discriminate|].
    destruct (negb _); discriminate.
Qed.

(** X3: the expiry is stored but never enforced.  A strategy registered with
    any expiry can be executed as soon as the two values reach its
    thresholds, and no transaction ever aborts with [E_STRATEGY_EXPIRED]. *)
Theorem expiry_is_not_enforced (g g1 : Move.Global) (account : N)
    (strategy_id market_id sentiment_tag : string) (p s n b e : N)
    (market_id' : string) (prob_bps sentiment_bps : N) :
  Move.register_strategy g account strategy_id market_id sentiment_tag p s n b e
  = Move.Commit g1 ->
  (p <= prob_bps)%N ->
  (s <= sentiment_bps)%N ->
  (exists g2,
     Move.execute_strategy g1 account strategy_id market_id' prob_bps sentiment_bps
     = Move.Commit g2)
  /\ forall g' c, Move.run g' c <> Move.Abort Move.E_STRATEGY_EXPIRED.
Proof.
  intros Hreg Hp Hs. split; [|apply run_never_expired].
  destruct (registered_strategy _ _ _ _ _ _ _ _ _ _ _ Hreg) as (_ & Hnew & _).
  rewrite execute_strategy_unfold.
  destruct (Move.stores g1 !! account) as [store|] eqn:Hstore.
  - rewrite Hnew. simpl.
    apply N.leb_le in Hp, Hs. rewrite Hp, Hs. simpl. eauto.
  - unfold onchain_strategy in Hnew. rewrite Hstore in Hnew. discriminate.
Qed.

Lemma expiry_is_not_enforced_witness :
  exists g2,
    Move.execute_strategy registered_once 7 "s1" "CRYPTO_BTC" 600 1500
    = Move.Commit g2.
Proof.
  apply (expiry_is_not_enforced Move.genesis registered_once 7 "s1" "CRYPTO_BTC"
           "CRYPTO" 500 1500 50 100 604802 "CRYPTO_BTC" 600 1500);
    [reflexivity|lia|lia].
Defined.

Lemma after_cases (g : Move.Global) (c : Move.Call) :
  Move.after g c = g
  \/ Move.run g c = Move.Commit (Move.after g c).
Proof.
  unfold Move.after. destruct (Move.run g c); [right|left]; reflexivity.
Qed.

Lemma after_frame (g : Move.Global) (c : Move.Call) (owner : N) (i : string) :
  (owner, i) <> (call_signer c, call_strategy c) ->
  onchain_strategy (Move.after g c) owner i = onchain_strategy g owner i.
Proof.
  intros Hne. destruct (after_cases g c) as [->|Hrun]; [reflexivity|].
  destruct c as [a j m t p s n b e|a j m pb sb]; simpl in *.
  - destruct (registered_strategy _ _ _ _ _ _ _ _ _ _ _ Hrun) as (_ & _ & _ & H).
    apply H, Hne.
  - destruct (executed_strategy _ _ _ _ _ _ _ Hrun) as (st & _ & _ & _ & _ & _ & _ & H).
    apply H, Hne.
Qed.

(** X4: a transaction touches one strategy of its signer.  The strategies of
    other accounts, and the signer's strategies under other ids, are as
    before, whether the transaction commits or aborts. *)
Theorem transaction_frame (g : Move.Global) (c : Move.Call) (owner : N)
    (strategy_id : string) :
  (owner, strategy_id) <> (call_signer c, call_strategy c) ->
  onchain_strategy (Move.after g c) owner strategy_id
  = onchain_strategy g owner strategy_id
  /\ Move.get_strategy_state (Move.after g c) owner strategy_id
     = Move.get_strategy_state g owner strategy_id.
Proof.
  intros Hne. rewrite !onchain_strategy_state, (after_frame g c owner strategy_id Hne).
  done.
Qed.

Lemma transaction_frame_witness :
  Move.get_strategy_state
    (Move.after registered_once (Move.Execute 8 "s1" "CRYPTO_BTC" 9000 9000)) 7 "s1"
  = Move.get_strategy_state registered_once 7 "s1".
Proof.
  apply (transaction_frame registered_once
           (Move.Execute 8 "s1" "CRYPTO_BTC" 9000 9000) 7 "s1").
  simpl. discriminate.
Defined.

(** What one transaction does to one strategy: nothing, its creation, or the
    setting of its flag. *)
Lemma after_strategy (g : Move.Global) (c : Move.Call) (owner : N) (i : string) :
  (onchain_strategy (Move.after g c) owner i = onchain_strategy g owner i
   /\ executions_of (Move.after g c) owner i = executions_of g owner i)
  \/ (exists st,
        onchain_strategy g owner i = None
        /\ onchain_strategy (Move.after g c) owner i = Some st
        /\ Move.id st = i /\ Move.executed st = false
        /\ executions_of (Move.after g c) owner i = executions_of g owner i)
  \/ (exists st pb sb,
        onchain_strategy g owner i = Some st
        /\ Move.executed st = false
        /\ onchain_strategy (Move.after g c) owner i = Some (Move.mark_executed st)
        /\ (Move.min_prediction_prob st <= pb)%N
        /\ (Move.min_sentiment_score st <= sb)%N
        /\ executions_of (Move.after g c) owner i
           = executions_of g owner i
             ++ [Move.StrategyExecuted i owner pb sb (Move.notional_amount st)]).
Proof.
  destruct (after_cases g c) as [->|Hrun]; [left; done|].
  destruct c as [a j m t p s n b e|a j m pb sb]; simpl in *.
  - destruct (registered_strategy _ _ _ _ _ _ _ _ _ _ _ Hrun)
      as (Hold & Hnew & Hev & Hframe).
    assert (executions_of (Move.after g (Move.Register a j m t p s n b e)) owner i
            = executions_of g owner i) as Hex.
    { unfold executions_of. simpl in *. rewrite Hev, filter_app.
      rewrite filter_cons_False, filter_nil, app_nil_r by (simpl; done). reflexivity. }
    destruct (decide ((owner, i) = (a, j))) as [[= -> ->]|Hne].
    + right; left. eexists. split; [exact Hold|]. split; [exact Hnew|]. done.
    + left. split; [apply Hframe, Hne|exact Hex].
  - destruct (executed_strategy _ _ _ _ _ _ _ Hrun)
      as (st & Hold & Hflag & Hp & Hs & Hnew & Hev & Hframe).
    destruct (decide ((owner, i) = (a, j))) as [[= -> ->]|Hne].
    + right; right. exists st, pb, sb. repeat split; try done.
      unfold executions_of. simpl in *. rewrite Hev, filter_app.
      rewrite filter_cons_True, filter_nil
        by (simpl; rewrite !bool_decide_eq_true_2 by done; done).
      reflexivity.
    + left. split; [apply Hframe, Hne|].
      unfold executions_of. simpl in *. rewrite Hev, filter_app.
      rewrite filter_cons_False, filter_nil, app_nil_r; [reflexivity|].
      simpl. intros H. apply andb_true_iff in H as [H1 H2].
      apply bool_decide_eq_true_1 in H1, H2. subst. done.
Qed.

(** X5: what a history keeps.  After any sequence of transactions from the
    empty state, a stored strategy is stored under its own id; it is flagged
    as executed exactly when one [StrategyExecuted] event names it, there is
    never a second one, and that event carries values that reach the
    registered thresholds and the registered notional amount. *)
Theorem executed_events_are_sound (calls : list Move.Call) (owner : N)
    (strategy_id : string) :
  let g := foldl Move.after Move.genesis calls in
  match onchain_strategy g owner strategy_id with
  | None => executions_of g owner strategy_id = []
  | Some st =>
      Move.id st = strategy_id
      /\ if Move.executed st
         then exists prob_bps sentiment_bps,
                executions_of g owner strategy_id
                = [Move.StrategyExecuted strategy_id owner prob_bps sentiment_bps
                     (Move.notional_amount st)]
                /\ (Move.min_prediction_prob st <= prob_bps)%N
                /\ (Move.min_sentiment_score st <= sentiment_bps)%N
         else executions_of g owner strategy_id = []
  end.
Proof.
  induction calls as [|c calls IH] using rev_ind; [reflexivity|].
  rewrite foldl_app. simpl. set (g := foldl Move.after Move.genesis calls) in *.
  cbv zeta in IH.
  destruct (after_strategy g c owner strategy_id)
    as [[-> ->]|[(st & Hold & -> & Hid & Hflag & ->)
                |(st & pb & sb & Hold & Hflag & -> & Hp & Hs & ->)]].
  - exact IH.
  - rewrite Hold in IH. rewrite Hflag. done.
  - rewrite Hold, Hflag in IH. destruct IH as [Hid Hnone].
    split; [exact Hid|]. simpl. exists pb, sb. rewrite Hnone. done.
Qed.

Lemma after_keeps_terms (g : Move.Global) (c : Move.Call) (owner : N) (i : string) st :
  onchain_strategy g owner i = Some st ->
  onchain_strategy (Move.after g c) owner i = Some st
  \/ (Move.executed st = false
      /\ onchain_strategy (Move.after g c) owner i = Some (Move.mark_executed st)).
Proof.
  intros Hst.
  destruct (after_strategy g c owner i)
    as [[-> _]|[(st' & Hold & _)|(st' & pb & sb & Hold & Hflag & -> & _)]].
  - left. exact Hst.
  - congruence.
  - right. assert (st' = st) as -> by congruence. done.
Qed.

(** X6: the terms of a registered strategy are final.  Whatever transactions
    follow, the strategy stays stored with the market, tag, thresholds,
    notional amount and expiry it was registered with; only its flag can
    change, and only from not executed to executed. *)
Theorem registered_terms_are_final (calls : list Move.Call) (g : Move.Global)
    (owner : N) (strategy_id : string) (st : Move.Strategy) :
  onchain_strategy g owner strategy_id = Some st ->
  let g' := foldl Move.after g calls in
  onchain_strategy g' owner strategy_id = Some st
  \/ (Move.executed st = false
      /\ onchain_strategy g' owner strategy_id = Some (Move.mark_executed st)).
Proof.
  intros Hst. induction calls as [|c calls IH] using rev_ind; [left; exact Hst|].
  cbv zeta in *. rewrite foldl_app. simpl.
  destruct IH as [IH|[Hflag IH]].
  - apply after_keeps_terms, IH.
  - destruct (after_keeps_terms _ c _ _ _ IH) as [H|[H _]].
    + right. done.
    + simpl in H. discriminate.
Qed.

Lemma registered_terms_are_final_witness :
  let g' := foldl Move.after registered_once
              [ Move.Register 7 "s1" "OTHER" "OTHER" 0 0 1 1 1;
                Move.Execute 7 "s1" "CRYPTO_BTC" 6000 7500 ] in
  onchain_strategy g' 7 "s1"
  = Some {| Move.id := "s1"; Move.market_id := "CRYPTO_BTC";
            Move.sentiment_tag := "CRYPTO"; Move.min_prediction_prob := 500;
            Move.min_sentiment_score := 1500; Move.notional_amount := 50;
            Move.expiry_timestamp := 604802; Move.executed := false |}
  \/ (false = false
      /\ onchain_strategy g' 7 "s1"
         = Some (Move.mark_executed
                   {| Move.id := "s1"; Move.market_id := "CRYPTO_BTC";
                      Move.sentiment_tag := "CRYPTO"; Move.min_prediction_prob := 500;
                      Move.min_sentiment_score := 1500; Move.notional_amount := 50;
                      Move.expiry_timestamp := 604802; Move.executed := false |})).
Proof.
  apply (registered_terms_are_final
           [ Move.Register 7 "s1" "OTHER" "OTHER" 0 0 1 1 1;
             Move.Execute 7 "s1" "CRYPTO_BTC" 6000 7500 ] registered_once 7 "s1").
  vm_compute. reflexivity.
Defined.

(** ** The cache *)

Lemma prefix_split (p s : string) :
  String.prefix p s = true <-> exists post, s = p +:+ post.
Proof.
  revert s. induction p as [|a p IH]; intros s; simpl.
  - split; [intros _; exists s; reflexivity|]. destruct s; done.
  - destruct s as [|b s]; simpl.
    + split; [discriminate|]. intros [post H]. discriminate.
    + destruct (Ascii.ascii_dec a b) as [->|Hne].
      * rewrite IH. split; intros [post H]; exists post.
        -- rewrite H. reflexivity.
        -- injection H as H. exact H.
      * split; [discriminate|]. intros [post H]. injection H as H1 H2. done.
Qed.

(** [includes] finds the pattern wherever it starts. *)
Lemma includes_spec (pattern s : string) :
  includes pattern s = true <-> exists pre post, s = pre +:+ pattern +:+ post.
Proof.
  induction s as [|a s IH].
  - change (includes pattern "") with (String.prefix pattern "" || false).
    rewrite orb_false_r, prefix_split. split.
    + intros [post H]. exists "", post. exact H.
    + intros (pre & post & H). destruct pre; [eauto|discriminate].
  - change (includes pattern (String a s))
      with (String.prefix pattern (String a s) || includes pattern s).
    rewrite orb_true_iff, prefix_split, IH. split.
    + intros [[post H]|(pre & post & H)].
      * exists "", post. exact H.
      * exists (String a pre), post. rewrite H. reflexivity.
    + intros (pre & post & H). destruct pre as [|b pre]; simpl in H.
      * left. eauto.
      * right. injection H as _ H. eauto.
Qed.

Lemma includes_empty (s : string) : includes "" s = true.
Proof. apply includes_spec. exists "", s. reflexivity. Qed.

Section CacheFacts.

Context {A : Type}.

Implicit Types (cache : Cache.t A) (key : string).

Lemma foldl_delete_lookup (f : string -> bool) cache (l : list string) key :
  foldl (fun c k => if f k then delete k c else c) cache l !! key
  = if bool_decide (key ∈ l) && f key then None else cache !! key.
Proof.
  revert cache. induction l as [|k l IH]; intros cache; simpl; [reflexivity|].
  rewrite IH. destruct (decide (key = k)) as [->|Hne].
  - rewrite (bool_decide_eq_true_2 (k ∈ k :: l)) by left. simpl.
    destruct (f k) eqn:Hf.
    + rewrite lookup_delete_eq. destruct (bool_decide (k ∈ l)); reflexivity.
    + rewrite andb_false_r. reflexivity.
  - assert (bool_decide (key ∈ k :: l) = bool_decide (key ∈ l)) as ->.
    { apply bool_decide_ext. rewrite elem_of_cons. split; [intros [?|?]; done|auto]. }
    destruct (bool_decide (key ∈ l) && f key); [reflexivity|].
    destruct (f k); [apply lookup_delete_ne; done|reflexivity].
Qed.

Lemma elem_of_keys cache key : key ∈ Cache.keys cache <-> is_Some (cache !! key).
Proof.
  unfold Cache.keys. rewrite list_elem_of_fmap. split.
  - intros ([k item] & -> & H). apply elem_of_map_to_list in H. eauto.
  - intros [item H]. exists (key, item). split; [reflexivity|].
    apply elem_of_map_to_list. exact H.
Qed.

Lemma clearCachePattern_lookup cache pattern key :
  Cache.clearCachePattern cache pattern !! key
  = if includes pattern key then None else cache !! key.
Proof.
  unfold Cache.clearCachePattern. rewrite foldl_delete_lookup.
  destruct (includes pattern key); [|rewrite andb_false_r; reflexivity].
  rewrite andb_true_r. destruct (cache !! key) as [item|] eqn:H.
  - rewrite bool_decide_eq_true_2; [reflexivity|]. apply elem_of_keys. eauto.
  - destruct (bool_decide _); reflexivity.
Qed.

Lemma clearCache_empty cache : Cache.clearCache cache = ∅.
Proof.
  apply map_eq. intros key. unfold Cache.clearCache.
  rewrite (foldl_delete_lookup (fun _ => true)), lookup_empty, andb_true_r.
  destruct (cache !! key) as [item|] eqn:H.
  - rewrite bool_decide_eq_true_2; [reflexivity|]. apply elem_of_keys. eauto.
  - destruct (bool_decide _); reflexivity.
Qed.

End CacheFacts.

(** X7: a value is served until its expiry, then dropped.  After [setCache]
    with a time to live of [ttlSeconds], [getCache] returns the value at every
    time up to [ttlSeconds * 1000] milliseconds later, that instant included,
    and leaves the cache as it is; at any later time it returns nothing and
    deletes the entry, so that later lookups miss too, at any time. *)
Theorem cache_serves_until_expiry {A : Type} (cache : Cache.t A) (now : Z)
    (key : string) (value : A) (ttlSeconds : Z) (later : Z) :
  let stored := Cache.setCache cache now key value ttlSeconds in
  Cache.getCache stored later key
  = (if bool_decide (later <= now + ttlSeconds * 1000)%Z
     then (stored, Some value)
     else (delete key cache, None))
  /\ ((now + ttlSeconds * 1000 < later)%Z ->
      forall t, (Cache.getCache (Cache.getCache stored later key).1 t key).2 = None).
Proof.
  cbv zeta. unfold Cache.getCache at 1 3, Cache.setCache.
  rewrite lookup_insert_eq. simpl.
  destruct (decide (later <= now + ttlSeconds * 1000)%Z) as [Hle|Hgt].
  - rewrite bool_decide_eq_false_2 by lia.
    rewrite bool_decide_eq_true_2 by lia. split; [reflexivity|]. lia.
  - rewrite bool_decide_eq_true_2 by lia.
    rewrite bool_decide_eq_false_2 by lia. rewrite delete_insert_eq.
    split; [reflexivity|]. intros _ t. simpl.
    unfold Cache.getCache. rewrite lookup_delete_eq. reflexivity.
Qed.

(** X8: the cache works key by key.  Storing under one key, or looking one key
    up (which may delete it), does not change what a lookup of another key
    returns; and expired entries that nobody looks up are never removed. *)
Theorem cache_keys_are_independent {A : Type} (cache : Cache.t A) (now t : Z)
    (key other : string) (value : A) (ttlSeconds : Z) :
  other <> key ->
  (Cache.getCache (Cache.setCache cache now key value ttlSeconds) t other).2
  = (Cache.getCache cache t other).2
  /\ (Cache.getCache (Cache.getCache cache now key).1 t other).2
     = (Cache.getCache cache t other).2
  /\ (Cache.getCache cache now key).1 !! other = cache !! other.
Proof.
  intros Hne.
  assert ((Cache.getCache cache now key).1 !! other = cache !! other) as Hget.
  { unfold Cache.getCache. destruct (cache !! key) as [item|]; [|reflexivity].
    destruct (bool_decide _); simpl; [|reflexivity].
    apply lookup_delete_ne. done. }
  split; [|split; [|exact Hget]].
  - unfold Cache.getCache, Cache.setCache.
    rewrite lookup_insert_ne by done.
    destruct (cache !! other) as [item|]; [|reflexivity].
    destruct (bool_decide _); reflexivity.
  - unfold Cache.getCache at 1 3. rewrite Hget.
    destruct (cache !! other) as [item|]; [|reflexivity].
    destruct (bool_decide _); reflexivity.
Qed.

Lemma cache_keys_are_independent_witness :
  (Cache.getCache (Cache.setCache (∅ : Cache.t nat) 0 "markets:all:100:0" 1%nat 300)
     10 "sentiment:FED:all:all:100").2
  = (Cache.getCache (∅ : Cache.t nat) 10 "sentiment:FED:all:all:100").2.
Proof.
  apply (cache_keys_are_independent (∅ : Cache.t nat) 0 10 "markets:all:100:0"
           "sentiment:FED:all:all:100" 1%nat 300).
  discriminate.
Defined.

(** X9: clearing.  [clearCachePattern] removes exactly the entries whose key
    contains the pattern, wherever it starts, and keeps the others as they
    are; with the empty pattern it removes everything, as [clearCache] does. *)
Theorem clearCachePattern_removes_matching_keys {A : Type} (cache : Cache.t A)
    (pattern key : string) :
  Cache.clearCachePattern cache pattern !! key
  = (if includes pattern key then None else cache !! key)
  /\ (includes pattern key = true
      <-> exists pre post, key = pre +:+ pattern +:+ post)
  /\ Cache.clearCachePattern cache "" = ∅
  /\ Cache.clearCache cache = ∅.
Proof.
  split; [apply clearCachePattern_lookup|].
  split; [apply includes_spec|].
  split; [|apply clearCache_empty].
  apply map_eq. intros k.
  rewrite clearCachePattern_lookup, includes_empty, lookup_empty. reflexivity.
Qed.

(** ** The read routes *)

Section CachedRoute.

Implicit Types (cache : Cache.t Cached) (key : string) (rows : Cached).

Lemma through_cache_fresh cache now key rows :
  list_fromCache (through_cache cache now key rows).2 = Some false ->
  (through_cache cache now key rows).2 = served rows false
  /\ (through_cache cache now key rows).1 !! key
     = Some {| Cache.data := rows; Cache.expiry := (now + 300 * 1000)%Z |}.
Proof.
  unfold through_cache.
  destruct (Cache.getCache cache now key) as [cache1 [cachedData|]]; simpl;
    [discriminate|].
  intros _. split; [reflexivity|]. unfold Cache.setCache. apply lookup_insert_eq.
Qed.

Lemma through_cache_again cache now key rows rows' item :
  cache !! key = Some item ->
  through_cache cache now key rows'
  = if bool_decide (now <= Cache.expiry item)%Z
    then (cache, served (Cache.data item) true)
    else (Cache.setCache (delete key cache) now key rows' 300, served rows' false).
Proof.
  intros Hitem. unfold through_cache, Cache.getCache. rewrite Hitem.
  destruct (decide (now <= Cache.expiry item)%Z).
  - rewrite bool_decide_eq_false_2, bool_decide_eq_true_2 by lia. reflexivity.
  - rewrite bool_decide_eq_true_2, bool_decide_eq_false_2 by lia. reflexivity.
Qed.

End CachedRoute.

Lemma marketsRoute_valid cache d now (query : MarketsQuery) :
  mq_limit query = None -> mq_offset query = None ->
  marketsRoute cache d now query
  = through_cache cache now (markets_key (mq_marketId query) 100 0)
      (MarketRows (latestSnapshots d (mq_marketId query) 100 0)).
Proof.
  intros Hlimit Hoffset. unfold marketsRoute, through_cache.
  rewrite Hlimit, Hoffset. reflexivity.
Qed.

Lemma marketsRoute_invalid cache d now (query : MarketsQuery) :
  is_Some (mq_limit query) \/ is_Some (mq_offset query) ->
  marketsRoute cache d now query = (cache, invalid_parameters).
Proof.
  unfold marketsRoute. intros [[x ->]|[x ->]]; [reflexivity|].
  destruct (mq_limit query); reflexivity.
Qed.

Lemma marketsRoute_cases cache d now (query : MarketsQuery) :
  (mq_limit query = None /\ mq_offset query = None)
  \/ marketsRoute cache d now query = (cache, invalid_parameters).
Proof.
  destruct (mq_limit query) as [x|] eqn:Hl.
  - right. apply marketsRoute_invalid. left. rewrite Hl. eauto.
  - destruct (mq_offset query) as [y|] eqn:Ho.
    + right. apply marketsRoute_invalid. right. rewrite Ho. eauto.
    + left. split; reflexivity.
Qed.

Lemma sentimentRoute_valid cache d now (query : SentimentQuery) :
  sq_limit query = None ->
  sentimentRoute cache d now query
  = through_cache cache now
      (sentiment_key (sq_tag query) (sq_from query) (sq_to query) 100)
      (SentimentRows (sentimentData d (sq_tag query) (sq_from query) (sq_to query)
                        100)).
Proof.
  intros Hlimit. unfold sentimentRoute, through_cache. rewrite Hlimit. reflexivity.
Qed.

Lemma sentimentRoute_invalid cache d now (query : SentimentQuery) :
  is_Some (sq_limit query) ->
  sentimentRoute cache d now query = (cache, invalid_parameters).
Proof. unfold sentimentRoute. intros [x ->]. reflexivity. Qed.

Lemma through_cache_twice cache now later key rows rows' :
  let first := through_cache cache now key rows in
  list_fromCache first.2 = Some false ->
  through_cache first.1 later key rows'
  = if bool_decide (later <= now + 300000)%Z
    then (first.1, served rows true)
    else (Cache.setCache (delete key first.1) later key rows' 300,
          served rows' false).
Proof.
  intros first Hfresh.
  destruct (through_cache_fresh cache now key rows Hfresh) as [_ Hitem].
  fold first in Hitem. rewrite (through_cache_again _ _ _ rows rows' _ Hitem).
  reflexivity.
Qed.

(** X10: [GET /markets] answers from the cache for five minutes.  Once a reply
    has been computed from the store, every request for the same market made
    up to 300000 milliseconds later receives that same list, marked as
    cached, whatever snapshots have arrived in between; the first request
    after that is computed from the store again.  (A computed reply is that
    of a request without limit and offset: they are 100 and 0.) *)
Theorem markets_reply_is_reused_for_five_minutes (cache : Cache.t Cached)
    (d d' : Database) (now later : Z) (query : MarketsQuery) :
  let limit := 100%Z in
  let offset := 0%Z in
  let first := marketsRoute cache d now query in
  let second := marketsRoute first.1 d' later query in
  list_fromCache first.2 = Some false ->
  first.2 = served (MarketRows (latestSnapshots d (mq_marketId query) limit offset))
              false
  /\ second.2
     = if bool_decide (later <= now + 300000)%Z
       then served (MarketRows (latestSnapshots d (mq_marketId query) limit offset))
              true
       else served (MarketRows (latestSnapshots d' (mq_marketId query) limit offset))
              false.
Proof.
  intros limit offset first second Hfresh. subst first second limit offset.
  destruct (marketsRoute_cases cache d now query) as [[Hlimit Hoffset]|Hinvalid].
  - rewrite !marketsRoute_valid in * by assumption.
    split; [apply through_cache_fresh, Hfresh|].
    rewrite through_cache_twice by exact Hfresh.
    destruct (bool_decide _); reflexivity.
  - rewrite Hinvalid in Hfresh. discriminate.
Qed.

(** X11: [GET /sentiment/:tag] answers from the cache for five minutes, in the
    same way, for requests with the same tag and range texts. *)
Theorem sentiment_reply_is_reused_for_five_minutes (cache : Cache.t Cached)
    (d d' : Database) (now later : Z) (query : SentimentQuery) :
  let limit := 100%Z in
  let rows (d : Database) :=
    SentimentRows (sentimentData d (sq_tag query) (sq_from query) (sq_to query)
                     limit) in
  let first := sentimentRoute cache d now query in
  let second := sentimentRoute first.1 d' later query in
  list_fromCache first.2 = Some false ->
  first.2 = served (rows d) false
  /\ second.2
     = if bool_decide (later <= now + 300000)%Z
       then served (rows d) true
       else served (rows d') false.
Proof.
  intros limit rows first second Hfresh. subst first second rows limit.
  destruct (sq_limit query) as [x|] eqn:Hlimit.
  - rewrite sentimentRoute_invalid in Hfresh by (rewrite Hlimit; eauto).
    discriminate.
  - rewrite !sentimentRoute_valid in * by exact Hlimit.
    split; [apply through_cache_fresh, Hfresh|].
    rewrite through_cache_twice by exact Hfresh.
    destruct (bool_decide _); reflexivity.
Qed.

Lemma markets_reply_is_reused_for_five_minutes_witness :
  let query := {| mq_marketId := None; mq_limit := None; mq_offset := None |} in
  let first := marketsRoute ∅ fresh_signals 0 query in
  (marketsRoute first.1 (sample_db 0.9%float 0.9%float 5000) 300000 query).2
  = served (MarketRows (latestSnapshots fresh_signals None 100 0)) true.
Proof.
  exact (proj2 (markets_reply_is_reused_for_five_minutes ∅ fresh_signals
                  (sample_db 0.9%float 0.9%float 5000) 0 300000
                  {| mq_marketId := None; mq_limit := None; mq_offset := None |}
                  eq_refl)).
Defined.

Lemma sentiment_reply_is_reused_for_five_minutes_witness :
  let query := {| sq_tag := "CRYPTO"; sq_from := None; sq_to := None;
                  sq_limit := None |} in
  let first := sentimentRoute ∅ fresh_signals 0 query in
  (sentimentRoute first.1 (sample_db 0.9%float 0.9%float 5000) 300001 query).2
  = served (SentimentRows (sentimentData (sample_db 0.9%float 0.9%float 5000)
                             "CRYPTO" None None 100))
      false.
Proof.
  exact (proj2 (sentiment_reply_is_reused_for_five_minutes ∅ fresh_signals
                  (sample_db 0.9%float 0.9%float 5000) 0 300001
                  {| sq_tag := "CRYPTO"; sq_from := None; sq_to := None;
                     sq_limit := None |}
                  eq_refl)).
Defined.

(** *** What a computed reply lists *)

Lemma distinct_from_first {A} (key : A -> string) (seen : list string) (l : list A) x :
  x ∈ distinct_from key seen l ->
  exists l1 l2, l = l1 ++ x :: l2 /\ (key x ∉ (key <$> l1)) /\ (key x ∉ seen).
Proof.
  revert seen. induction l as [|y l IH]; intros seen; simpl.
  - intros H. apply elem_of_nil in H. done.
  - destruct (decide (key y ∈ seen)) as [Hin|Hnotin].
    + rewrite bool_decide_eq_true_2 by exact Hin. intros H.
      destruct (IH _ H) as (l1 & l2 & -> & Hl1 & Hseen).
      exists (y :: l1), l2. split; [reflexivity|]. split; [|exact Hseen].
      rewrite fmap_cons, not_elem_of_cons. split; [|exact Hl1].
      intros Heq. rewrite Heq in Hseen. done.
    + rewrite bool_decide_eq_false_2 by exact Hnotin. intros H.
      apply elem_of_cons in H as [->|H].
      * exists [], l. split; [reflexivity|]. split; [|exact Hnotin].
        rewrite fmap_nil. apply not_elem_of_nil.
      * destruct (IH _ H) as (l1 & l2 & -> & Hl1 & Hseen).
        apply not_elem_of_cons in Hseen as [Hne Hseen].
        exists (y :: l1), l2. split; [reflexivity|]. split; [|exact Hseen].
        rewrite fmap_cons, not_elem_of_cons. split; [|exact Hl1].
        exact Hne.
Qed.

Lemma distinct_from_NoDup {A} (key : A -> string) (seen : list string) (l : list A) :
  NoDup (key <$> distinct_from key seen l).
Proof.
  revert seen. induction l as [|y l IH]; intros seen; simpl.
  - constructor.
  - destruct (bool_decide (key y ∈ seen)); [apply IH|].
    rewrite fmap_cons. constructor; [|apply IH].
    rewrite distinct_from_keys. intros [_ H]. apply H. left.
Qed.

Lemma distinct_sorted_latest (l : list MarketSnapshot) (m m' : MarketSnapshot) :
  m ∈ distinct_by ms_marketId
        (sort_by (fun a b => (ms_timestamp b <=? ms_timestamp a)%Z) l) ->
  m' ∈ l -> ms_marketId m' = ms_marketId m ->
  m ∈ l /\ (ms_timestamp m' <= ms_timestamp m)%Z.
Proof.
  intros Hm Hm' Hkey.
  destruct (distinct_from_first _ _ _ _ Hm) as (l1 & l2 & Hsplit & Hl1 & _).
  assert (StronglySorted (fun a b => (ms_timestamp b <=? ms_timestamp a)%Z = true)
            (sort_by (fun a b => (ms_timestamp b <=? ms_timestamp a)%Z) l))
    as Hsorted by (apply sort_by_sorted; intros; lia).
  rewrite Hsplit in Hsorted.
  assert (m ∈ l) as Hin.
  { apply (elem_of_sort_by (fun a b => (ms_timestamp b <=? ms_timestamp a)%Z)).
    rewrite Hsplit. apply elem_of_app. right. left. }
  split; [exact Hin|].
  apply (elem_of_sort_by (fun a b => (ms_timestamp b <=? ms_timestamp a)%Z)) in Hm'.
  rewrite Hsplit in Hm'. apply elem_of_app in Hm' as [Hm'|Hm'].
  - exfalso. apply Hl1. rewrite <- Hkey. apply list_elem_of_fmap. eauto.
  - apply elem_of_cons in Hm' as [->|Hm']; [lia|].
    apply StronglySorted_app_1_r in Hsorted.
    apply StronglySorted_inv in Hsorted as [_ Hall].
    rewrite Forall_forall in Hall. apply Z.leb_le, Hall, Hm'.
Qed.

(** X12: what [GET /markets] lists.  A reply computed from the store holds at
    most 100 rows and at most one row per market; every row is a stored
    snapshot of the market asked for, if one was asked for, and no stored
    snapshot of the same market is newer. *)
Theorem markets_reply_lists_latest_snapshots (cache : Cache.t Cached) (d : Database)
    (now : Z) (query : MarketsQuery) (rows : list MarketSnapshot) :
  (marketsRoute cache d now query).2 = served (MarketRows rows) false ->
  (Z.of_nat (length rows) <= 100)%Z
  /\ NoDup (ms_marketId <$> rows)
  /\ forall m, m ∈ rows ->
       m ∈ marketSnapshot d
       /\ (forall id, truthy (mq_marketId query) = Some id -> ms_marketId m = id)
       /\ forall m', m' ∈ marketSnapshot d -> ms_marketId m' = ms_marketId m ->
            (ms_timestamp m' <= ms_timestamp m)%Z.
Proof.
  intros Hreply.
  destruct (marketsRoute_cases cache d now query) as [[Hlimit Hoffset]|Hinvalid];
    [|rewrite Hinvalid in Hreply; discriminate].
  rewrite marketsRoute_valid in Hreply by assumption.
  assert (list_fromCache
            (through_cache cache now (markets_key (mq_marketId query) 100 0)
               (MarketRows (latestSnapshots d (mq_marketId query) 100 0))).2
          = Some false)
    as Hfresh by (rewrite Hreply; reflexivity).
  apply through_cache_fresh in Hfresh as [Hfresh _].
  rewrite Hfresh in Hreply. injection Hreply as <-.
  unfold latestSnapshots.
  set (matching := match truthy (mq_marketId query) with
                   | Some id => filter (fun m => ms_marketId m = id) (marketSnapshot d)
                   | None => marketSnapshot d
                   end).
  set (all := distinct_by ms_marketId
                (sort_by (fun a b => (ms_timestamp b <=? ms_timestamp a)%Z) matching)).
  split; [|split].
  - rewrite length_take. lia.
  - apply (sublist_NoDup _ (ms_marketId <$> all));
      [apply (distinct_from_NoDup ms_marketId [])|].
    apply fmap_sublist. etrans; [apply sublist_take|apply sublist_drop].
  - intros m Hm.
    assert (m ∈ all) as Hall.
    { eapply elem_of_sublist; [exact Hm|].
      etrans; [apply sublist_take|apply sublist_drop]. }
    assert (forall m', m' ∈ matching -> ms_marketId m' = ms_marketId m ->
              m ∈ matching /\ (ms_timestamp m' <= ms_timestamp m)%Z) as Hlatest.
    { intros m'. apply distinct_sorted_latest. exact Hall. }
    assert (m ∈ matching) as Hin.
    { destruct (distinct_from_first _ _ _ _ Hall) as (l1 & l2 & Hsplit & _).
      apply (elem_of_sort_by (fun a b => (ms_timestamp b <=? ms_timestamp a)%Z)).
      rewrite Hsplit. apply elem_of_app. right. left. }
    subst matching. destruct (truthy (mq_marketId query)) as [id|].
    + apply list_elem_of_filter in Hin as [Hid Hin].
      split; [exact Hin|]. split; [intros ? [= <-]; exact Hid|].
      intros m' Hm' Hkey. apply Hlatest; [|exact Hkey].
      apply list_elem_of_filter. split; [congruence|exact Hm'].
    + split; [exact Hin|]. split; [discriminate|].
      intros m' Hm' Hkey. apply Hlatest; assumption.
Qed.

Lemma markets_reply_lists_latest_snapshots_witness :
  let d :=
    ingest_market fresh_signals
      {| ms_marketId := "CRYPTO_BTC"; ms_timestamp := 1500;
         ms_probability := 0.7%float |} in
  let rows :=
    [ {| ms_marketId := "CRYPTO_BTC"; ms_timestamp := 1500;
         ms_probability := 0.7%float |} ] in
  (Z.of_nat (length rows) <= 100)%Z
  /\ NoDup (ms_marketId <$> rows)
  /\ forall m, m ∈ rows ->
       m ∈ marketSnapshot d
       /\ (forall id, truthy (Some "CRYPTO_BTC") = Some id -> ms_marketId m = id)
       /\ forall m', m' ∈ marketSnapshot d -> ms_marketId m' = ms_marketId m ->
            (ms_timestamp m' <= ms_timestamp m)%Z.
Proof.
  intros d rows.
  apply (markets_reply_lists_latest_snapshots ∅ d 0
           {| mq_marketId := Some "CRYPTO_BTC"; mq_limit := None;
              mq_offset := None |} rows).
  vm_compute. reflexivity.
Defined.

(** ** Retrying *)

Section Scripted.

Context {A : Type} (script : Retry.Script A).
Context (maxAttempts : Z) (baseDelay : Js.number).

#[local] Abbreviation loop turns attempt lastError w :=
  (Retry.attempts (Retry.scripted_fn script) (Retry.scripted_random script)
     Retry.scripted_sleep turns maxAttempts baseDelay attempt lastError w).

Lemma attempts_success (turns : nat) (attempt : Z) (lastError : option string)
    (c : nat) (sl : list Js.number) (a : A) :
  Retry.outcome script c = inl a ->
  loop (S turns) attempt lastError {| Retry.calls := c; Retry.slept := sl |}
  = ({| Retry.calls := S c; Retry.slept := sl |}, Retry.Fulfilled a).
Proof.
  intros Hok. cbn [Retry.attempts].
  change (Retry.scripted_fn script {| Retry.calls := c; Retry.slept := sl |})
    with ({| Retry.calls := S c; Retry.slept := sl |}, Retry.outcome script c).
  rewrite Hok. reflexivity.
Qed.

Lemma attempts_last (turns : nat) (lastError : option string)
    (c : nat) (sl : list Js.number) (e : Retry.Caught) :
  Retry.outcome script c = inr e ->
  loop (S turns) maxAttempts lastError {| Retry.calls := c; Retry.slept := sl |}
  = ({| Retry.calls := S c; Retry.slept := sl |},
     Retry.Rejected (Retry.AnError (Retry.lastError_of e))).
Proof.
  intros He. cbn [Retry.attempts].
  change (Retry.scripted_fn script {| Retry.calls := c; Retry.slept := sl |})
    with ({| Retry.calls := S c; Retry.slept := sl |}, Retry.outcome script c).
  rewrite He, bool_decide_eq_true_2 by reflexivity. reflexivity.
Qed.

Lemma attempts_again (turns : nat) (attempt : Z) (lastError : option string)
    (c : nat) (sl : list Js.number) (e : Retry.Caught) :
  Retry.outcome script c = inr e ->
  attempt <> maxAttempts ->
  loop (S turns) attempt lastError {| Retry.calls := c; Retry.slept := sl |}
  = loop turns (attempt + 1)%Z (Some (Retry.lastError_of e))
      {| Retry.calls := S c;
         Retry.slept :=
           sl ++ [Retry.backoff baseDelay attempt (Retry.draw script (length sl))] |}.
Proof.
  intros He Hne. cbn [Retry.attempts].
  change (Retry.scripted_fn script {| Retry.calls := c; Retry.slept := sl |})
    with ({| Retry.calls := S c; Retry.slept := sl |}, Retry.outcome script c).
  rewrite He, bool_decide_eq_false_2 by exact Hne. reflexivity.
Qed.

Lemma backoffs_S (c : nat) :
  Retry.backoffs script baseDelay c
  ++ [Retry.backoff baseDelay (Z.of_nat c + 1)
        (Retry.draw script (length (Retry.backoffs script baseDelay c)))]
  = Retry.backoffs script baseDelay (S c).
Proof.
  unfold Retry.backoffs. rewrite length_fmap, length_seq.
  rewrite seq_S, fmap_app. reflexivity.
Qed.

(** From the state with [c] calls made, [k] more failed calls that are not
    the last allowed. *)
Lemma attempts_failures (k : nat) : forall (turns : nat) (c : nat)
    (lastError : option string),
  (forall i, c <= i < c + k -> exists e, Retry.outcome script i = inr e) ->
  (Z.of_nat c + Z.of_nat k < maxAttempts)%Z ->
  k <= turns ->
  exists lastError',
    loop turns (Z.of_nat c + 1)%Z lastError
      {| Retry.calls := c; Retry.slept := Retry.backoffs script baseDelay c |}
    = loop (turns - k) (Z.of_nat (c + k) + 1)%Z lastError'
        {| Retry.calls := c + k;
           Retry.slept := Retry.backoffs script baseDelay (c + k) |}.
Proof.
  induction k as [|k IH]; intros turns c lastError Hfail Hmax Hturns.
  - exists lastError. rewrite Nat.sub_0_r, Nat.add_0_r. reflexivity.
  - destruct turns as [|turns]; [lia|].
    destruct (Hfail c ltac:(lia)) as [e He].
    rewrite (attempts_again _ _ _ _ _ e He) by lia. rewrite backoffs_S.
    destruct (IH turns (S c) (Some (Retry.lastError_of e))) as [lastError' IH'];
      [intros i Hi; apply Hfail; lia|lia|lia|].
    exists lastError'.
    replace (Z.of_nat c + 1 + 1)%Z with (Z.of_nat (S c) + 1)%Z by lia.
    rewrite IH'. replace (S c + k) with (c + S k) by lia.
    replace (S turns - S k) with (turns - k) by lia. reflexivity.
Qed.

End Scripted.



(** X14: [retry] gives up after [maxAttempts] calls.  If the first
    [maxAttempts] calls of [fn] fail, [retry] throws the error of the last of
    them, made into an [Error], after exactly [maxAttempts] calls and
    [maxAttempts - 1] sleeps: it does not sleep after the last attempt.  With
    [maxAttempts] zero or negative it throws [undefined] without calling
    [fn]. *)
Theorem retry_throws_last_error {A : Type} (script : Retry.Script A)
    (maxAttempts : Z) (baseDelay : Js.number) :
  (forall i, (Z.of_nat i < maxAttempts)%Z -> exists e, Retry.outcome script i = inr e) ->
  Retry.scripted_retry script maxAttempts baseDelay
  = match Z.to_nat maxAttempts with
    | O => ({| Retry.calls := 0; Retry.slept := [] |}, Retry.Rejected Retry.Undefined)
    | S n =>
        ({| Retry.calls := S n; Retry.slept := Retry.backoffs script baseDelay n |},
         Retry.Rejected
           match Retry.outcome script n with
           | inr e => Retry.AnError (Retry.lastError_of e)
           | inl _ => Retry.Undefined
           end)
    end.
Proof.
  intros Hfail. unfold Retry.scripted_retry, Retry.retry.
  destruct (Z.to_nat maxAttempts) as [|n] eqn:Hn; [reflexivity|].
  destruct (attempts_failures script maxAttempts baseDelay n (S n) 0 None)
    as [lastError' H]; [intros i Hi; apply Hfail; lia|lia|lia|].
  change (Z.of_nat 0 + 1)%Z with 1%Z in H.
  change (Retry.backoffs script baseDelay 0) with (@nil Js.number) in H.
  rewrite H. simpl (0 + n). replace (S n - n) with 1 by lia.
  destruct (Hfail n ltac:(lia)) as [e He]. rewrite He.
  replace (Z.of_nat n + 1)%Z with maxAttempts by lia.
  apply attempts_last, He.
Qed.

Lemma retry_throws_last_error_witness :
  Retry.scripted_retry Retry.sample_script 2 1000%float
  = ({| Retry.calls := 2;
        Retry.slept := Retry.backoffs Retry.sample_script 1000%float 1 |},
     Retry.Rejected (Retry.AnError "timeout")).
Proof.
  apply (retry_throws_last_error Retry.sample_script 2 1000%float).
  intros i Hi. exists (Retry.ErrorObject "timeout").
  destruct i as [|[|i]]; [reflexivity|reflexivity|lia].
Defined.

(** ** The Aptos client *)

Section AptosClient.

Context (C : Aptos.Client).

Lemma submit_step (fuel : nat) (node : Aptos.Node C) (paused : Z) (admin : string)
    functionId typeArgs args :
  Aptos.getAdminAccount C = Returned admin ->
  Aptos.submitEntryFunction C (S fuel) node paused functionId typeArgs args
  = let answer := Aptos.answer C 0 node admin functionId typeArgs args in
    let node1 := Aptos.node_after C 1 node admin functionId typeArgs args in
    if Aptos.ends answer
    then Some (node1, paused, Returned (Aptos.result_of answer))
    else Aptos.submitEntryFunction C fuel node1 (paused + 10000)%Z
           functionId typeArgs args.
Proof.
  intros Hadmin. cbn [Aptos.submitEntryFunction]. rewrite Hadmin.
  unfold Aptos.answer, Aptos.node_after. cbv zeta.
  destruct (Aptos.attempt C node admin functionId typeArgs args)
    as [node1 [hash|error]]; simpl; [reflexivity|].
  destruct (Aptos.rate_limited error); reflexivity.
Qed.

Lemma node_after_S (n : nat) (node : Aptos.Node C) admin functionId typeArgs args :
  Aptos.node_after C (S n) node admin functionId typeArgs args
  = Aptos.node_after C n
      (Aptos.node_after C 1 node admin functionId typeArgs args)
      admin functionId typeArgs args.
Proof. reflexivity. Qed.

Lemma answer_S (n : nat) (node : Aptos.Node C) admin functionId typeArgs args :
  Aptos.answer C (S n) node admin functionId typeArgs args
  = Aptos.answer C n (Aptos.node_after C 1 node admin functionId typeArgs args)
      admin functionId typeArgs args.
Proof. reflexivity. Qed.

Lemma submit_after_rate_limits (k : nat) : forall (fuel : nat) (node : Aptos.Node C)
    (paused : Z) (admin : string) functionId typeArgs args,
  Aptos.getAdminAccount C = Returned admin ->
  (forall i, i < k ->
     Aptos.ends (Aptos.answer C i node admin functionId typeArgs args) = false) ->
  Aptos.ends (Aptos.answer C k node admin functionId typeArgs args) = true ->
  k < fuel ->
  Aptos.submitEntryFunction C fuel node paused functionId typeArgs args
  = Some (Aptos.node_after C (S k) node admin functionId typeArgs args,
          (paused + 10000 * Z.of_nat k)%Z,
          Returned (Aptos.result_of
                      (Aptos.answer C k node admin functionId typeArgs args))).
Proof.
  induction k as [|k IH]; intros fuel node paused admin functionId typeArgs args
    Hadmin Hlimits Hends Hfuel;
    (destruct fuel as [|fuel]; [lia|]); rewrite (submit_step _ _ _ admin) by done;
    cbv zeta.
  - rewrite Hends. replace (paused + 10000 * Z.of_nat 0)%Z with paused by lia.
    reflexivity.
  - rewrite (Hlimits 0) by lia.
    rewrite (IH fuel _ _ admin); [| done | | | lia].
    + rewrite <- node_after_S, <- answer_S.
      replace (paused + 10000 + 10000 * Z.of_nat k)%Z
        with (paused + 10000 * Z.of_nat (S k))%Z by lia.
      reflexivity.
    + intros i Hi. rewrite <- answer_S. apply Hlimits. lia.
    + rewrite <- answer_S. exact Hends.
Qed.

End AptosClient.

(** X15: [submitEntryFunction] retries for as long as the node reports a rate
    limit.  If the first [k] attempts fail with an error that mentions [429]
    or whose message mentions [limit], and the next attempt succeeds or fails
    otherwise, the function waits ten seconds after each of the [k] errors,
    makes [k + 1] attempts in all, and returns the outcome of the last one:
    success with its transaction hash, or failure with the message of the
    error.  There is no bound on [k]. *)
Theorem submit_retries_while_rate_limited (C : Aptos.Client) (k fuel : nat)
    (node : Aptos.Node C) (paused : Z) (admin functionId : string)
    (typeArgs : list string) (args : list EntryArg) :
  Aptos.getAdminAccount C = Returned admin ->
  (forall i, i < k ->
     exists error,
       Aptos.answer C i node admin functionId typeArgs args = inr error
       /\ Aptos.rate_limited error = true) ->
  Aptos.ends (Aptos.answer C k node admin functionId typeArgs args) = true ->
  k < fuel ->
  Aptos.submitEntryFunction C fuel node paused functionId typeArgs args
  = Some (Aptos.node_after C (S k) node admin functionId typeArgs args,
          (paused + 10000 * Z.of_nat k)%Z,
          Returned (Aptos.result_of
                      (Aptos.answer C k node admin functionId typeArgs args))).
Proof.
  intros Hadmin Hlimits Hends Hfuel.
  apply submit_after_rate_limits; try done.
  intros i Hi. destruct (Hlimits i Hi) as (error & -> & Hlimited).
  simpl. rewrite Hlimited. reflexivity.
Qed.

Lemma submit_retries_while_rate_limited_witness :
  Aptos.submitEntryFunction Aptos.sample_client 5 (2 : Aptos.Node Aptos.sample_client)
    0 "0xcafe::strategy::execute_strategy" [] []
  = Some (0 : Aptos.Node Aptos.sample_client, 20000%Z,
          Returned {| sr_success := true; sr_txHash := "0xhash"; sr_error := None |}).
Proof.
  apply (submit_retries_while_rate_limited Aptos.sample_client 2 5
           (2 : Aptos.Node Aptos.sample_client) 0 "abc"
           "0xcafe::strategy::execute_strategy" [] []).
  - reflexivity.
  - intros i Hi. destruct i as [|[|i]]; [| |lia];
      (eexists; split; [reflexivity|vm_compute; reflexivity]).
  - reflexivity.
  - lia.
Defined.



(** ** When the client throws, and when it is not configured *)

Section Failures.

Context (E : Env).

Lemma executeRoute_found (w : World E) (id : string) (s : Strategy)
    (m : MarketSnapshot) (t : SentimentSnapshot) :
  strategy (db w) !! id = Some s ->
  status s = ACTIVE ->
  latestMarketSnapshot (db w) (marketId s) = Some m ->
  latestSentimentSnapshot (db w) (sentimentTag s) = Some t ->
  let params := execution_of id s (ms_probability m) (ss_score t) in
  let called := executeStrategyViaMCP E (chain w) params in
  let w3 := {| db := db w; chain := called.1; now := now w;
               events := events w ++ [MarketSnapshotLookup id (marketId s)]
                         ++ [SentimentSnapshotLookup id (sentimentTag s)]
                         ++ [SettlementExecute params] |} in
  executeRoute E w id
  = match called.2 with
    | Returned executionResult =>
        (with_db E w3
           (create_log
              (if success executionResult
               then update_strategy (db w) id
                      (set_executed (now w) (txHash executionResult))
               else db w)
              {| log_strategyId := id; log_timestamp := now w;
                 log_success := success executionResult;
                 log_txHash := txHash executionResult;
                 log_reason := reason executionResult |}),
         {| code := 200; reply_success := true; reply_error := None;
            reply_result := Some executionResult |})
    | Thrown _ => (w3, failure_reply 500 "Failed to execute strategy")
    end.
Proof.
  intros Hs Hactive Hm Ht params called w3. subst w3 called.
  unfold executeRoute.
  rewrite Hs. rewrite bool_decide_eq_false_2 by (rewrite Hactive; auto).
  rewrite Hm. cbn [db emit]. rewrite Ht. cbn [chain emit].
  fold params.
  destruct (executeStrategyViaMCP E (chain w) params) as [c [r|msg]]; cbn [fst snd].
  - destruct (success r) eqn:Hr;
      unfold with_db, with_chain, emit, log_of; simpl; rewrite ?Hr;
      rewrite <- !app_assoc; reflexivity.
  - unfold with_db, with_chain, emit; simpl. rewrite <- !app_assoc. reflexivity.
Qed.


Lemma latest_give_decision (w : World E) (id : string) (s : Strategy)
    (m : MarketSnapshot) (t : SentimentSnapshot) :
  latestMarketSnapshot (db w) (marketId s) = Some m ->
  latestSentimentSnapshot (db w) (sentimentTag s) = Some t ->
  let decision := (shouldExecuteStrategy E w (id, s)).2 in
  Decision.shouldExecute decision
  = Js.ge (ms_probability m) (minPredictionProb s)
    && Js.ge (ss_score t) (minSentimentScore s)
  /\ Decision.probability decision = ms_probability m
  /\ Decision.sentiment decision = ss_score t.
Proof. intros Hm Ht. apply shouldExecuteStrategy_found; assumption. Qed.

End Failures.

(** X17: the manual route checks the status, and nothing else.  For an ACTIVE
    strategy with a market and a sentiment snapshot, [POST /execute] sends the
    converted latest values to the settlement client whatever the thresholds
    and the expiry of the strategy are, and when the client reports success it
    sets the status to EXECUTED, the time of execution to the present and the
    transaction hash to the reported one, the other columns staying as they
    are; on the same data the engine makes no call when a threshold is not
    met. *)
Theorem manual_execution_checks_status_only (E : Env) (w : World E) (id : string)
    (s : Strategy) (m : MarketSnapshot) (t : SentimentSnapshot) :
  strategy (db w) !! id = Some s ->
  status s = ACTIVE ->
  latestMarketSnapshot (db w) (marketId s) = Some m ->
  latestSentimentSnapshot (db w) (sentimentTag s) = Some t ->
  let params := {| ep_strategyId := id; ep_marketId := marketId s;
                   ep_probBps := probToBps (ms_probability m);
                   ep_sentimentBps := sentimentToBps (ss_score t) |} in
  let routed := (executeRoute E w id).1 in
  events routed
  = events w ++ [MarketSnapshotLookup id (marketId s)]
    ++ [SentimentSnapshotLookup id (sentimentTag s)] ++ [SettlementExecute params]
  /\ (forall c tx,
        executeStrategyViaMCP E (chain w) params
        = (c, Returned {| success := true; txHash := tx; reason := None |}) ->
        strategy (db routed) !! id
        = Some {| ownerAddress := ownerAddress s; marketId := marketId s;
                  sentimentTag := sentimentTag s;
                  minPredictionProb := minPredictionProb s;
                  minSentimentScore := minSentimentScore s;
                  notionalAmount := notionalAmount s;
                  maxSlippageBps := maxSlippageBps s;
                  expiryTimestamp := expiryTimestamp s; status := EXECUTED;
                  lastExecutedAt := Some (now w); lastTxHash := tx |}
        /\ status <$> strategy (db routed) !! id = Some EXECUTED)
  /\ (Js.ge (ms_probability m) (minPredictionProb s)
      && Js.ge (ss_score t) (minSentimentScore s) = false ->
      events (executeStrategy E w (id, s))
      = events w ++ [MarketSnapshotLookup id (marketId s)]
        ++ [SentimentSnapshotLookup id (sentimentTag s)]
      /\ db (executeStrategy E w (id, s)) = db w).
Proof.
  intros Hs Hactive Hm Ht params routed. subst routed.
  rewrite (executeRoute_found E w id s m t Hs Hactive Hm Ht). cbv zeta.
  change (execution_of id s (ms_probability m) (ss_score t)) with params.
  split; [|split].
  - destruct (executeStrategyViaMCP E (chain w) params) as [c [r|msg]]; reflexivity.
  - intros c tx Hcall. rewrite Hcall. simpl.
    unfold update_strategy. simpl. rewrite lookup_alter_eq, Hs.
    split; reflexivity.
  - intros Hnot.
    destruct (latest_give_decision E w id s m t Hm Ht) as (Hdecision & _ & _).
    rewrite Hnot in Hdecision.
    rewrite (executeStrategy_skip E w id s Hdecision). simpl.
    rewrite <- app_assoc. done.
Qed.

(** X18: an exception of the client is logged by the engine and lost by the
    manual route.  When the settlement call throws, the engine appends a
    failed log entry whose reason is [Execution error: ] followed by the
    message, and leaves the strategy as it is; [POST /execute] replies 500
    and writes nothing to the store. *)
Theorem client_exception_is_logged_by_the_engine_only (E : Env) (w : World E)
    (id : string) (s : Strategy) (m : MarketSnapshot) (t : SentimentSnapshot)
    (c : Chain E) (message : string) :
  strategy (db w) !! id = Some s ->
  status s = ACTIVE ->
  latestMarketSnapshot (db w) (marketId s) = Some m ->
  latestSentimentSnapshot (db w) (sentimentTag s) = Some t ->
  Js.ge (ms_probability m) (minPredictionProb s) = true ->
  Js.ge (ss_score t) (minSentimentScore s) = true ->
  executeStrategyViaMCP E (chain w)
    (execution_of id s (ms_probability m) (ss_score t)) = (c, Thrown message) ->
  db (executeStrategy E w (id, s))
  = create_log (db w)
      {| log_strategyId := id; log_timestamp := now w; log_success := false;
         log_txHash := None;
         log_reason := Some ("Execution error: " +:+ message) |}
  /\ strategy (db (executeStrategy E w (id, s))) !! id = Some s
  /\ db (executeRoute E w id).1 = db w
  /\ (executeRoute E w id).2 = failure_reply 500 "Failed to execute strategy".
Proof.
  intros Hs Hactive Hm Ht Hp Hsent Hcall.
  destruct (latest_give_decision E w id s m t Hm Ht) as (Hdecision & Hprob & Hscore).
  rewrite Hp, Hsent in Hdecision. simpl in Hdecision.
  pose proof (executeStrategy_fire E w id s Hdecision) as Hfire. cbv zeta in Hfire.
  rewrite Hprob, Hscore, Hcall in Hfire. simpl in Hfire.
  rewrite (executeRoute_found E w id s m t Hs Hactive Hm Ht). cbv zeta.
  rewrite Hcall, Hfire. simpl. done.
Qed.

Lemma manual_execution_checks_status_only_witness :
  let w := sample_world devnet registered_once 0.1%float (-0.5)%float 1000 2000 in
  events (executeRoute devnet w "s1").1
  = [ MarketSnapshotLookup "s1" "CRYPTO_BTC"; SentimentSnapshotLookup "s1" "CRYPTO";
      SettlementExecute {| ep_strategyId := "s1"; ep_marketId := "CRYPTO_BTC";
                           ep_probBps := probToBps 0.1;
                           ep_sentimentBps := sentimentToBps (-0.5) |} ]
  /\ strategy (db (executeRoute devnet w "s1").1) !! "s1"
     = Some {| ownerAddress := "0x_ADMIN_WALLET"; marketId := "CRYPTO_BTC";
               sentimentTag := "CRYPTO"; minPredictionProb := 0.5%float;
               minSentimentScore := 0.0%float; notionalAmount := 50.0%float;
               maxSlippageBps := 100; expiryTimestamp := 1000; status := EXECUTED;
               lastExecutedAt := Some 2000%Z; lastTxHash := Some "0xes1" |}
  /\ status <$> strategy (db (executeRoute devnet w "s1").1) !! "s1" = Some EXECUTED
  /\ events (executeStrategy devnet w ("s1", sample_strategy 1000))
     = [ MarketSnapshotLookup "s1" "CRYPTO_BTC"; SentimentSnapshotLookup "s1" "CRYPTO" ].
Proof.
  intros w.
  destruct (manual_execution_checks_status_only devnet w
              "s1" (sample_strategy 1000)
              {| ms_marketId := "CRYPTO_BTC"; ms_timestamp := 1000;
                 ms_probability := 0.1%float |}
              {| ss_tag := "CRYPTO"; ss_timestamp := 900;
                 ss_score := (-0.5)%float |}
              eq_refl eq_refl eq_refl eq_refl) as (H1 & H2 & H3).
  split; [exact H1|].
  destruct (H2 (executeStrategyViaMCP devnet (chain w)
                  {| ep_strategyId := "s1"; ep_marketId := "CRYPTO_BTC";
                     ep_probBps := probToBps 0.1;
                     ep_sentimentBps := sentimentToBps (-0.5) |}).1
               (Some "0xes1") ltac:(vm_compute; reflexivity)) as [H4 H5].
  split; [exact H4|]. split; [exact H5|].
  exact (proj1 (H3 ltac:(vm_compute; reflexivity))).
Defined.

Lemma client_exception_is_logged_by_the_engine_only_witness :
  let w := sample_world keyless tt 0.6%float 0.1%float 5000 2000 in
  db (executeStrategy keyless w ("s1", sample_strategy 5000))
  = create_log (db w)
      {| log_strategyId := "s1"; log_timestamp := 2000; log_success := false;
         log_txHash := None;
         log_reason := Some "Execution error: ADMIN_PRIVATE_KEY missing in .env" |}.
Proof.
  exact (proj1 (client_exception_is_logged_by_the_engine_only keyless
                  (sample_world keyless tt 0.6%float 0.1%float 5000 2000)
                  "s1" (sample_strategy 5000)
                  {| ms_marketId := "CRYPTO_BTC"; ms_timestamp := 1000;
                     ms_probability := 0.6%float |}
                  {| ss_tag := "CRYPTO"; ss_timestamp := 900;
                     ss_score := 0.1%float |}
                  tt "ADMIN_PRIVATE_KEY missing in .env"
                  eq_refl eq_refl eq_refl eq_refl eq_refl eq_refl eq_refl)).
Defined.

(** ** A backend without a module address *)


Section Unconfigured.

Context (E : Env).
Hypothesis unset : truthy (APTOS_MODULE_ADDRESS E) = None.

#[local] Abbreviation why := "APTOS_MODULE_ADDRESS missing".

Lemma nothing_settled_refl (w : World E) : nothing_settled why w w.
Proof.
  split; [reflexivity|]. split; [auto|].
  exists []. rewrite app_nil_r. split; [reflexivity|constructor].
Qed.

Lemma nothing_settled_same (w w' : World E) :
  chain w' = chain w ->
  strategy (db w') = strategy (db w) ->
  executionLog (db w') = executionLog (db w) ->
  nothing_settled why w w'.
Proof.
  intros Hc Hs Hl. split; [exact Hc|]. rewrite Hs, Hl. split; [auto|].
  exists []. rewrite app_nil_r. split; [reflexivity|constructor].
Qed.

Lemma nothing_settled_trans (w1 w2 w3 : World E) :
  nothing_settled why w1 w2 -> nothing_settled why w2 w3 -> nothing_settled why w1 w3.
Proof.
  intros (Hc1 & Hs1 & l1 & Hl1 & Hf1) (Hc2 & Hs2 & l2 & Hl2 & Hf2).
  split; [congruence|]. split; [auto|].
  exists (l1 ++ l2). rewrite Hl2, Hl1, app_assoc. split; [reflexivity|].
  apply Forall_app. done.
Qed.

Lemma unset_execute (c : Chain E) (params : ExecuteParams) :
  executeStrategyViaMCP E c params
  = (c, Returned {| success := false; txHash := None; reason := Some why |}).
Proof. unfold executeStrategyViaMCP. rewrite unset. reflexivity. Qed.

Lemma unset_executeStrategy (w : World E) strat :
  nothing_settled why w (executeStrategy E w strat).
Proof.
  destruct strat as [id s].
  destruct (Decision.shouldExecute (shouldExecuteStrategy E w (id, s)).2) eqn:Hd.
  - rewrite (executeStrategy_fire E w id s Hd). cbv zeta.
    rewrite unset_execute. simpl.
    split; [reflexivity|]. split; [auto|].
    eexists. split; [reflexivity|]. repeat constructor.
  - rewrite (executeStrategy_skip E w id s Hd). apply nothing_settled_same; reflexivity.
Qed.

Lemma unset_engineStep (w : World E) strat :
  nothing_settled why w (engineStep E w strat).
Proof.
  unfold engineStep. destruct (bool_decide _).
  - split; [reflexivity|]. split.
    + intros id s' Hs' Hexecuted. simpl in Hs'.
      destruct (decide (id = strat.1)) as [->|Hne].
      * rewrite lookup_alter_eq in Hs'.
        destruct (strategy (db w) !! strat.1) as [s0|]; [|discriminate].
        injection Hs' as <-. discriminate.
      * rewrite lookup_alter_ne in Hs' by done. exact Hs'.
    + exists []. rewrite app_nil_r. split; [reflexivity|constructor].
  - destruct (unset_executeStrategy w strat) as (Hc & Hs & Hl).
    split; [exact Hc|]. split; [exact Hs|exact Hl].
Qed.

Lemma unset_sweep (l : list (string * Strategy)) (w : World E) :
  nothing_settled why w (foldl (engineStep E) w l).
Proof.
  revert w. induction l as [|strat l IH]; intros w; simpl.
  - apply nothing_settled_refl.
  - eapply nothing_settled_trans; [apply unset_engineStep|apply IH].
Qed.

Lemma unset_engine (w : World E) :
  nothing_settled why w (runStrategyExecutionEngine E w).
Proof.
  rewrite run_eq. destruct (discovery_checks _ _).
  - apply nothing_settled_refl.
  - apply unset_sweep.
Qed.

Lemma unset_route (w : World E) (strategyId : string) :
  nothing_settled why w (executeRoute E w strategyId).1.
Proof.
  unfold executeRoute.
  destruct (strategy (db w) !! strategyId) as [s|]; [|apply nothing_settled_refl].
  destruct (bool_decide (status s <> ACTIVE)); [apply nothing_settled_refl|].
  cbn [db emit chain].
  destruct (latestMarketSnapshot (db w) (marketId s)) as [m|];
    [|apply nothing_settled_same; reflexivity].
  destruct (latestSentimentSnapshot (db w) (sentimentTag s)) as [t|];
    [|apply nothing_settled_same; reflexivity].
  rewrite unset_execute. simpl.
  split; [reflexivity|]. split; [auto|].
  eexists. split; [reflexivity|]. repeat constructor.
Qed.

Lemma unset_step (w : World E) (op : Op) : nothing_settled why w (step E w op).
Proof.
  destruct op; simpl.
  - apply unset_engine.
  - apply unset_route.
  - apply nothing_settled_same; reflexivity.
  - apply nothing_settled_same; reflexivity.
  - apply nothing_settled_same; reflexivity.
Qed.

End Unconfigured.

(** X19: a backend without [APTOS_MODULE_ADDRESS] settles nothing.  Over any
    history of engine runs, manual requests, arriving snapshots and passing
    time, the settlement client is never used, no strategy becomes EXECUTED,
    and every log entry written is a failure with the reason
    [APTOS_MODULE_ADDRESS missing]. *)
Theorem unconfigured_backend_settles_nothing (E : Env) (ops : list Op) (w : World E) :
  truthy (APTOS_MODULE_ADDRESS E) = None ->
  let w' := foldl (step E) w ops in
  chain w' = chain w
  /\ (forall id s', strategy (db w') !! id = Some s' -> status s' = EXECUTED ->
        strategy (db w) !! id = Some s')
  /\ exists entries,
       executionLog (db w') = executionLog (db w) ++ entries
       /\ Forall (fun l => log_success l = false
                           /\ log_reason l = Some "APTOS_MODULE_ADDRESS missing")
                 entries.
Proof.
  intros unset. cbv zeta. revert w.
  induction ops as [|op ops IH]; intros w; simpl.
  - apply nothing_settled_refl.
  - eapply nothing_settled_trans; [apply unset_step, unset|apply IH].
Qed.

Lemma unconfigured_backend_settles_nothing_witness :
  let w := sample_world unconfigured Move.genesis 0.6%float 0.1%float 5000 2000 in
  chain (foldl (step unconfigured) w [EngineRun; ManualExecute "s1"; EngineRun])
  = Move.genesis.
Proof.
  exact (proj1 (unconfigured_backend_settles_nothing unconfigured
                  [EngineRun; ManualExecute "s1"; EngineRun]
                  (sample_world unconfigured Move.genesis 0.6%float 0.1%float 5000 2000)
                  eq_refl)).
Defined.

(** ** The sentiment fetcher and the rules of Discovery *)

Lemma existsb_Exists {A} (l : list (option A)) :
  existsb (fun s => bool_decide (is_Some s)) l = bool_decide (Exists is_Some l).
Proof.
  induction l as [|a l IH].
  - symmetry. apply bool_decide_eq_false_2. intros H. inversion H.
  - cbn [existsb]. rewrite IH. destruct (decide (is_Some a)) as [Ha|Ha].
    + rewrite (bool_decide_eq_true_2 _ Ha). simpl. symmetry.
      apply bool_decide_eq_true_2. by left.
    + rewrite (bool_decide_eq_false_2 _ Ha). simpl.
      apply bool_decide_ext. rewrite Exists_cons. split; [auto|].
      intros [?|?]; done.
Qed.

Section FetcherFacts.

Context (fetchAlphaVantageSentiment fetchCoinGeckoSentiment
           : Fetcher.TagConfig -> option Fetcher.SentimentData).

#[local] Abbreviation fetched :=
  (Fetcher.snapshot_of fetchAlphaVantageSentiment fetchCoinGeckoSentiment).
#[local] Abbreviation fetch_step :=
  (Fetcher.processStep fetchAlphaVantageSentiment fetchCoinGeckoSentiment).

Lemma process_fold (now : Z) (l : list Fetcher.TagConfig) (d : Database) :
  foldl (fetch_step now) d l
  = {| strategy := strategy d; marketSnapshot := marketSnapshot d;
       sentimentSnapshot := sentimentSnapshot d ++ omap (fetched now) l;
       executionLog := executionLog d |}.
Proof.
  revert d. induction l as [|cfg l IH]; intros d; simpl.
  - rewrite app_nil_r. destruct d; reflexivity.
  - rewrite IH. unfold Fetcher.processStep.
    destruct (fetched now cfg) as [snapshot|]; simpl; [|reflexivity].
    rewrite <- app_assoc. reflexivity.
Qed.

Lemma snapshot_of_Some (now : Z) (cfg : Fetcher.TagConfig) snapshot :
  fetched now cfg = Some snapshot ->
  ss_tag snapshot = Fetcher.tag cfg /\ ss_timestamp snapshot = now.
Proof.
  unfold Fetcher.snapshot_of. destruct (existsb _ _); [|discriminate].
  intros [= <-]. done.
Qed.

Lemma omap_snapshot_tags (now : Z) (l : list Fetcher.TagConfig) :
  ss_tag <$> omap (fetched now) l `sublist_of` Fetcher.tag <$> l.
Proof.
  induction l as [|cfg l IH]; simpl; [constructor|].
  destruct (fetched now cfg) as [snapshot|] eqn:Hs.
  - apply snapshot_of_Some in Hs as [<- _]. simpl. by constructor.
  - by constructor.
Qed.

End FetcherFacts.


(** ** Where Discovery stops *)

Lemma find_is_Some {A} (f : A -> bool) (l : list A) :
  is_Some (find f l) <-> exists x, x ∈ l /\ f x = true.
Proof.
  split.
  - intros [x Hx]. apply find_some in Hx as [Hin Hf].
    exists x. split; [by apply list_elem_of_In|done].
  - intros (x & Hin & Hf). destruct (find f l) as [y|] eqn:Hfind; [eauto|].
    apply list_elem_of_In in Hin.
    pose proof (find_none f l Hfind x Hin). congruence.
Qed.

Lemma checked_spec (sentiments : list SentimentSnapshot) (market : MarketSnapshot) :
  checked sentiments market = true
  <-> exists requiredSentimentTag sentimentData,
        getSentimentTagForMarket (ms_marketId market) = Some requiredSentimentTag
        /\ sentimentData ∈ sentiments
        /\ ss_tag sentimentData = requiredSentimentTag.
Proof.
  unfold checked.
  destruct (getSentimentTagForMarket (ms_marketId market)) as [tag|].
  - rewrite bool_decide_eq_true, find_is_Some. split.
    + intros (x & Hin & Hx). apply String.eqb_eq in Hx. eauto.
    + intros (tag' & x & [= <-] & Hin & Hx). exists x. split; [done|].
      by apply String.eqb_eq.
  - split; [done|]. by intros (tag' & x & Hrule & _).
Qed.

Lemma discovery_checks_spec (d : Database) (now : Z) :
  discovery_checks d now = true
  <-> exists market requiredSentimentTag sentimentData,
        market ∈ recentMarkets d now
        /\ getSentimentTagForMarket (ms_marketId market) = Some requiredSentimentTag
        /\ sentimentData ∈ recentSentiments d now
        /\ ss_tag sentimentData = requiredSentimentTag.
Proof.
  unfold discovery_checks. rewrite existsb_exists. split.
  - intros (market & Hin & Hchecked). apply list_elem_of_In in Hin.
    apply checked_spec in Hchecked as (tag & x & ? & ? & ?). eauto 10.
  - intros (market & tag & x & Hin & ? & ? & ?). exists market.
    split; [by apply list_elem_of_In|]. apply checked_spec. eauto.
Qed.

(** X21: where Discovery stops.  Discovery goes through the recent markets and
    looks, for each, for a recent sentiment of the tag that its rules give
    the market.  The first time it finds one it asks the store for a strategy
    of that market and tag whose status is ACTIVE or PENDING; the store has
    no status PENDING and its client refuses the query, so Discovery throws
    there, having created and registered nothing.  The engine run catches the
    exception and ends without sweeping the active strategies.  When no
    recent market has such a sentiment, Discovery returns, again having
    changed nothing, and the run is the sweep. *)
Theorem discovery_stops_at_the_duplicate_check (E : Env) (w : World E) :
  let reaches_the_check :=
    exists market requiredSentimentTag sentimentData,
      market ∈ recentMarkets (db w) (now w)
      /\ getSentimentTagForMarket (ms_marketId market) = Some requiredSentimentTag
      /\ sentimentData ∈ recentSentiments (db w) (now w)
      /\ ss_tag sentimentData = requiredSentimentTag in
  let discovery := discoverAndCreateStrategies E w in
  discovery.1 = w
  /\ (reaches_the_check ->
      discovery.2 = Thrown invalid_enum_value
      /\ runStrategyExecutionEngine E w = w)
  /\ (~ reaches_the_check ->
      discovery.2 = Returned tt
      /\ runStrategyExecutionEngine E w = sweep E w (activeStrategies (db w)))
  /\ (discovery.2 = Thrown invalid_enum_value \/ discovery.2 = Returned tt)
  /\ strategy (db discovery.1) = strategy (db w)
  /\ events discovery.1 = events w
  /\ chain discovery.1 = chain w.
Proof.
  intros reaches_the_check discovery. unfold discovery.
  rewrite run_eq, discover_eq. cbn [fst snd].
  pose proof (discovery_checks_spec (db w) (now w)) as Hspec.
  fold reaches_the_check in Hspec.
  split; [done|]. split; [|split; [|split]].
  - intros Hreaches. apply Hspec in Hreaches. by rewrite Hreaches.
  - intros Hnot. destruct (discovery_checks _ _); [|done].
    destruct Hnot. by apply Hspec.
  - destruct (discovery_checks _ _); auto.
  - done.
Qed.

(** With a fresh market and a fresh sentiment of its tag, an engine run ends
    in Discovery: nothing is created, and the strategy that is due is not
    evaluated. *)
Example engine_run_with_fresh_signals :
  let w := sample_world devnet Move.genesis 0.6%float 0.5%float 5000 2000 in
  (discoverAndCreateStrategies devnet w).2 = Thrown invalid_enum_value
  /\ db (runStrategyExecutionEngine devnet w) = db w
  /\ events (runStrategyExecutionEngine devnet w) = [].
Proof. vm_compute. repeat split; reflexivity. Qed.

(** ** Order and monotonicity of the conversions on binary64 numbers *)

Section Order.
Local Open Scope R_scope.

(** *** Comparison *)

Lemma canonical_cases (m : positive) (e : Z) :
  canonical_mantissa prec emax m e = true ->
  (Zdigits2 (Zpos m) <= 53)%Z
  /\ (Zdigits2 (Zpos m) = 53 \/ e = (-1074))%Z
  /\ (-1074 <= e)%Z.
Proof.
  unfold canonical_mantissa. rewrite fexp_binary64. intros H.
  apply Z.eqb_eq in H. change (Zdigits2 (Z.pos m)) with (Z.pos (digits2_pos m)).
  clear -H. lia.
Qed.

Lemma valid_canonical (s : bool) (m : positive) (e : Z) :
  valid_binary (S754_finite s m e) = true -> canonical_mantissa prec emax m e = true.
Proof.
  unfold SpecFloat.valid_binary, bounded. intros H.
  apply andb_true_iff in H. apply H.
Qed.

Lemma canonical_lt (m1 m2 : positive) (e1 e2 : Z) :
  canonical_mantissa prec emax m1 e1 = true ->
  canonical_mantissa prec emax m2 e2 = true ->
  (e1 < e2)%Z ->
  IZR (Zpos m1) * bpow e1 < IZR (Zpos m2) * bpow e2.
Proof.
  intros H1 H2 Hlt.
  apply canonical_cases in H1 as (Hd1 & _ & Hlo1).
  apply canonical_cases in H2 as (_ & [Hd2|He2] & _); [|exfalso; clear -Hlt Hlo1 He2; lia].
  pose proof (Zdigits2_bounds m1) as [_ Hb1].
  pose proof (Zdigits2_bounds m2) as [Hb2 _]. rewrite Hd2 in Hb2.
  change (53 - 1)%Z with 52%Z in Hb2.
  pose proof (bpow_pos e1) as Hp1. pose proof (bpow_pos e2) as Hp2.
  assert (bpow (Zdigits2 (Z.pos m1)) <= bpow 53) as Hd by (apply bpow_le; exact Hd1).
  assert (bpow 53 * bpow e1 <= bpow 52 * bpow e2) as Hstep.
  { rewrite <- !bpow_add. apply bpow_le. clear -Hlt. lia. }
  apply Rlt_le_trans with (bpow 53 * bpow e1).
  - apply Rmult_lt_compat_r; [exact Hp1|]. lra.
  - apply Rle_trans with (bpow 52 * bpow e2); [exact Hstep|].
    apply Rmult_le_compat_r; lra.
Qed.

Lemma compare_cont_IZR (m1 m2 : positive) :
  match Pos.compare_cont Eq m1 m2 with
  | Lt => IZR (Zpos m1) < IZR (Zpos m2)
  | Eq => m1 = m2
  | Gt => IZR (Zpos m2) < IZR (Zpos m1)
  end.
Proof.
  change (Pos.compare_cont Eq m1 m2) with (Pos.compare m1 m2).
  destruct (Pos.compare_spec m1 m2) as [H|H|H].
  - exact H.
  - apply IZR_lt. clear -H. lia.
  - apply IZR_lt. clear -H. lia.
Qed.

Lemma canonical_compare (m1 m2 : positive) (e1 e2 : Z) :
  canonical_mantissa prec emax m1 e1 = true ->
  canonical_mantissa prec emax m2 e2 = true ->
  match match (e1 ?= e2)%Z with
        | Eq => Pos.compare_cont Eq m1 m2
        | Lt => Lt
        | Gt => Gt
        end with
  | Lt => IZR (Zpos m1) * bpow e1 < IZR (Zpos m2) * bpow e2
  | Eq => m1 = m2 /\ e1 = e2
  | Gt => IZR (Zpos m2) * bpow e2 < IZR (Zpos m1) * bpow e1
  end.
Proof.
  intros H1 H2. destruct (Z.compare_spec e1 e2) as [->|Hlt|Hgt].
  - pose proof (compare_cont_IZR m1 m2) as H. pose proof (bpow_pos e2) as Hp.
    destruct (Pos.compare_cont Eq m1 m2).
    + done.
    + apply Rmult_lt_compat_r; assumption.
    + apply Rmult_lt_compat_r; assumption.
  - apply canonical_lt; assumption.
  - apply canonical_lt; assumption.
Qed.

(** Comparison of two valid finite numbers is comparison of their values. *)
Lemma SFcompare_spec (x y : spec_float) :
  valid_binary x = true -> valid_binary y = true ->
  SFfinite x = true -> SFfinite y = true ->
  exists c, SFcompare x y = Some c
            /\ match c with
               | Lt => SF2R x < SF2R y
               | Eq => SF2R x = SF2R y
               | Gt => SF2R y < SF2R x
               end.
Proof.
  intros Hx Hy Hfx Hfy.
  destruct x as [sx|sx| |sx mx ex]; try discriminate;
    destruct y as [sy|sy| |sy my ey]; try discriminate.
  - exists Eq. done.
  - eexists. split; [reflexivity|]. simpl. pose proof (bpow_pos ey).
    assert (0 < IZR (Z.pos my)) by (apply IZR_lt; reflexivity).
    destruct sy; simpl.
    + change (Z.neg my) with (- Z.pos my)%Z. rewrite opp_IZR. nra.
    + nra.
  - eexists. split; [reflexivity|]. simpl. pose proof (bpow_pos ex).
    assert (0 < IZR (Z.pos mx)) by (apply IZR_lt; reflexivity).
    destruct sx; simpl.
    + change (Z.neg mx) with (- Z.pos mx)%Z. rewrite opp_IZR. nra.
    + nra.
  - apply valid_canonical in Hx, Hy.
    pose proof (bpow_pos ex). pose proof (bpow_pos ey).
    assert (0 < IZR (Z.pos mx)) by (apply IZR_lt; reflexivity).
    assert (0 < IZR (Z.pos my)) by (apply IZR_lt; reflexivity).
    eexists. split; [reflexivity|].
    pose proof (canonical_compare mx my ex ey Hx Hy) as Hc.
    destruct sx, sy; simpl.
    + change (Z.neg mx) with (- Z.pos mx)%Z. change (Z.neg my) with (- Z.pos my)%Z.
      rewrite !opp_IZR.
      destruct (match (ex ?= ey)%Z with
                | Eq => Pos.compare_cont Eq mx my
                | Lt => Lt
                | Gt => Gt
                end) eqn:Hcmp.
      * destruct Hc as [-> ->].
        destruct (ey ?= ey)%Z; try discriminate. rewrite Hcmp. simpl. reflexivity.
      * destruct (ex ?= ey)%Z; [rewrite Hcmp| |discriminate]; simpl; lra.
      * destruct (ex ?= ey)%Z; [rewrite Hcmp|discriminate|]; simpl; lra.
    + change (Z.neg mx) with (- Z.pos mx)%Z. rewrite opp_IZR. nra.
    + change (Z.neg my) with (- Z.pos my)%Z. rewrite opp_IZR. nra.
    + destruct (match (ex ?= ey)%Z with
                | Eq => Pos.compare_cont Eq mx my
                | Lt => Lt
                | Gt => Gt
                end) eqn:Hcmp.
      * destruct Hc as [-> ->]. reflexivity.
      * exact Hc.
      * exact Hc.
Qed.

Lemma Js_ge_spec (x y : Js.number) (qx qy : Q) :
  Js.value x = Some qx -> Js.value y = Some qy ->
  (Js.ge x y = true <-> Q2R qy <= Q2R qx).
Proof.
  intros Hx Hy.
  apply value_SF2R in Hx as [Hfx <-]. apply value_SF2R in Hy as [Hfy <-].
  unfold Js.ge. rewrite leb_spec. unfold SFleb.
  destruct (SFcompare_spec (Prim2SF y) (Prim2SF x) (Prim2SF_valid y)
              (Prim2SF_valid x) Hfy Hfx) as (c & -> & Hc).
  destruct c; split; intros H; try done; try lra.
Qed.

Lemma Js_gt_spec (x y : Js.number) (qx qy : Q) :
  Js.value x = Some qx -> Js.value y = Some qy ->
  (Js.gt x y = true <-> Q2R qy < Q2R qx).
Proof.
  intros Hx Hy.
  apply value_SF2R in Hx as [Hfx <-]. apply value_SF2R in Hy as [Hfy <-].
  unfold Js.gt. rewrite ltb_spec. unfold SFltb.
  destruct (SFcompare_spec (Prim2SF y) (Prim2SF x) (Prim2SF_valid y)
              (Prim2SF_valid x) Hfy Hfx) as (c & -> & Hc).
  destruct c; split; intros H; try done; try lra.
Qed.

End Order.

Section Monotone.
Local Open Scope R_scope.

(** *** Rounding is monotone *)

Lemma rne_of_bounds (mrs : shr_record) :
  (0 <= shr_m mrs)%Z -> (shr_m mrs <= rne_of mrs <= shr_m mrs + 1)%Z.
Proof.
  destruct mrs as [m r s]. unfold rne_of. cbn [shr_m loc_of_shr_record].
  intros Hm. destruct r, s; cbn [round_nearest_even]; try (clear; lia).
  destruct (Z.even m); clear; lia.
Qed.

Lemma inb_mantissa_le (mrs1 mrs2 : shr_record) (e : Z) (x1 x2 : R) :
  inb mrs1 e x1 -> inb mrs2 e x2 -> x1 <= x2 ->
  (shr_m mrs1 <= shr_m mrs2)%Z.
Proof.
  intros H1 H2 Hle. apply inb_bounds in H1, H2.
  pose proof (bpow_pos e) as Hp.
  apply Z.lt_succ_r. apply lt_IZR. rewrite succ_IZR.
  apply Rmult_lt_reg_r with (bpow e); [exact Hp|]. lra.
Qed.

(** On one grid, a larger number gets a larger or equal mantissa. *)
Lemma rne_of_monotone (mrs1 mrs2 : shr_record) (e : Z) (x1 x2 : R) :
  (0 <= shr_m mrs1)%Z -> (0 <= shr_m mrs2)%Z ->
  inb mrs1 e x1 -> inb mrs2 e x2 -> x1 <= x2 ->
  (rne_of mrs1 <= rne_of mrs2)%Z.
Proof.
  intros Hm1 Hm2 H1 H2 Hle.
  pose proof (inb_mantissa_le _ _ _ _ _ H1 H2 Hle) as Hm.
  pose proof (rne_of_bounds mrs1 Hm1) as Hb1.
  pose proof (rne_of_bounds mrs2 Hm2) as Hb2.
  destruct (Z.eq_dec (shr_m mrs1) (shr_m mrs2)) as [Heq|Hne];
    [|clear -Hm Hne Hb1 Hb2; lia].
  destruct mrs1 as [m1 r1 s1], mrs2 as [m2 r2 s2].
  unfold rne_of, inb in *. cbn [shr_m shr_r shr_s loc_of_shr_record] in *. subst m2.
  pose proof (bpow_pos e) as Hp.
  destruct r1, s1, r2, s2; cbn [round_nearest_even];
    try (clear; lia); try (exfalso; lra);
    destruct (Z.even m1); try (clear; lia); exfalso; lra.
Qed.

Lemma mag_le (mag1 mag2 : Z) (x1 x2 : R) :
  bpow (mag1 - 1) <= x1 < bpow mag1 ->
  bpow (mag2 - 1) <= x2 < bpow mag2 ->
  x1 <= x2 -> (mag1 <= mag2)%Z.
Proof.
  intros H1 H2 Hle.
  assert (bpow (mag1 - 1) < bpow mag2) as H by lra.
  apply bpow_lt_inv in H. clear -H. lia.
Qed.

Lemma rounds_to_nonneg (x z : R) : rounds_to x z -> 0 <= z.
Proof.
  intros (mag & mrs & _ & _ & Hm & ->).
  pose proof (rne_of_bounds mrs Hm) as Hb. pose proof (bpow_pos (fexp prec emax mag)).
  apply Rmult_le_pos; [|lra]. apply IZR_le. clear -Hm Hb. lia.
Qed.

(** Rounding is monotone on the positive numbers. *)
Lemma rounds_to_monotone (x1 x2 z1 z2 : R) :
  rounds_to x1 z1 -> rounds_to x2 z2 -> x1 <= x2 -> z1 <= z2.
Proof.
  intros (mag1 & mrs1 & Hmag1 & Hin1 & Hm1 & ->)
         (mag2 & mrs2 & Hmag2 & Hin2 & Hm2 & ->) Hle.
  pose proof (mag_le _ _ _ _ Hmag1 Hmag2 Hle) as Hmag.
  rewrite !fexp_binary64 in *.
  set (e1 := Z.max (mag1 - 53) (-1074)) in *.
  set (e2 := Z.max (mag2 - 53) (-1074)) in *.
  pose proof (bpow_pos e1) as Hp1. pose proof (bpow_pos e2) as Hp2.
  pose proof (rne_of_bounds mrs1 Hm1) as Hb1.
  pose proof (rne_of_bounds mrs2 Hm2) as Hb2.
  destruct (Z.eq_dec e1 e2) as [Heq|Hne].
  - rewrite Heq in *.
    apply Rmult_le_compat_r; [lra|]. apply IZR_le.
    apply (rne_of_monotone mrs1 mrs2 e2 x1 x2); assumption.
  - assert (e1 < e2)%Z as Hlt by (unfold e1, e2 in *; clear -Hmag Hne; lia).
    assert (e2 = mag2 - 53)%Z as He2 by (unfold e1, e2 in *; clear -Hlt; lia).
    assert (mag1 < mag2)%Z as Hmaglt by (unfold e1, e2 in *; clear -Hlt Hmag; lia).
    (* the larger one is at least [2^(mag2 - 1)] *)
    assert (bpow (mag2 - 1) <= IZR (rne_of mrs2) * bpow e2) as Hbig.
    { assert (bpow (mag2 - 1) = IZR (2 ^ 52) * bpow e2) as Hsplit.
      { rewrite <- bpow_IZR by (clear; lia). rewrite <- bpow_add. f_equal.
        rewrite He2. clear. lia. }
      rewrite Hsplit. apply Rmult_le_compat_r; [lra|]. apply IZR_le.
      assert (2 ^ 52 < shr_m mrs2 + 1)%Z as H; [|clear -H Hb2; lia].
      apply lt_IZR. rewrite plus_IZR.
      apply Rmult_lt_reg_r with (bpow e2); [exact Hp2|].
      apply inb_bounds in Hin2. lra. }
    (* the smaller one is at most [2^mag1] *)
    assert (IZR (rne_of mrs1) * bpow e1 <= bpow mag1) as Hsmall.
    { apply inb_bounds in Hin1 as Hbound1.
      destruct (Z_le_gt_dec e1 mag1) as [Hk|Hk].
      - assert (bpow mag1 = IZR (2 ^ (mag1 - e1)) * bpow e1) as Hsplit.
        { rewrite <- bpow_IZR by (clear -Hk; lia). rewrite <- bpow_add. f_equal.
          clear. lia. }
        rewrite Hsplit. apply Rmult_le_compat_r; [lra|]. apply IZR_le.
        assert (shr_m mrs1 < 2 ^ (mag1 - e1))%Z as H; [|clear -H Hb1; lia].
        apply lt_IZR. apply Rmult_lt_reg_r with (bpow e1); [exact Hp1|]. lra.
      - assert (bpow mag1 <= bpow e1 / 2) as Hhalf.
        { replace (bpow e1 / 2) with (bpow (e1 - 1)).
          - apply bpow_le. clear -Hk. lia.
          - replace e1 with ((e1 - 1) + 1)%Z at 2 by (clear; lia).
            rewrite bpow_succ. lra. }
        pose proof (bpow_pos mag1) as Hpos.
        assert (rne_of mrs1 = 0)%Z as ->; [|lra].
        assert (shr_m mrs1 = 0)%Z as Hzero.
        { assert (shr_m mrs1 < 1)%Z as H; [|clear -H Hm1; lia].
          apply lt_IZR. apply Rmult_lt_reg_r with (bpow e1); [exact Hp1|]. lra. }
        clear Hb1 Hbound1. destruct mrs1 as [m1 r1 s1].
        unfold rne_of, inb in *. cbn [shr_m shr_r shr_s loc_of_shr_record] in *.
        subst m1.
        destruct r1, s1; cbn [round_nearest_even]; try reflexivity; exfalso; lra. }
    apply Rle_trans with (bpow mag1); [exact Hsmall|].
    apply Rle_trans with (bpow (mag2 - 1)); [|exact Hbig].
    apply bpow_le. clear -Hmaglt. lia.
Qed.

(** *** What one rounding returns *)

Lemma Zdigits2_small (m : Z) :
  (0 <= m < 2 ^ 53)%Z -> (Zdigits2 m <= 53)%Z.
Proof.
  intros [H0 Hlt]. destruct m as [|p|p]; [simpl; clear; lia| |clear -H0; lia].
  pose proof (Zdigits2_bounds p) as [Hlo _].
  apply IZR_lt in Hlt. rewrite <- (bpow_IZR 53) in Hlt by (clear; lia).
  assert (bpow (Zdigits2 (Z.pos p) - 1) < bpow 53) as H by lra.
  apply bpow_lt_inv in H. clear -H. lia.
Qed.

(** An aligned positive mantissa is rounded on the grid of its magnitude,
    and keeps its sign. *)
Lemma binary_round_aux_rounds (sx : bool) (mx : positive) (ex : Z) :
  let x := IZR (Zpos mx) * bpow ex in
  x <= bpow 100 ->
  (ex <= fexp prec emax (Zdigits2 (Zpos mx) + ex))%Z ->
  let z := binary_round_aux prec emax sx (Zpos mx) ex loc_Exact in
  SFsign z = Some sx /\ rounds_to x (SFabsR z).
Proof.
  intros x Hx Haligned z.
  destruct (binary_round_aux_exact sx mx ex Hx) as [Hsign _]. fold z in Hsign.
  split; [exact Hsign|].
  set (mag := (Zdigits2 (Zpos mx) + ex)%Z) in *.
  set (e1 := fexp prec emax mag) in *.
  pose proof (bpow_pos ex) as Hpex. pose proof (bpow_pos e1) as Hpe1.
  assert (bpow (mag - 1) <= x < bpow mag) as Hmag.
  { pose proof (Zdigits2_bounds mx) as [Hlo Hhi]. unfold mag, x.
    replace (Zdigits2 (Z.pos mx) + ex - 1)%Z with ((Zdigits2 (Z.pos mx) - 1) + ex)%Z
      by (clear; lia).
    rewrite !bpow_add. split.
    - apply Rmult_le_compat_r; lra.
    - apply Rmult_lt_compat_r; lra. }
  (* first shift *)
  set (n1 := (e1 - ex)%Z).
  assert (inb (shr_record_of_loc (Zpos mx) loc_Exact) ex x) as Hin0
    by (unfold inb; simpl; reflexivity).
  destruct (shr_inb (shr_record_of_loc (Zpos mx) loc_Exact) ex n1 x
              ltac:(simpl; clear; lia) Hin0) as (Hin1 & Hm1 & He1).
  set (mrs' := fst (shr (shr_record_of_loc (Zpos mx) loc_Exact) ex n1)) in *.
  set (e' := snd (shr (shr_record_of_loc (Zpos mx) loc_Exact) ex n1)) in *.
  assert (e' = e1) as He' by (rewrite He1; unfold n1; clear -Haligned; lia).
  rewrite He' in Hin1.
  exists mag, mrs'. fold e1. split; [exact Hmag|]. split; [exact Hin1|].
  split; [exact Hm1|].
  (* the mantissa before rounding has at most 53 bits *)
  assert (-1074 <= e1)%Z as Hlo1 by (unfold e1; rewrite fexp_binary64; clear; lia).
  assert (mag - 53 <= e1)%Z as Hlo2 by (unfold e1; rewrite fexp_binary64; clear; lia).
  assert (shr_m mrs' < 2 ^ 53)%Z as Hm53.
  { apply lt_IZR. apply Rmult_lt_reg_r with (bpow e1); [exact Hpe1|].
    rewrite <- (bpow_IZR 53) by (clear; lia). rewrite <- bpow_add.
    apply inb_bounds in Hin1.
    assert (bpow mag <= bpow (53 + e1)) by (apply bpow_le; clear -Hlo2; lia).
    lra. }
  pose proof (rne_of_bounds mrs' Hm1) as Hb.
  set (m_r := rne_of mrs') in *.
  (* second shift *)
  assert (z = let r2 := shr_fexp prec emax m_r e' loc_Exact in
              match shr_m (fst r2) with
              | Z0 => S754_zero sx
              | Zpos m => if (snd r2 <=? emax - prec)%Z then S754_finite sx m (snd r2)
                          else S754_infinity sx
              | Zneg _ => S754_nan
              end) as Hz.
  { unfold z. rewrite binary_round_aux_unfold. reflexivity. }
  rewrite He' in Hz. cbv zeta in Hz.
  destruct (Z_lt_le_dec m_r (2 ^ 53)) as [Hsmall|Hbig].
  - assert (shr_fexp prec emax m_r e1 loc_Exact
            = (shr_record_of_loc m_r loc_Exact, e1)) as Hshr.
    { unfold shr_fexp. apply shr_nonpos.
      pose proof (Zdigits2_small m_r ltac:(clear -Hm1 Hb Hsmall; lia)) as Hd.
      rewrite fexp_binary64. clear -Hd Hlo1. lia. }
    rewrite Hshr in Hz. cbn [fst snd] in Hz. rewrite shr_record_of_loc_m in Hz.
    rewrite Hz. destruct m_r as [|p|p]; simpl.
    + lra.
    + rewrite Hz in Hsign. destruct (e1 <=? emax - prec)%Z; [reflexivity|discriminate].
    + exfalso. clear -Hm1 Hb. lia.
  - assert (m_r = 2 ^ 53)%Z as Hmr by (clear -Hbig Hb Hm53; lia).
    rewrite Hmr in Hz |- *.
    assert (shr_fexp prec emax (2 ^ 53) e1 loc_Exact
            = ({| shr_m := 2 ^ 52; shr_r := false; shr_s := false |}, (e1 + 1)%Z))
      as Hshr.
    { unfold shr_fexp.
      assert (fexp prec emax (Zdigits2 (2 ^ 53) + e1) - e1 = 1)%Z as ->.
      { rewrite fexp_binary64. change (Zdigits2 (2 ^ 53)) with 54%Z.
        clear -Hlo1. lia. }
      reflexivity. }
    rewrite Hshr in Hz. cbn [fst snd shr_m] in Hz.
    change (2 ^ 52)%Z with (Z.pos (2 ^ 52)) in Hz.
    rewrite Hz in Hsign |- *.
    destruct (e1 + 1 <=? emax - prec)%Z; [|discriminate].
    simpl SFabsR. rewrite bpow_succ.
    change (2 ^ 53)%Z with (2 * 2 ^ 52)%Z. rewrite mult_IZR.
    change (Z.pos (2 ^ 52)) with (2 ^ 52)%Z. ring.
Qed.

Lemma rounded_nonneg (x z : R) : rounded x z -> 0 <= x /\ 0 <= z.
Proof.
  intros [[-> ->]|[Hx Hr]]; [lra|].
  split; [lra|]. exact (rounds_to_nonneg x z Hr).
Qed.

(** Rounding is monotone on the non-negative numbers. *)
Lemma rounded_monotone (x1 x2 z1 z2 : R) :
  rounded x1 z1 -> rounded x2 z2 -> x1 <= x2 -> z1 <= z2.
Proof.
  intros [[-> ->]|[Hx1 Hr1]] H2 Hle.
  - apply (rounded_nonneg x2 z2 H2).
  - destruct H2 as [[-> ->]|[Hx2 Hr2]]; [exfalso; lra|].
    exact (rounds_to_monotone x1 x2 z1 z2 Hr1 Hr2 Hle).
Qed.

(** A canonical number is its own rounding. *)
Lemma rounds_to_canonical (m : positive) (e : Z) :
  canonical_mantissa prec emax m e = true ->
  rounds_to (IZR (Zpos m) * bpow e) (IZR (Zpos m) * bpow e).
Proof.
  intros H. unfold canonical_mantissa in H. apply Z.eqb_eq in H.
  change (Z.pos (digits2_pos m)) with (Zdigits2 (Zpos m)) in H.
  pose proof (Zdigits2_bounds m) as [Hlo Hhi]. pose proof (bpow_pos e) as Hp.
  exists (Zdigits2 (Zpos m) + e)%Z, (shr_record_of_loc (Zpos m) loc_Exact).
  rewrite H. split; [|split; [|split]].
  - replace (Zdigits2 (Z.pos m) + e - 1)%Z with ((Zdigits2 (Z.pos m) - 1) + e)%Z
      by (clear; lia).
    rewrite !bpow_add. split.
    + apply Rmult_le_compat_r; lra.
    + apply Rmult_lt_compat_r; lra.
  - unfold inb. simpl. reflexivity.
  - simpl. clear. lia.
  - reflexivity.
Qed.

(** The magnitude of a product of a mantissa and a power of two. *)
Lemma Zdigits2_unique (m : positive) (d : Z) :
  bpow (d - 1) <= IZR (Zpos m) < bpow d -> Zdigits2 (Zpos m) = d.
Proof.
  intros [Hlo Hhi]. pose proof (Zdigits2_bounds m) as [Hlo' Hhi'].
  assert (bpow (d - 1) < bpow (Zdigits2 (Zpos m))) as H1 by lra.
  assert (bpow (Zdigits2 (Zpos m) - 1) < bpow d) as H2 by lra.
  apply bpow_lt_inv in H1, H2. clear -H1 H2. lia.
Qed.

(** [binary_round] aligns its argument before it rounds. *)
Lemma binary_round_rounds (sx : bool) (mx : positive) (ex : Z) :
  let x := IZR (Zpos mx) * bpow ex in
  x <= bpow 100 ->
  let z := binary_round prec emax sx mx ex in
  SFsign z = Some sx /\ rounds_to x (SFabsR z).
Proof.
  intros x Hx z. unfold z, binary_round.
  set (mag := (Z.pos (digits2_pos mx) + ex)%Z).
  set (e' := fexp prec emax mag).
  pose proof (shl_align_spec mx ex e') as [Hv He].
  pose proof (Zdigits2_bounds mx) as [Hlo Hhi].
  change (Zdigits2 (Z.pos mx)) with (Z.pos (digits2_pos mx)) in Hlo, Hhi.
  pose proof (bpow_pos ex) as Hpex.
  destruct (shl_align mx ex e') as [mz ez] eqn:Hshl. cbn [fst snd] in Hv, He.
  assert (x = IZR (Z.pos mz) * bpow ez) as Hxeq by (unfold x; lra).
  assert (ez <= fexp prec emax (Zdigits2 (Z.pos mz) + ez))%Z as Haligned.
  { destruct (Z_le_gt_dec e' ex) as [Hle|Hgt].
    - specialize (He Hle). subst ez.
      assert (Zdigits2 (Z.pos mz) = mag - e')%Z as ->.
      { apply Zdigits2_unique. pose proof (bpow_pos e') as Hpe.
        split.
        - apply Rmult_le_reg_r with (bpow e'); [exact Hpe|].
          rewrite <- bpow_add, Hv.
          replace (mag - e' - 1 + e')%Z with ((Z.pos (digits2_pos mx) - 1) + ex)%Z
            by (unfold mag; clear; lia).
          rewrite bpow_add. apply Rmult_le_compat_r; lra.
        - apply Rmult_lt_reg_r with (bpow e'); [exact Hpe|].
          rewrite <- bpow_add, Hv.
          replace (mag - e' + e')%Z with (Z.pos (digits2_pos mx) + ex)%Z
            by (unfold mag; clear; lia).
          rewrite bpow_add. apply Rmult_lt_compat_r; lra. }
      replace (mag - e' + e')%Z with mag by (clear; lia). fold e'. clear. lia.
    - assert ((mz, ez) = (mx, ex)) as Hsame.
      { rewrite <- Hshl. unfold shl_align.
        destruct (e' - ex)%Z as [|d|d] eqn:Hd; try reflexivity.
        exfalso. clear -Hd Hgt. lia. }
      injection Hsame as -> ->.
      change (Zdigits2 (Z.pos mx)) with (Z.pos (digits2_pos mx)).
      fold mag. fold e'. clear -Hgt. lia. }
  rewrite Hxeq in Hx |- *.
  exact (binary_round_aux_rounds sx mz ez Hx Haligned).
Qed.

Lemma SFabsR_sign (z : spec_float) :
  SFsign z = Some false -> SF2R z = SFabsR z.
Proof. intros H. rewrite (SF2R_sign z false H). ring. Qed.

(** The product with a positive constant whose mantissa has 53 bits. *)
Lemma SFmul_rounded (x : spec_float) (mc : positive) (ec : Z) :
  SFsign x = Some false ->
  bpow 52 <= IZR (Zpos mc) ->
  SF2R x * SF2R (S754_finite false mc ec) <= bpow 100 ->
  let z := SFmul prec emax x (S754_finite false mc ec) in
  SFsign z = Some false
  /\ rounded (SF2R x * SF2R (S754_finite false mc ec)) (SF2R z).
Proof.
  intros Hs Hc Hb z.
  destruct x as [sx|sx| |sx mx ex]; try discriminate; simpl in Hs;
    injection Hs as ->; unfold z; simpl SFmul.
  - split; [reflexivity|]. left. simpl. split; ring.
  - assert (SF2R (S754_finite false mx ex) * SF2R (S754_finite false mc ec)
            = IZR (Zpos (mx * mc)) * bpow (ex + ec)) as Heq.
    { simpl SF2R. rewrite bpow_add, Pos2Z.inj_mul, mult_IZR. ring. }
    rewrite Heq in *.
    pose proof (bpow_pos (ex + ec)) as Hp.
    assert (1 <= IZR (Z.pos mx)) as Hmx by (apply IZR_le; clear; lia).
    assert (bpow 52 <= IZR (Z.pos (mx * mc))) as Hbig.
    { rewrite Pos2Z.inj_mul, mult_IZR. pose proof (bpow_pos 52). nra. }
    assert (53 <= Zdigits2 (Z.pos (mx * mc)))%Z as Hd.
    { pose proof (Zdigits2_bounds (mx * mc)) as [_ Hhi].
      assert (bpow 52 < bpow (Zdigits2 (Z.pos (mx * mc)))) as H by lra.
      apply bpow_lt_inv in H. clear -H. lia. }
    destruct (binary_round_aux_rounds false (mx * mc) (ex + ec) Hb) as [Hsz Hr].
    { rewrite fexp_binary64. clear -Hd. lia. }
    split; [exact Hsz|]. right. split.
    + pose proof (bpow_pos 52). nra.
    + rewrite (SFabsR_sign _ Hsz). exact Hr.
Qed.

Lemma binary_normalize_rounded (m ex : Z) :
  (0 <= m)%Z -> IZR m * bpow ex <= bpow 100 ->
  let z := binary_normalize prec emax m ex false in
  SFsign z = Some false /\ rounded (IZR m * bpow ex) (SF2R z).
Proof.
  intros Hm Hb z. unfold z, binary_normalize.
  destruct m as [|p|p]; [| |exfalso; clear -Hm; lia].
  - split; [reflexivity|]. left. simpl. split; ring.
  - destruct (binary_round_rounds false p ex Hb) as [Hs Hr].
    split; [exact Hs|]. right. split.
    + pose proof (bpow_pos ex). assert (0 < IZR (Z.pos p)) by (apply IZR_lt; reflexivity).
      nra.
    + rewrite (SFabsR_sign _ Hs). exact Hr.
Qed.

(** The sum with a positive canonical number, when it is not negative. *)
Lemma SFadd_rounded (x : spec_float) (my : positive) (ey : Z) :
  SFfinite x = true ->
  canonical_mantissa prec emax my ey = true ->
  0 <= SF2R x + SF2R (S754_finite false my ey) <= bpow 100 ->
  let z := SFadd prec emax x (S754_finite false my ey) in
  SFsign z = Some false
  /\ rounded (SF2R x + SF2R (S754_finite false my ey)) (SF2R z).
Proof.
  intros Hf Hcan [H0 Hb] z.
  destruct x as [sx|sx| |sx mx ex]; try discriminate; unfold z; simpl SFadd.
  - split; [reflexivity|]. right.
    replace (SF2R (S754_zero sx) + SF2R (S754_finite false my ey))
      with (SF2R (S754_finite false my ey)) by (simpl; ring).
    simpl SF2R. split.
    + pose proof (bpow_pos ey). assert (0 < IZR (Z.pos my)) by (apply IZR_lt; reflexivity).
      nra.
    + apply rounds_to_canonical. exact Hcan.
  - set (ez := Z.min ex ey).
    set (m := (cond_Zopp sx (Z.pos (fst (shl_align mx ex ez)))
               + cond_Zopp false (Z.pos (fst (shl_align my ey ez))))%Z).
    assert (IZR m * bpow ez
            = SF2R (S754_finite sx mx ex) + SF2R (S754_finite false my ey)) as Heq.
    { unfold m. rewrite plus_IZR, Rmult_plus_distr_r.
      rewrite !SF2R_aligned by (unfold ez; clear; lia). reflexivity. }
    rewrite <- Heq in *.
    apply binary_normalize_rounded; [|exact Hb].
    pose proof (bpow_pos ez) as Hpz.
    destruct (Z_lt_le_dec m 0) as [Hneg|Hnn]; [|exact Hnn].
    exfalso. apply IZR_lt in Hneg. nra.
Qed.

(** *** [Math.round] *)

(** [Math.round] of a small non-negative number is the number of the integer
    [n] with [n - 1/2 <= b < n + 1/2]. *)
Lemma Math_round_nearest (b : Js.number) :
  SFsign (Prim2SF b) = Some false ->
  SF2R (Prim2SF b) <= 10000 ->
  exists n : Z,
    (0 <= n <= 10000)%Z
    /\ Js.Math_round b = Js.of_integer n false
    /\ IZR n - / 2 <= SF2R (Prim2SF b) < IZR n + / 2.
Proof.
  intros Hs Hle. unfold Js.Math_round.
  pose proof (Prim2SF_valid b) as Hvalid.
  pose proof (SF2Prim_Prim2SF b) as Hb.
  destruct (Prim2SF b) as [s|s| |s m e]; try discriminate.
  - simpl in Hs. injection Hs as ->. exists 0%Z.
    split; [clear; lia|]. split; [rewrite <- Hb; reflexivity|].
    simpl. lra.
  - simpl in Hs. injection Hs as ->.
    destruct (0 <=? e)%Z eqn:He.
    + exfalso. apply Z.leb_le in He.
      pose proof (valid_large false m e Hvalid He) as Hbig. simpl in Hle.
      assert (bpow 52 = IZR (2 ^ 52)) as H52 by (apply bpow_IZR; clear; lia).
      rewrite H52 in Hbig.
      assert (IZR (2 ^ 52) > 10001) by (apply IZR_lt; reflexivity). lra.
    + apply Z.leb_gt in He. simpl in Hle. simpl SF2R.
      set (d := (2 ^ (- e))%Z).
      assert (0 < d)%Z as Hd by (apply Z.pow_pos_nonneg; clear -He; lia).
      assert (bpow e = / IZR d) as Hbe.
      { unfold d. rewrite <- bpow_IZR by (clear -He; lia).
        rewrite bpow_neg, Rinv_inv. reflexivity. }
      rewrite Hbe in *.
      assert (0 < Z.pos m)%Z as Hm by reflexivity.
      change ((2 * Z.pos m + 2 ^ (- e)) / (2 * 2 ^ (- e)))%Z
        with ((2 * Z.pos m + d) / (2 * d))%Z.
      set (zm := Z.pos m) in *.
      set (n := ((2 * zm + d) / (2 * d))%Z).
      assert (2 * d * n <= 2 * zm + d)%Z as Hn1
        by (apply Z.mul_div_le; clear -Hd; lia).
      assert (2 * zm + d < 2 * d * (n + 1))%Z as Hn2.
      { pose proof (Z.mul_succ_div_gt (2 * zm + d) (2 * d) ltac:(clear -Hd; lia)) as H.
        fold n in H. clear -H. lia. }
      apply IZR_le in Hn1. apply IZR_lt in Hn2.
      rewrite plus_IZR, !mult_IZR in Hn1.
      rewrite !mult_IZR, !plus_IZR, mult_IZR in Hn2.
      assert (0 < IZR d) as HdR by (apply IZR_lt; assumption).
      assert (0 < IZR zm) as HmR by (apply IZR_lt; assumption).
      set (D := IZR d) in *. set (M := IZR zm) in *. set (N := IZR n) in *.
      assert (M * / D = M / D) as Hdiv by reflexivity.
      assert (N - / 2 <= M / D < N + / 2) as Hbound.
      { assert (M = (M / D) * D) as Hq by (field; lra).
        set (q := M / D) in *.
        split.
        - apply Rmult_le_reg_r with D; [assumption|]. lra.
        - apply Rmult_lt_reg_r with D; [assumption|]. lra. }
      exists n. split; [|split].
      * assert (0 < M / D) as Hq0 by (apply Rdiv_lt_0_compat; assumption).
        rewrite Hdiv in Hle.
        assert (- 1 < N < 10001) as HN by lra.
        destruct HN as [HN1 HN2]. unfold N in *.
        apply lt_IZR in HN1, HN2. clear -HN1 HN2. lia.
      * reflexivity.
      * fold N. rewrite Hdiv. exact Hbound.
Qed.

(** The integers between 0 and 10000 are transmitted unchanged. *)
Lemma transmitted_table :
  forallb (fun n =>
             match Js.to_integer (Js.of_integer n false),
                   u64_of (Js.Math_floor (Js.of_integer n false)) with
             | Some k, Some u => (k =? n)%Z && (u =? Z.to_N n)%N
             | _, _ => false
             end) integers = true.
Proof. vm_compute. reflexivity. Qed.

Lemma transmitted (n : Z) :
  (0 <= n <= 10000)%Z ->
  Js.to_integer (Js.of_integer n false) = Some n
  /\ u64_of (Js.Math_floor (Js.of_integer n false)) = Some (Z.to_N n).
Proof.
  intros Hn. pose proof transmitted_table as H.
  rewrite forallb_forall in H. specialize (H n (integers_spec n Hn)).
  destruct (Js.to_integer _) as [k|]; [|discriminate].
  destruct (u64_of _) as [u|]; [|discriminate].
  apply andb_prop in H as [Hk Hu].
  apply Z.eqb_eq in Hk. apply N.eqb_eq in Hu. subst. split; reflexivity.
Qed.

(** *** Numbers between two finite numbers *)

Lemma value_finite (x : Js.number) :
  SFfinite (Prim2SF x) = true -> exists q, Js.value x = Some q.
Proof.
  unfold Js.value. destruct (Prim2SF x); try discriminate; intros _; eauto.
Qed.

Lemma finite_value (x : Js.number) (q : Q) :
  Js.value x = Some q -> SFfinite (Prim2SF x) = true.
Proof. intros H. apply (value_SF2R x q H). Qed.

(** Two numbers in increasing order between two finite numbers are finite. *)
Lemma ge_chain_values (lo a b hi : Js.number) :
  SFfinite (Prim2SF lo) = true -> SFfinite (Prim2SF hi) = true ->
  Js.ge a lo = true -> Js.ge b a = true -> Js.ge hi b = true ->
  SFfinite (Prim2SF a) = true /\ SFfinite (Prim2SF b) = true.
Proof.
  unfold Js.ge. rewrite !leb_spec. unfold SFleb.
  destruct (Prim2SF lo) as [sl|sl| |sl ml el]; try discriminate;
    destruct (Prim2SF hi) as [sh|sh| |sh mh eh]; try discriminate;
    intros _ _;
    destruct (Prim2SF a) as [sa|[]| |sa ma ea];
    destruct (Prim2SF b) as [sb|[]| |sb mb eb];
    cbn [SFcompare SFfinite]; try discriminate; try (split; reflexivity);
    destruct sl; try discriminate; destruct sh; try discriminate;
    try destruct sa; try discriminate; try destruct sb; try discriminate.
Qed.

(** The order of two finite numbers is the order of their values. *)
Lemma ge_values (x y : Js.number) :
  SFfinite (Prim2SF x) = true -> SFfinite (Prim2SF y) = true ->
  Js.ge x y = true -> SF2R (Prim2SF y) <= SF2R (Prim2SF x).
Proof.
  intros Hx Hy Hge.
  destruct (value_finite x Hx) as [qx Hqx]. destruct (value_finite y Hy) as [qy Hqy].
  destruct (value_SF2R x qx Hqx) as [_ ->]. destruct (value_SF2R y qy Hqy) as [_ ->].
  apply (Js_ge_spec x y qx qy Hqx Hqy). exact Hge.
Qed.

Lemma const_2 :
  Prim2SF 2%float = S754_finite false 4503599627370496 (-51)
  /\ SF2R (Prim2SF 2%float) = 2.
Proof.
  split; [reflexivity|].
  eapply const_spec.
  - vm_compute. reflexivity.
  - unfold Q2R. simpl. lra.
  - reflexivity.
Qed.

Lemma const_0 : SFfinite (Prim2SF 0%float) = true /\ SF2R (Prim2SF 0%float) = 0.
Proof. split; reflexivity. Qed.

Lemma const_m1 :
  SFfinite (Prim2SF (-1)%float) = true /\ SF2R (Prim2SF (-1)%float) = -1.
Proof.
  assert (Js.value (-1)%float = Some (-4503599627370496 # 4503599627370496)) as Hv
    by (vm_compute; reflexivity).
  destruct (value_SF2R _ _ Hv) as [Hf Hr].
  split; [exact Hf|]. rewrite Hr. unfold Q2R. simpl. lra.
Qed.

(** A canonical positive constant is its own rounding. *)
Lemma rounded_const (c : Js.number) (m : positive) (e : Z) (r : R) :
  Prim2SF c = S754_finite false m e -> SF2R (Prim2SF c) = r ->
  rounded r r.
Proof.
  intros Hc Hr. pose proof (Prim2SF_valid c) as Hvalid. rewrite Hc in Hvalid, Hr.
  apply valid_canonical in Hvalid. simpl in Hr. subst r.
  right. split.
  - pose proof (bpow_pos e). assert (0 < IZR (Z.pos m)) by (apply IZR_lt; reflexivity).
    nra.
  - apply rounds_to_canonical. exact Hvalid.
Qed.

(** *** The two conversions, located

    [probToBps p] is the number of an integer [n], and [n] is the integer
    nearest to the rounding [y] of [10000 * p]. *)
Lemma probToBps_located (p : Js.number) :
  SFfinite (Prim2SF p) = true -> 0 <= SF2R (Prim2SF p) <= 1 ->
  exists (n : Z) (y : R),
    (0 <= n <= 10000)%Z
    /\ Js.to_integer (probToBps p) = Some n
    /\ u64_of (Js.Math_floor (probToBps p)) = Some (Z.to_N n)
    /\ IZR n - / 2 <= y < IZR n + / 2
    /\ rounded (SF2R (Prim2SF p) * 10000) y.
Proof.
  intros Hfp Hrange.
  destruct const_10000 as (Hfc & Hsc & Hrc).
  assert (Prim2SF 10000%float = S754_finite false 5497558138880000 (-39)) as Hc
    by reflexivity.
  pose proof (mul_spec p 10000%float) as Hmul. unfold SF64mul in Hmul.
  assert (SFsign (Prim2SF p) = Some false
          \/ Prim2SF p = S754_zero true) as [Hsp|Hneg].
  { destruct (Prim2SF p) as [sp|sp| |sp m e] eqn:HP; try discriminate.
    - destruct sp; [right|left]; reflexivity.
    - left. simpl. f_equal. apply (SF2R_finite_sign sp m e). lra. }
  - pose proof bpow_100_ge as H100.
    rewrite Hc in Hmul, Hrc.
    destruct (SFmul_rounded (Prim2SF p) 5497558138880000 (-39) Hsp) as [Hsb Hrb].
    { rewrite bpow_IZR by (clear; lia). apply IZR_le. apply Z.leb_le. reflexivity. }
    { rewrite Hrc. lra. }
    rewrite <- Hmul in Hsb, Hrb. rewrite Hrc in Hrb.
    pose proof (rounded_const 10000%float _ _ 10000 Hc (proj2 (proj2 const_10000)))
      as Htop.
    assert (SF2R (Prim2SF (p * 10000)%float) <= 10000) as Hle.
    { apply (rounded_monotone _ _ _ _ Hrb Htop). lra. }
    destruct (Math_round_nearest (p * 10000)%float Hsb Hle) as (n & Hn & Hround & Hnear).
    destruct (transmitted n Hn) as [Hint Hu64].
    exists n, (SF2R (Prim2SF (p * 10000)%float)).
    unfold probToBps. rewrite Hround.
    split; [exact Hn|]. split; [exact Hint|]. split; [exact Hu64|].
    split; [exact Hnear|exact Hrb].
  - exists 0%Z, 0.
    assert (probToBps p = SF2Prim (S754_zero true)) as ->.
    { unfold probToBps, Js.Math_round.
      assert (Prim2SF (p * 10000)%float = S754_zero true) as HB
        by (rewrite Hmul, Hneg; reflexivity).
      rewrite HB. rewrite <- (SF2Prim_Prim2SF (p * 10000)%float), HB. reflexivity. }
    split; [clear; lia|]. split; [reflexivity|]. split; [reflexivity|].
    split; [lra|]. left. rewrite Hneg. simpl. split; ring.
Qed.

(** [sentimentToBps s] likewise, for the rounding [y] of [5000 * a], where [a]
    is the rounding of [s + 1]. *)
Lemma sentimentToBps_located (s : Js.number) :
  SFfinite (Prim2SF s) = true -> -1 <= SF2R (Prim2SF s) <= 1 ->
  exists (n : Z) (a y : R),
    (0 <= n <= 10000)%Z
    /\ Js.to_integer (sentimentToBps s) = Some n
    /\ u64_of (Js.Math_floor (sentimentToBps s)) = Some (Z.to_N n)
    /\ IZR n - / 2 <= y < IZR n + / 2
    /\ rounded (SF2R (Prim2SF s) + 1) a
    /\ rounded (a * 5000) y.
Proof.
  intros Hfs Hrange.
  destruct const_1 as (Hf1 & Hs1 & Hr1).
  destruct const_5000 as (Hf5 & Hs5 & Hr5).
  destruct const_2 as (Hc2 & Hr2).
  assert (Prim2SF 1%float = S754_finite false 4503599627370496 (-52)) as Hc1
    by reflexivity.
  assert (Prim2SF 5000%float = S754_finite false 5497558138880000 (-40)) as Hc5
    by reflexivity.
  assert (Prim2SF 10000%float = S754_finite false 5497558138880000 (-39)) as Hc
    by reflexivity.
  pose proof bpow_100_ge as H100.
  pose proof (add_spec s 1%float) as Hadd. unfold SF64add in Hadd.
  pose proof (Prim2SF_valid 1%float) as Hv1. rewrite Hc1 in Hv1, Hadd, Hr1.
  apply valid_canonical in Hv1.
  destruct (SFadd_rounded (Prim2SF s) _ _ Hfs Hv1) as [Hsa Hra].
  { rewrite Hr1. lra. }
  rewrite <- Hadd in Hsa, Hra. rewrite Hr1 in Hra.
  set (a := SF2R (Prim2SF (s + 1)%float)) in *.
  pose proof (rounded_const 2%float _ _ 2 Hc2 Hr2) as Htwo.
  assert (0 <= a <= 2) as Ha.
  { split; [apply (rounded_nonneg _ _ Hra)|].
    apply (rounded_monotone _ _ _ _ Hra Htwo). lra. }
  pose proof (mul_spec (s + 1)%float 5000%float) as Hmul. unfold SF64mul in Hmul.
  rewrite Hc5 in Hmul, Hr5.
  destruct (SFmul_rounded (Prim2SF (s + 1)%float) 5497558138880000 (-40) Hsa)
    as [Hsb Hrb].
  { rewrite bpow_IZR by (clear; lia). apply IZR_le. apply Z.leb_le. reflexivity. }
  { fold a. rewrite Hr5. lra. }
  rewrite <- Hmul in Hsb, Hrb. fold a in Hrb. rewrite Hr5 in Hrb.
  pose proof (rounded_const 10000%float _ _ 10000 Hc (proj2 (proj2 const_10000)))
    as Htop.
  assert (SF2R (Prim2SF ((s + 1) * 5000)%float) <= 10000) as Hle.
  { apply (rounded_monotone _ _ _ _ Hrb Htop). lra. }
  destruct (Math_round_nearest ((s + 1) * 5000)%float Hsb Hle)
    as (n & Hn & Hround & Hnear).
  destruct (transmitted n Hn) as [Hint Hu64].
  exists n, a, (SF2R (Prim2SF ((s + 1) * 5000)%float)).
  unfold sentimentToBps. rewrite Hround.
  split; [exact Hn|]. split; [exact Hint|]. split; [exact Hu64|].
  split; [exact Hnear|]. split; [exact Hra|exact Hrb].
Qed.

(** A larger probability gives a larger or equal number of basis points. *)
Lemma probToBps_le (p0 p : Js.number) (n0 n : Z) :
  SFfinite (Prim2SF p0) = true -> SFfinite (Prim2SF p) = true ->
  0 <= SF2R (Prim2SF p0) -> SF2R (Prim2SF p0) <= SF2R (Prim2SF p) ->
  SF2R (Prim2SF p) <= 1 ->
  Js.to_integer (probToBps p0) = Some n0 ->
  Js.to_integer (probToBps p) = Some n ->
  (0 <= n0 <= n /\ n <= 10000)%Z.
Proof.
  intros Hf0 Hf H0 Hle H1 Hn0 Hn.
  destruct (probToBps_located p0 Hf0 ltac:(lra))
    as (k0 & y0 & Hk0 & Hi0 & _ & Hy0 & Hr0).
  destruct (probToBps_located p Hf ltac:(lra))
    as (k & y & Hk & Hi & _ & Hy & Hr).
  rewrite Hi0 in Hn0. rewrite Hi in Hn. injection Hn0 as <-. injection Hn as <-.
  assert (y0 <= y) as Hyy by (apply (rounded_monotone _ _ _ _ Hr0 Hr); lra).
  assert (IZR k0 < IZR k + 1) as Hlt by lra.
  rewrite <- plus_IZR in Hlt. apply lt_IZR in Hlt. clear -Hlt Hk0 Hk. lia.
Qed.

(** The same for sentiments. *)
Lemma sentimentToBps_le (s0 s : Js.number) (n0 n : Z) :
  SFfinite (Prim2SF s0) = true -> SFfinite (Prim2SF s) = true ->
  -1 <= SF2R (Prim2SF s0) -> SF2R (Prim2SF s0) <= SF2R (Prim2SF s) ->
  SF2R (Prim2SF s) <= 1 ->
  Js.to_integer (sentimentToBps s0) = Some n0 ->
  Js.to_integer (sentimentToBps s) = Some n ->
  (0 <= n0 <= n /\ n <= 10000)%Z.
Proof.
  intros Hf0 Hf H0 Hle H1 Hn0 Hn.
  destruct (sentimentToBps_located s0 Hf0 ltac:(lra))
    as (k0 & a0 & y0 & Hk0 & Hi0 & _ & Hy0 & Hra0 & Hr0).
  destruct (sentimentToBps_located s Hf ltac:(lra))
    as (k & a & y & Hk & Hi & _ & Hy & Hra & Hr).
  rewrite Hi0 in Hn0. rewrite Hi in Hn. injection Hn0 as <-. injection Hn as <-.
  assert (a0 <= a) as Haa by (apply (rounded_monotone _ _ _ _ Hra0 Hra); lra).
  assert (y0 <= y) as Hyy by (apply (rounded_monotone _ _ _ _ Hr0 Hr); lra).
  assert (IZR k0 < IZR k + 1) as Hlt by lra.
  rewrite <- plus_IZR in Hlt. apply lt_IZR in Hlt. clear -Hlt Hk0 Hk. lia.
Qed.

(** The values that a chain of comparisons between two finite bounds
    orders. *)
Lemma ge_chain_order (lo a b hi : Js.number) :
  SFfinite (Prim2SF lo) = true -> SFfinite (Prim2SF hi) = true ->
  Js.ge a lo = true -> Js.ge b a = true -> Js.ge hi b = true ->
  SFfinite (Prim2SF a) = true /\ SFfinite (Prim2SF b) = true
  /\ SF2R (Prim2SF lo) <= SF2R (Prim2SF a)
  /\ SF2R (Prim2SF a) <= SF2R (Prim2SF b)
  /\ SF2R (Prim2SF b) <= SF2R (Prim2SF hi).
Proof.
  intros Hlo Hhi H1 H2 H3.
  destruct (ge_chain_values lo a b hi Hlo Hhi H1 H2 H3) as [Ha Hb].
  split; [exact Ha|]. split; [exact Hb|].
  split; [|split]; apply ge_values; assumption.
Qed.

End Monotone.

Section Accepted.
Local Open Scope R_scope.

(** An execution that meets the stored thresholds of a strategy that has not
    been executed is committed. *)
Lemma execute_strategy_commits (g : Move.Global) (owner : N) (id m : string)
    (st : Move.Strategy) (pb sb : N) :
  onchain_strategy g owner id = Some st -> Move.executed st = false ->
  (Move.min_prediction_prob st <= pb)%N -> (Move.min_sentiment_score st <= sb)%N ->
  exists g', Move.execute_strategy g owner id m pb sb = Move.Commit g'.
Proof.
  unfold onchain_strategy, Move.execute_strategy. intros Hst Hex Hp Hs.
  destruct (Move.stores g !! owner) as [store|]; [|discriminate].
  rewrite Hst, Hex.
  apply N.leb_le in Hp, Hs. rewrite Hp, Hs. cbn [negb]. eauto.
Qed.

(** X22: basis points keep the order of probabilities.  For two numbers
    [p0 <= p] between 0 and 1, as the comparisons of the program order them,
    [probToBps] gives two integers [n0 <= n] between 0 and 10000: the
    multiplication and [Math.round] never invert a comparison that the
    engine has made. *)
Theorem probToBps_keeps_order (p0 p : Js.number) :
  Js.ge p0 0%float = true -> Js.ge p p0 = true -> Js.ge 1%float p = true ->
  exists n0 n : Z,
    Js.to_integer (probToBps p0) = Some n0
    /\ Js.to_integer (probToBps p) = Some n
    /\ (0 <= n0 <= n)%Z /\ (n <= 10000)%Z.
Proof.
  intros H0 Hge H1.
  destruct (ge_chain_order 0%float p0 p 1%float (proj1 const_0)
              (proj1 const_1) H0 Hge H1) as (Hf0 & Hf & Hlo & Hle & Hhi).
  rewrite (proj2 const_0) in Hlo. rewrite (proj2 (proj2 const_1)) in Hhi.
  destruct (probToBps_located p0 Hf0 ltac:(lra)) as (n0 & _ & _ & Hi0 & _).
  destruct (probToBps_located p Hf ltac:(lra)) as (n & _ & _ & Hi & _).
  exists n0, n. split; [exact Hi0|]. split; [exact Hi|].
  destruct (probToBps_le p0 p n0 n Hf0 Hf Hlo Hle Hhi Hi0 Hi) as [? ?].
  split; assumption.
Qed.

Lemma probToBps_keeps_order_witness :
  exists n0 n : Z,
    Js.to_integer (probToBps 0.55%float) = Some n0
    /\ Js.to_integer (probToBps 0.6%float) = Some n
    /\ (0 <= n0 <= n)%Z /\ (n <= 10000)%Z.
Proof.
  apply (probToBps_keeps_order 0.55%float 0.6%float); reflexivity.
Defined.

(** X23: basis points keep the order of sentiments.  For two numbers
    [s0 <= s] between -1 and 1, [sentimentToBps] gives two integers
    [n0 <= n] between 0 and 10000. *)
Theorem sentimentToBps_keeps_order (s0 s : Js.number) :
  Js.ge s0 (-1)%float = true -> Js.ge s s0 = true -> Js.ge 1%float s = true ->
  exists n0 n : Z,
    Js.to_integer (sentimentToBps s0) = Some n0
    /\ Js.to_integer (sentimentToBps s) = Some n
    /\ (0 <= n0 <= n)%Z /\ (n <= 10000)%Z.
Proof.
  intros H0 Hge H1.
  destruct (ge_chain_order (-1)%float s0 s 1%float (proj1 const_m1)
              (proj1 const_1) H0 Hge H1) as (Hf0 & Hf & Hlo & Hle & Hhi).
  rewrite (proj2 const_m1) in Hlo. rewrite (proj2 (proj2 const_1)) in Hhi.
  destruct (sentimentToBps_located s0 Hf0 ltac:(lra)) as (n0 & _ & _ & _ & Hi0 & _).
  destruct (sentimentToBps_located s Hf ltac:(lra)) as (n & _ & _ & _ & Hi & _).
  exists n0, n. split; [exact Hi0|]. split; [exact Hi|].
  destruct (sentimentToBps_le s0 s n0 n Hf0 Hf Hlo Hle Hhi Hi0 Hi) as [? ?].
  split; assumption.
Qed.

Lemma sentimentToBps_keeps_order_witness :
  exists n0 n : Z,
    Js.to_integer (sentimentToBps (-0.25)%float) = Some n0
    /\ Js.to_integer (sentimentToBps 0.1%float) = Some n
    /\ (0 <= n0 <= n)%Z /\ (n <= 10000)%Z.
Proof.
  apply (sentimentToBps_keeps_order (-0.25)%float 0.1%float); reflexivity.
Defined.

(** X24: what the engine finds eligible, the contract accepts.  Take a
    strategy created through the API with thresholds that its schema allows,
    stored on chain with the thresholds that the API registers and not yet
    executed.  If the engine's comparisons find a probability and a sentiment
    (at most 1 each) eligible, the basis points it transmits meet the stored
    thresholds and [execute_strategy] commits. *)
Theorem eligible_execution_is_accepted (g : Move.Global) (owner : N) (id : string)
    (s : Strategy) (st : Move.Strategy) (p t : Js.number) :
  onchain_strategy g owner id = Some st ->
  Move.executed st = false ->
  u64_of (Js.Math_floor (rp_minPredictionProb (created_registration id s)))
    = Some (Move.min_prediction_prob st) ->
  u64_of (Js.Math_floor (rp_minSentimentScore (created_registration id s)))
    = Some (Move.min_sentiment_score st) ->
  Js.ge (minPredictionProb s) 0%float = true ->
  Js.ge (minSentimentScore s) (-1)%float = true ->
  Js.ge 1%float p = true -> Js.ge 1%float t = true ->
  Js.ge p (minPredictionProb s) && Js.ge t (minSentimentScore s) = true ->
  exists (pb sb : N) (g' : Move.Global),
    u64_of (Js.Math_floor (ep_probBps (execution_of id s p t))) = Some pb
    /\ u64_of (Js.Math_floor (ep_sentimentBps (execution_of id s p t))) = Some sb
    /\ Move.execute_strategy g owner id (marketId s) pb sb = Move.Commit g'.
Proof.
  intros Hst Hex Hrp Hrs H0p H0s H1p H1s Hdec.
  apply andb_prop in Hdec as [Hgp Hgs].
  change (rp_minPredictionProb (created_registration id s))
    with (probToBps (minPredictionProb s)) in Hrp.
  change (rp_minSentimentScore (created_registration id s))
    with (sentimentToBps (minSentimentScore s)) in Hrs.
  change (ep_probBps (execution_of id s p t)) with (probToBps p).
  change (ep_sentimentBps (execution_of id s p t)) with (sentimentToBps t).
  destruct (ge_chain_order 0%float _ p 1%float (proj1 const_0)
              (proj1 const_1) H0p Hgp H1p) as (Hfp0 & Hfp & Hlop & Hlep & Hhip).
  rewrite (proj2 const_0) in Hlop. rewrite (proj2 (proj2 const_1)) in Hhip.
  destruct (ge_chain_order (-1)%float _ t 1%float (proj1 const_m1)
              (proj1 const_1) H0s Hgs H1s) as (Hfs0 & Hfs & Hlos & Hles & Hhis).
  rewrite (proj2 const_m1) in Hlos. rewrite (proj2 (proj2 const_1)) in Hhis.
  destruct (probToBps_located _ Hfp0 ltac:(lra)) as (np0 & _ & Hnp0 & Hip0 & Hup0 & _).
  destruct (probToBps_located p Hfp ltac:(lra)) as (np & _ & Hnp & Hip & Hup & _).
  destruct (sentimentToBps_located _ Hfs0 ltac:(lra))
    as (ns0 & _ & _ & Hns0 & His0 & Hus0 & _).
  destruct (sentimentToBps_located t Hfs ltac:(lra))
    as (ns & _ & _ & Hns & His & Hus & _).
  destruct (probToBps_le _ p np0 np Hfp0 Hfp Hlop Hlep Hhip Hip0 Hip) as [Hpo _].
  destruct (sentimentToBps_le _ t ns0 ns Hfs0 Hfs Hlos Hles Hhis His0 His) as [Hso _].
  rewrite Hup0 in Hrp. rewrite Hus0 in Hrs.
  injection Hrp as Hrp. injection Hrs as Hrs.
  destruct (execute_strategy_commits g owner id (marketId s) st
              (Z.to_N np) (Z.to_N ns) Hst Hex) as [g' Hg'].
  { rewrite <- Hrp. clear -Hpo. lia. }
  { rewrite <- Hrs. clear -Hso. lia. }
  exists (Z.to_N np), (Z.to_N ns), g'.
  split; [exact Hup|]. split; [exact Hus|exact Hg'].
Qed.

Lemma eligible_execution_is_accepted_witness :
  exists (pb sb : N) (g' : Move.Global),
    u64_of (Js.Math_floor
              (ep_probBps (execution_of "s1" (sample_strategy 1000) 0.6%float 0.1%float)))
      = Some pb
    /\ u64_of (Js.Math_floor
                 (ep_sentimentBps (execution_of "s1" (sample_strategy 1000)
                                    0.6%float 0.1%float)))
       = Some sb
    /\ Move.execute_strategy sample_registered 7 "s1"
         (marketId (sample_strategy 1000)) pb sb = Move.Commit g'.
Proof.
  apply (eligible_execution_is_accepted sample_registered 7 "s1"
           (sample_strategy 1000)
           {| Move.id := "s1"; Move.market_id := "CRYPTO_BTC";
              Move.sentiment_tag := "CRYPTO"; Move.min_prediction_prob := 5000;
              Move.min_sentiment_score := 5000; Move.notional_amount := 50;
              Move.expiry_timestamp := 1; Move.executed := false |}
           0.6%float 0.1%float);
    vm_compute; reflexivity.
Defined.

End Accepted.

(** ** What is transmitted *)

Section Transmitted.

Context (E : Env).

Lemma latestMarketSnapshot_elem_of (d : Database) market m :
  latestMarketSnapshot d market = Some m -> m ∈ marketSnapshot d.
Proof.
  unfold latestMarketSnapshot. intros H.
  assert (m ∈ sort_by (fun a b => (ms_timestamp b <=? ms_timestamp a)%Z)
                (filter (fun m => ms_marketId m = market) (marketSnapshot d))) as Hin.
  { destruct (sort_by _ _); [discriminate|]. injection H as ->. left. }
  apply elem_of_sort_by, list_elem_of_filter in Hin. apply Hin.
Qed.

Lemma latestSentimentSnapshot_elem_of (d : Database) tag t :
  latestSentimentSnapshot d tag = Some t -> t ∈ sentimentSnapshot d.
Proof.
  unfold latestSentimentSnapshot. intros H.
  assert (t ∈ sort_by (fun a b => (ss_timestamp b <=? ss_timestamp a)%Z)
                (filter (fun s => ss_tag s = tag) (sentimentSnapshot d))) as Hin.
  { destruct (sort_by _ _); [discriminate|]. injection H as ->. left. }
  apply elem_of_sort_by, list_elem_of_filter in Hin. apply Hin.
Qed.

Lemma sends_conversions_refl (w : World E) : sends_conversions w w.
Proof.
  split; [done|]. split; [done|]. exists []. by rewrite app_nil_r.
Qed.

Lemma sends_conversions_quiet (w w' : World E) :
  marketSnapshot (db w) ⊆ marketSnapshot (db w') ->
  sentimentSnapshot (db w) ⊆ sentimentSnapshot (db w') ->
  events w' = events w ->
  sends_conversions w w'.
Proof.
  intros Hm Ht He. split; [done|]. split; [done|].
  exists []. by rewrite app_nil_r.
Qed.

Lemma sends_conversions_trans (w1 w2 w3 : World E) :
  sends_conversions w1 w2 -> sends_conversions w2 w3 -> sends_conversions w1 w3.
Proof.
  intros (Hm1 & Ht1 & l1 & He1 & Hl1) (Hm2 & Ht2 & l2 & He2 & Hl2).
  split; [by etrans|]. split; [by etrans|].
  exists (l1 ++ l2). rewrite He2, He1, app_assoc. split; [done|].
  apply Forall_app. split; [|done].
  eapply Forall_impl; [exact Hl1|]. intros [| |params|params]; try done.
  intros (m & t & Hm & Ht & Hp & Hs). exists m, t. auto.
Qed.

Lemma sends_conversions_execution (w w' : World E) id s m t :
  marketSnapshot (db w') = marketSnapshot (db w) ->
  sentimentSnapshot (db w') = sentimentSnapshot (db w) ->
  latestMarketSnapshot (db w) (marketId s) = Some m ->
  latestSentimentSnapshot (db w) (sentimentTag s) = Some t ->
  events w'
  = events w ++ [MarketSnapshotLookup id (marketId s)]
      ++ [SentimentSnapshotLookup id (sentimentTag s)]
      ++ [SettlementExecute (execution_of id s (ms_probability m) (ss_score t))] ->
  sends_conversions w w'.
Proof.
  intros Hms Hts Hm Ht He. split; [by rewrite Hms|]. split; [by rewrite Hts|].
  eexists. split; [exact He|].
  repeat constructor. exists m, t. rewrite Hms, Hts.
  split; [by eapply latestMarketSnapshot_elem_of|].
  split; [by eapply latestSentimentSnapshot_elem_of|]. done.
Qed.

Lemma executeStrategy_sends (w : World E) strat :
  sends_conversions w (executeStrategy E w strat).
Proof.
  destruct strat as [id s].
  destruct (Decision.shouldExecute (shouldExecuteStrategy E w (id, s)).2) eqn:Hd.
  - destruct (latestMarketSnapshot (db w) (marketId s)) as [m|] eqn:Hm;
      [|rewrite shouldExecuteStrategy_missing in Hd by auto; discriminate].
    destruct (latestSentimentSnapshot (db w) (sentimentTag s)) as [t|] eqn:Ht;
      [|rewrite shouldExecuteStrategy_missing in Hd by auto; discriminate].
    destruct (shouldExecuteStrategy_found E w id s m t Hm Ht) as (_ & Hp & Hs).
    apply (sends_conversions_execution w _ id s m t); [| |done|done|].
    + rewrite (executeStrategy_fire E w id s Hd). cbv zeta. cbn [db].
      match goal with |- context [if ?b then _ else _] => destruct b end; reflexivity.
    + rewrite (executeStrategy_fire E w id s Hd). cbv zeta. cbn [db].
      match goal with |- context [if ?b then _ else _] => destruct b end; reflexivity.
    + rewrite (executeStrategy_fire E w id s Hd). cbv zeta. cbn [events].
      by rewrite Hp, Hs.
  - rewrite (executeStrategy_skip E w id s Hd).
    split; [done|]. split; [done|]. eexists. split.
    + simpl. rewrite <- app_assoc. reflexivity.
    + repeat constructor.
Qed.

Lemma engineStep_sends (w : World E) strat :
  sends_conversions w (engineStep E w strat).
Proof.
  unfold engineStep. destruct (bool_decide _).
  - apply sends_conversions_quiet; reflexivity.
  - destruct (executeStrategy_sends w strat) as (Hm & Ht & He).
    split; [exact Hm|]. split; [exact Ht|exact He].
Qed.

Lemma executeRoute_sends (w : World E) (strategyId : string) :
  sends_conversions w (executeRoute E w strategyId).1.
Proof.
  destruct (strategy (db w) !! strategyId) as [s|] eqn:Hrow;
    [|unfold executeRoute; rewrite Hrow; apply sends_conversions_refl].
  destruct (decide (status s = ACTIVE)) as [Hactive|Hactive];
    [|unfold executeRoute; rewrite Hrow, bool_decide_eq_true_2 by done;
      apply sends_conversions_refl].
  destruct (latestMarketSnapshot (db w) (marketId s)) as [m|] eqn:Hm.
  - destruct (latestSentimentSnapshot (db w) (sentimentTag s)) as [t|] eqn:Ht.
    + rewrite (executeRoute_found E w strategyId s m t Hrow Hactive Hm Ht). cbv zeta.
      apply (sends_conversions_execution w _ strategyId s m t); try done;
        destruct (executeStrategyViaMCP E _ _) as [c [r|msg]]; cbn [fst snd];
        try reflexivity; simpl; destruct (success r); reflexivity.
    + unfold executeRoute.
      rewrite Hrow, bool_decide_eq_false_2 by (rewrite Hactive; auto).
      rewrite Hm. cbn [db emit]. rewrite Ht.
      split; [done|]. split; [done|]. eexists. split.
      * simpl. rewrite <- app_assoc. reflexivity.
      * repeat constructor.
  - unfold executeRoute.
    rewrite Hrow, bool_decide_eq_false_2 by (rewrite Hactive; auto).
    rewrite Hm. cbn [db emit].
    destruct (latestSentimentSnapshot (db w) (sentimentTag s)).
    all: split; [done|]; split; [done|]; eexists; split;
      [simpl; rewrite <- app_assoc; reflexivity|repeat constructor].
Qed.

Lemma served_sends (requests : list string) (w : World E) :
  sends_conversions w
    (foldl (fun w strategyId => (executeRoute E w strategyId).1) w requests).
Proof.
  revert w. induction requests as [|r requests IH]; intros w; simpl.
  - apply sends_conversions_refl.
  - eapply sends_conversions_trans; [apply executeRoute_sends|apply IH].
Qed.

Lemma sweep_serving_sends loaded : forall served (w : World E),
  sends_conversions w (sweep_serving E w loaded served).
Proof.
  induction loaded as [|strat loaded IH]; intros served w; simpl.
  - apply sends_conversions_refl.
  - eapply sends_conversions_trans; [apply served_sends|].
    eapply sends_conversions_trans; [apply engineStep_sends|apply IH].
Qed.

Lemma sweep_sends (l : list (string * Strategy)) (w : World E) :
  sends_conversions w (foldl (engineStep E) w l).
Proof.
  revert w. induction l as [|strat l IH]; intros w; simpl.
  - apply sends_conversions_refl.
  - eapply sends_conversions_trans; [apply engineStep_sends|apply IH].
Qed.

Lemma step_sends (w : World E) (op : Op) : sends_conversions w (step E w op).
Proof.
  destruct op as [|strategyId|m|t|ms]; simpl.
  - rewrite run_eq. destruct (discovery_checks _ _).
    + apply sends_conversions_refl.
    + apply sweep_sends.
  - apply executeRoute_sends.
  - apply sends_conversions_quiet; [|done|done].
    simpl. intros x Hx. apply elem_of_app. auto.
  - apply sends_conversions_quiet; [done| |done].
    simpl. intros x Hx. apply elem_of_app. auto.
  - apply sends_conversions_quiet; done.
Qed.

Lemma overlap_step_sends (w : World E) (o : Overlap) :
  sends_conversions w (overlap_step E w o).
Proof.
  destruct o as [op|served]; simpl.
  - apply step_sends.
  - rewrite run_serving_eq. destruct (discovery_checks _ _).
    + apply sends_conversions_refl.
    + apply sweep_serving_sends.
Qed.

Lemma history_sends (history : list Overlap) (w : World E) :
  sends_conversions w (foldl (overlap_step E) w history).
Proof.
  revert w. induction history as [|o history IH]; intros w; simpl.
  - apply sends_conversions_refl.
  - eapply sends_conversions_trans; [apply overlap_step_sends|apply IH].
Qed.

End Transmitted.

Section Bounds.
Local Open Scope R_scope.

Lemma in_range_values (lo hi x : Js.number) :
  SFfinite (Prim2SF lo) = true -> SFfinite (Prim2SF hi) = true ->
  Js.ge lo lo = true -> Js.ge x lo = true -> Js.ge hi x = true ->
  SFfinite (Prim2SF x) = true
  /\ SF2R (Prim2SF lo) <= SF2R (Prim2SF x) <= SF2R (Prim2SF hi).
Proof.
  intros Hlo Hhi H0 H1 H2.
  destruct (ge_chain_order lo lo x hi Hlo Hhi H0 H1 H2) as (_ & Hf & _ & Ha & Hb).
  auto.
Qed.

Lemma probToBps_in_range (p : Js.number) :
  Js.ge p 0%float = true -> Js.ge 1%float p = true ->
  exists n : Z,
    (0 <= n <= 10000)%Z
    /\ Js.to_integer (probToBps p) = Some n
    /\ u64_of (Js.Math_floor (probToBps p)) = Some (Z.to_N n).
Proof.
  intros H0 H1.
  destruct (in_range_values 0%float 1%float p (proj1 const_0) (proj1 const_1)
              eq_refl H0 H1) as [Hf Hr].
  rewrite (proj2 const_0), (proj2 (proj2 const_1)) in Hr.
  destruct (probToBps_located p Hf Hr) as (n & y & Hn & Hi & Hu & _).
  eauto.
Qed.

Lemma sentimentToBps_in_range (t : Js.number) :
  Js.ge t (-1)%float = true -> Js.ge 1%float t = true ->
  exists n : Z,
    (0 <= n <= 10000)%Z
    /\ Js.to_integer (sentimentToBps t) = Some n
    /\ u64_of (Js.Math_floor (sentimentToBps t)) = Some (Z.to_N n).
Proof.
  intros H0 H1.
  destruct (in_range_values (-1)%float 1%float t (proj1 const_m1) (proj1 const_1)
              eq_refl H0 H1) as [Hf Hr].
  rewrite (proj2 const_m1), (proj2 (proj2 const_1)) in Hr.
  destruct (sentimentToBps_located t Hf Hr) as (n & a & y & Hn & Hi & Hu & _).
  eauto.
Qed.

End Bounds.


(** An engine run on the sample strategy, with probability 0.6 and sentiment
    0.1 and no fresh sentiment above Discovery's threshold, sends 6000 and
    5500. *)
Example engine_run_transmits :
  let w := sample_world devnet Move.genesis 0.6%float 0.1%float 5000 2000 in
  events (runStrategyExecutionEngine devnet w)
  = [ MarketSnapshotLookup "s1" "CRYPTO_BTC"; SentimentSnapshotLookup "s1" "CRYPTO";
      SettlementExecute {| ep_strategyId := "s1"; ep_marketId := "CRYPTO_BTC";
                           ep_probBps := 6000%float; ep_sentimentBps := 5500%float |} ].
Proof. vm_compute. reflexivity. Qed.
